(** * gorp: smart forwarding core (activity tracker, pending queue, rate limiter)

    A shallow embedding of [src/services/rateLimiter.ts] and
    [src/services/activityTracker.ts], followed by the properties of the
    forwarding core proved on it.

    Conventions of the embedding.
    - JavaScript numbers that hold millisecond timestamps, counts and
      configured minutes are integers well inside the exact range of a
      double, so they are [Z]; [Infinity] is [None] in an [option Z].
    - A JavaScript string is the list of its UTF-16 code units.
    - [Date.now()] is an explicit argument: one reading per synchronous run
      of code, and a separate reading wherever the source reads the clock
      again after an [await].
    - A call that the source awaits is run to its end as one step.  A call
      that it does not await is split at its [await]s: the part up to the
      first one runs inside the caller, the rest is a task that is resumed
      later, on the tracker as it is by then.
    - A mutable object is a record that is passed in and returned; the
      channel table is an insertion-ordered association list, the order in
      which a JavaScript [Map] is iterated. *)

From Stdlib Require Import String Ascii DecimalString.
From Stdlib Require Import ZArith Bool Lia Sorted List.
Import ListNotations.
Local Open Scope Z_scope.

(** ** JavaScript strings *)

Definition jsstring : Type := list N.

(** A string literal of the source (all literals used here are ASCII). *)
Definition lit (s : string) : jsstring :=
  map N_of_ascii (list_ascii_of_string s).

Fixpoint str_eqb (a b : jsstring) : bool :=
  match a, b with
  | [], [] => true
  | x :: a', y :: b' => N.eqb x y && str_eqb a' b'
  | _, _ => false
  end.

(** [String.prototype.startsWith]. *)
Fixpoint startsWith (s prefix : jsstring) : bool :=
  match prefix, s with
  | [], _ => true
  | p :: prefix', c :: s' => N.eqb p c && startsWith s' prefix'
  | _ :: _, [] => false
  end.

(** [String.prototype.includes]. *)
Fixpoint includes (s needle : jsstring) : bool :=
  startsWith s needle ||
  match s with
  | [] => false
  | _ :: s' => includes s' needle
  end.

(** ECMAScript WhiteSpace and LineTerminator code points, the ones
    [String.prototype.trim] strips. *)
Definition isWhiteSpace (c : N) : bool :=
  ((9 <=? c) && (c <=? 13) || (c =? 32) || (c =? 160) || (c =? 5760)
   || (8192 <=? c) && (c <=? 8202) || (c =? 8232) || (c =? 8233)
   || (c =? 8239) || (c =? 8287) || (c =? 12288) || (c =? 65279))%N.

Fixpoint trimStart (s : jsstring) : jsstring :=
  match s with
  | c :: s' => if isWhiteSpace c then trimStart s' else s
  | [] => []
  end.

Definition trim (s : jsstring) : jsstring :=
  rev (trimStart (rev (trimStart s))).

(** Truthiness of a string: only the empty string is falsy. *)
Definition truthy (s : jsstring) : bool :=
  match s with [] => false | _ :: _ => true end.

(** [Array.prototype.join]. *)
Fixpoint join (sep : jsstring) (parts : list jsstring) : jsstring :=
  match parts with
  | [] => []
  | [p] => p
  | p :: rest => p ++ sep ++ join sep rest
  end.

(** Template interpolation of a non-negative count or a number of minutes. *)
Definition numberToString (z : Z) : jsstring :=
  lit (NilZero.string_of_int (Z.to_int z)).

(** Word characters of a regular expression without the [u] flag. *)
Definition isWordChar (c : N) : bool :=
  ((48 <=? c) && (c <=? 57) || (65 <=? c) && (c <=? 90)
   || (97 <=? c) && (c <=? 122) || (c =? 95))%N.

(** A pattern letter under the [i] flag: the letter itself or its upper
    case; no code unit above 127 canonicalizes to an ASCII letter. *)
Definition ciMatch (lower : N) (c : N) : bool :=
  ((c =? lower) || (c =? lower - 32))%N.

(** [/\bgorp\b/i] tried at one position: [prevWord] tells whether the code
    unit before the position is a word character. *)
Definition gorpHere (prevWord : bool) (s : jsstring) : bool :=
  match s with
  | g :: o :: r :: p :: rest =>
      negb prevWord
      && ciMatch 103 g && ciMatch 111 o && ciMatch 114 r && ciMatch 112 p
      && match rest with [] => true | c :: _ => negb (isWordChar c) end
  | _ => false
  end.

Fixpoint gorpFrom (prevWord : bool) (s : jsstring) : bool :=
  gorpHere prevWord s ||
  match s with
  | [] => false
  | c :: s' => gorpFrom (isWordChar c) s'
  end.

(** [/\bgorp\b/i.test(s)]. *)
Definition gorpPattern_test (s : jsstring) : bool := gorpFrom false s.

(** [(size / (1024 * 1024)).toFixed(1)] for a size in bytes: dividing by a
    power of two is exact, and [toFixed] picks the nearest tenth, the larger
    one on a tie. *)
Definition sizeMB (size : Z) : jsstring :=
  let tenths := (size * 10 + 524288) / 1048576 in
  numberToString (tenths / 10) ++ lit "." ++ numberToString (tenths mod 10).

(** [Math.ceil(x / d)] for integers and [d > 0]. *)
Definition ceilDiv (x d : Z) : Z := - ((- x) / d).

(** ** The rate limiter: [src/services/rateLimiter.ts] *)

Module RateLimiter.

Record t : Type := mk {
  messageTimestamps : list Z;
  maxMessagesPerHour : Z
}.

(** [windowMs = 60 * 60 * 1000]: one hour in milliseconds. *)
Definition windowMs : Z := 60 * 60 * 1000.

(** The constructor; [cap] is [config.letta.rateLimitPerHour]. *)
Definition create (cap : Z) : t := mk [] cap.

(** [messageTimestamps.filter(timestamp => now - timestamp < windowMs)]. *)
Definition purge (now : Z) (ts : list Z) : list Z :=
  filter (fun timestamp => now - timestamp <? windowMs) ts.

Definition canSendMessage (now : Z) (rl : t) : t * bool :=
  let ts := purge now (messageTimestamps rl) in
  (mk ts (maxMessagesPerHour rl),
   Z.of_nat (length ts) <? maxMessagesPerHour rl).

Definition recordMessageSent (now : Z) (rl : t) : t :=
  mk (messageTimestamps rl ++ [now]) (maxMessagesPerHour rl).

Record Status : Type := mkStatus {
  messagesInWindow : Z;
  statusMaxMessagesPerHour : Z;
  remainingMessages : Z;
  resetTime : Z
}.

Definition getStatus (now : Z) (rl : t) : t * Status :=
  let ts := purge now (messageTimestamps rl) in
  let messagesInWindow := Z.of_nat (length ts) in
  let remainingMessages := Z.max 0 (maxMessagesPerHour rl - messagesInWindow) in
  let resetTime :=
    match ts with
    | first :: _ => first + windowMs
    | [] => now
    end in
  (mk ts (maxMessagesPerHour rl),
   mkStatus messagesInWindow (maxMessagesPerHour rl) remainingMessages resetTime).

(** [statusNow] is the clock read inside [getStatus], [now] the one read
    right after it. *)
Definition getTimeUntilReset (statusNow now : Z) (rl : t) : t * Z :=
  let (rl', status) := getStatus statusNow rl in
  let timeUntilReset := resetTime status - now in
  (rl', Z.max 0 (ceilDiv timeUntilReset (1000 * 60))).

End RateLimiter.

(** ** Values of the chat platform (discord.js) read by the tracker *)

Record Attachment : Type := mkAttachment {
  att_name : jsstring;
  att_contentType : option jsstring;
  att_size : Z;
  att_url : jsstring
}.

Record User : Type := mkUser {
  user_id : jsstring;
  username : jsstring;
  bot : bool
}.

(** [channel_name] is [None] when the channel object has no [name]
    property (a direct-message channel). *)
Record Channel : Type := mkChannel {
  channel_id : jsstring;
  isTextBased : bool;
  channel_name : option jsstring
}.

(** [attachments] is a discord.js [Collection]: a map from attachment id to
    attachment, kept in its iteration order. *)
Record Message : Type := mkMessage {
  message_id : jsstring;
  author : User;
  channel : Channel;
  content : jsstring;
  attachments : list (jsstring * Attachment)
}.

(** [client.user] is [None] until the client has logged in;
    [channels_cache] is [client.channels.cache]. *)
Record Client : Type := mkClient {
  client_user : option User;
  channels_cache : list (jsstring * Channel)
}.

(** [ImageData] of [src/utils/imageUtils.ts]. *)
Record ImageData : Type := mkImageData {
  img_name : jsstring;
  img_contentType : jsstring;
  img_url : jsstring;
  img_base64Data : option jsstring;
  img_size : option Z;
  img_error : option jsstring
}.

(** What the tracker takes from the JavaScript runtime and from the network,
    kept abstract:
    - [toLowerCase] is [String.prototype.toLowerCase] (full Unicode case
      mapping);
    - [downloadAndEncodeImage a] is the value the promise of
      [imageUtils.downloadAndEncodeImage(a)] settles to; that function
      catches every error and turns it into a descriptor with [error]. *)
Class Runtime : Type := {
  toLowerCase : jsstring -> jsstring;
  downloadAndEncodeImage : Attachment -> ImageData
}.

(** What [lettaService.processQuery] settles to: the reply text, or a
    thrown error. *)
Inductive QueryOutcome : Type :=
| Resolved (response : jsstring)
| Rejected (error : jsstring).

Definition isResolved (outcome : QueryOutcome) : bool :=
  match outcome with Resolved _ => true | Rejected _ => false end.

(** ** An insertion-ordered [Map] with string keys *)

Section JsMap.
Context {V : Type}.

Fixpoint Map_get (k : jsstring) (m : list (jsstring * V)) : option V :=
  match m with
  | [] => None
  | (k', v) :: m' => if str_eqb k k' then Some v else Map_get k m'
  end.

Definition Map_has (k : jsstring) (m : list (jsstring * V)) : bool :=
  match Map_get k m with Some _ => true | None => false end.

(** The new value of the object stored under [k], in place. *)
Fixpoint Map_replace (k : jsstring) (v : V) (m : list (jsstring * V))
  : list (jsstring * V) :=
  match m with
  | [] => []
  | (k', v') :: m' =>
      if str_eqb k k' then (k', v) :: m' else (k', v') :: Map_replace k v m'
  end.

(** [Map.prototype.set]: an existing key keeps its position, a new key is
    appended. *)
Definition Map_set (k : jsstring) (v : V) (m : list (jsstring * V))
  : list (jsstring * V) :=
  if Map_has k m then Map_replace k v m else m ++ [(k, v)].
End JsMap.

(** ** Image ingestion: [processImageAttachments] of [src/utils/imageUtils.ts] *)

Definition allowedImageTypes : list jsstring :=
  map lit ["image/jpeg"; "image/jpg"; "image/png"; "image/gif";
           "image/webp"; "image/bmp"; "image/tiff"; "image/svg+xml"]%string.

Definition isAllowedImage {R : Runtime} (attachment : Attachment) : bool :=
  match att_contentType attachment with
  | Some ct =>
      let contentType := toLowerCase ct in
      truthy contentType && existsb (str_eqb contentType) allowedImageTypes
  | None => false
  end.

(** The batches of three are awaited one after the other and their results
    appended in order, so the result lists the images in attachment order. *)
Definition processImageAttachments {R : Runtime} (atts : list Attachment)
  : list ImageData :=
  map downloadAndEncodeImage (filter isAllowedImage atts).

(** ** The activity tracker: [src/services/activityTracker.ts] *)

Definition nl : jsstring := [10%N].

Definition nonEmpty {A : Type} (l : list A) : bool :=
  match l with [] => false | _ :: _ => true end.

(** [array.slice(-n)]: the last [n] elements, all of them when there are
    fewer. *)
Definition sliceLast {A : Type} (n : nat) (l : list A) : list A :=
  skipn (length l - n) l.

(** [config.letta] as far as the forwarding core reads it (minutes and a
    count, after [parseInt]). *)
Record Config : Type := mkConfig {
  gorpInteractionTimeout : Z;
  batchInterval : Z;
  rateLimitPerHour : Z
}.

Module ActivityTracker.

Record PendingMessage : Type := mkPending {
  text : jsstring;
  images : option (list ImageData)
}.

Record ChannelActivity : Type := mkActivity {
  channelId : jsstring;
  lastGorpMention : Z;
  lastGorpMessage : Z;
  lastActivity : Z;
  pendingMessages : list PendingMessage;
  isActive : bool
}.

Definition set_lastGorpMention (v : Z) (a : ChannelActivity) :=
  mkActivity (channelId a) v (lastGorpMessage a) (lastActivity a)
             (pendingMessages a) (isActive a).
Definition set_lastGorpMessage (v : Z) (a : ChannelActivity) :=
  mkActivity (channelId a) (lastGorpMention a) v (lastActivity a)
             (pendingMessages a) (isActive a).
Definition set_lastActivity (v : Z) (a : ChannelActivity) :=
  mkActivity (channelId a) (lastGorpMention a) (lastGorpMessage a) v
             (pendingMessages a) (isActive a).
Definition set_pendingMessages (v : list PendingMessage) (a : ChannelActivity) :=
  mkActivity (channelId a) (lastGorpMention a) (lastGorpMessage a)
             (lastActivity a) v (isActive a).
Definition set_isActive (v : bool) (a : ChannelActivity) :=
  mkActivity (channelId a) (lastGorpMention a) (lastGorpMessage a)
             (lastActivity a) (pendingMessages a) v.

(** The tracker object.  [lettaService] is the downstream sender, whose
    answers are supplied from outside; the scheduler's timer handle holds
    no data. *)
Record t : Type := mk {
  channelActivities : list (jsstring * ChannelActivity);
  client : Client;
  rateLimiter : RateLimiter.t;
  GORP_INTERACTION_TIMEOUT : Z;
  BATCH_INTERVAL : Z
}.

Definition set_channelActivities (m : list (jsstring * ChannelActivity)) (tr : t) :=
  mk m (client tr) (rateLimiter tr) (GORP_INTERACTION_TIMEOUT tr) (BATCH_INTERVAL tr).
Definition set_rateLimiter (rl : RateLimiter.t) (tr : t) :=
  mk (channelActivities tr) (client tr) rl (GORP_INTERACTION_TIMEOUT tr) (BATCH_INTERVAL tr).

(** The constructor: minutes are converted to milliseconds. *)
Definition create (cl : Client) (rl : RateLimiter.t) (cfg : Config) : t :=
  mk [] cl rl
     (gorpInteractionTimeout cfg * 60 * 1000)
     (batchInterval cfg * 60 * 1000).

(** [`${this.client.user?.id}`]: the text [undefined] without a user. *)
Definition clientUserIdText (cl : Client) : jsstring :=
  match client_user cl with
  | Some u => user_id u
  | None => lit "undefined"
  end.

Definition isGorpMentioned {R : Runtime} (cl : Client) (message : Message) : bool :=
  let content := toLowerCase (content message) in
  let botMention := lit "<@" ++ clientUserIdText cl ++ lit ">" in
  let botMentionNick := lit "<@!" ++ clientUserIdText cl ++ lit ">" in
  if includes content botMention || includes content botMentionNick
  then true
  else gorpPattern_test content.

(** [message.author.id === this.client.user?.id]. *)
Definition isFromGorp (cl : Client) (message : Message) : bool :=
  match client_user cl with
  | Some u => str_eqb (user_id (author message)) (user_id u)
  | None => false
  end.

(** [message.channel.isTextBased() && 'name' in message.channel
     ? `#${message.channel.name}` : 'DM']. *)
Definition messageChannelName (message : Message) : jsstring :=
  match isTextBased (channel message), channel_name (channel message) with
  | true, Some name => lit "#" ++ name
  | _, _ => lit "DM"
  end.

(** [channel && 'name' in channel ? `#${channel.name}` : 'Unknown Channel']
    for [channel = client.channels.cache.get(id)]. *)
Definition cachedChannelName (cl : Client) (id : jsstring) : jsstring :=
  match Map_get id (channels_cache cl) with
  | Some ch =>
      match channel_name ch with
      | Some name => lit "#" ++ name
      | None => lit "Unknown Channel"
      end
  | None => lit "Unknown Channel"
  end.

Definition isImageAttachment (entry : jsstring * Attachment) : bool :=
  match att_contentType (snd entry) with
  | Some ct => startsWith ct (lit "image/")
  | None => false
  end.

(** One line of the image manifest.  [Collection.forEach] hands the
    callback the attachment and its key, so [index] is the attachment id
    and [index + 1] appends the digit 1 to it. *)
Definition imageLine (entry : jsstring * Attachment) : jsstring :=
  let index := fst entry in
  let attachment := snd entry in
  nl ++ lit "  " ++ (index ++ lit "1") ++ lit ". " ++ att_name attachment
     ++ lit " ("
     ++ match att_contentType attachment with
        | Some ct => ct
        | None => lit "null"
        end
     ++ lit ", " ++ sizeMB (att_size attachment) ++ lit "MB) - "
     ++ att_url attachment.

Definition formatMessageWithImages (message : Message)
           (channelName : jsstring) : jsstring :=
  let formattedMessage :=
    lit "[messageId: " ++ message_id message ++ lit "] "
        ++ username (author message) ++ lit " in " ++ channelName ++ lit ":" in
  let formattedMessage :=
    if truthy (trim (content message))
    then formattedMessage ++ lit " " ++ content message
    else formattedMessage in
  if nonEmpty (attachments message) then
    let imageAttachments := filter isImageAttachment (attachments message) in
    if nonEmpty imageAttachments then
      formattedMessage ++ nl ++ lit "[Images attached:"
                       ++ concat (map imageLine imageAttachments) ++ lit "]"
    else formattedMessage
  else formattedMessage.

(** What [addPendingMessage] pushes for a message. *)
Definition pendingOf {R : Runtime} (message : Message) : PendingMessage :=
  let channelName := messageChannelName message in
  let formattedText := formatMessageWithImages message channelName in
  let imageData :=
    if nonEmpty (attachments message)
    then processImageAttachments (map snd (attachments message))
    else [] in
  mkPending formattedText (if nonEmpty imageData then Some imageData else None).

(** [!message.content.trim() && message.attachments.size === 0]. *)
Definition isEmptyMessage (message : Message) : bool :=
  negb (truthy (trim (content message))) && negb (nonEmpty (attachments message)).

Definition addPendingMessage {R : Runtime} (activity : ChannelActivity)
           (message : Message) : ChannelActivity :=
  if isEmptyMessage message then activity
  else
    let pushed := pendingMessages activity ++ [pendingOf message] in
    if (50 <? length pushed)%nat
    then set_pendingMessages (sliceLast 50 pushed) activity
    else set_pendingMessages pushed activity.

Definition formatTimeRange (now lastActivity : Z) : jsstring :=
  let diff := now - lastActivity in
  let minutes := diff / (1000 * 60) in
  if minutes <? 1 then lit "few seconds"
  else if minutes =? 1 then lit "1 minute"
  else numberToString minutes ++ lit " minutes".

(** The header and the queued lines shared by both kinds of digest. *)
Definition batchHeader (now : Z) (cl : Client) (activity : ChannelActivity)
  : jsstring :=
  let channelName := cachedChannelName cl (channelId activity) in
  let messageCount := Z.of_nat (length (pendingMessages activity)) in
  let timeRange := formatTimeRange now (lastActivity activity) in
  lit "[Discord Batch Update] " ++ numberToString messageCount
      ++ lit " messages in " ++ channelName ++ lit " over the past "
      ++ timeRange ++ lit ":" ++ nl ++ nl
      ++ join nl (map text (pendingMessages activity)).

Definition createBatchSummary (now : Z) (cl : Client) (activity : ChannelActivity)
  : option jsstring :=
  if negb (nonEmpty (pendingMessages activity)) then None
  else Some (batchHeader now cl activity).

(** [allImages]: the images of the queued entries, in queue order. *)
Definition collectImages (pending : list PendingMessage) : list ImageData :=
  concat (map (fun msg => match images msg with
                          | Some imgs => imgs
                          | None => []
                          end) pending).

(** *** The flush started by a mention: [sendBatchUpdate]

    [shouldForwardImmediately] calls [sendBatchUpdate] without awaiting
    it.  The call runs up to its first [await] and is then suspended; what
    is left of it is a [FlushTask], resumed when the awaited promise
    settles.  The digest and the images gathered so far are fixed at the
    call; the task keeps its reference to the [activity] object, which is
    the key [ref] under which that object sits in the channel table. *)
Inductive FlushTask : Type :=
| AwaitImages (ref : jsstring) (summary : jsstring)
              (allImages : list ImageData) (mentionAttachments : list Attachment)
| AwaitQuery (ref : jsstring) (summary : jsstring)
             (allImages : list ImageData).

(** From the rate-limit check up to the call of [processQuery]. *)
Definition sendBatchUpdate_send (now : Z) (rl : RateLimiter.t)
           (ref summary : jsstring) (allImages : list ImageData)
  : RateLimiter.t * option FlushTask :=
  let (rl1, admitted) := RateLimiter.canSendMessage now rl in
  if negb admitted then
    let (rl2, _) := RateLimiter.getStatus now rl1 in
    let (rl3, _) := RateLimiter.getTimeUntilReset now now rl2 in
    (rl3, None)
  else (rl1, Some (AwaitQuery ref summary allImages)).

(** [sendBatchUpdate(activity, mentionMessage)] up to its first [await];
    [ref] is the key under which [activity] is stored. *)
Definition sendBatchUpdate (now : Z) (cl : Client)
           (rl : RateLimiter.t) (ref : jsstring) (activity : ChannelActivity)
           (mentionMessage : Message) : RateLimiter.t * option FlushTask :=
  let summary := batchHeader now cl activity in
  let mentionChannelName := messageChannelName mentionMessage in
  let mentionFormatted :=
    nl ++ nl ++ lit "--- MENTION ---" ++ nl
       ++ formatMessageWithImages mentionMessage mentionChannelName in
  let summary := summary ++ mentionFormatted in
  let allImages := collectImages (pendingMessages activity) in
  if nonEmpty (attachments mentionMessage) then
    (rl, Some (AwaitImages ref summary allImages
                           (map snd (attachments mentionMessage))))
  else sendBatchUpdate_send now rl ref summary allImages.

(** The rest of a suspended [sendBatchUpdate], run when the awaited promise
    has settled.  [outcome] is what [processQuery] settled to; a task that
    awaits the mention's images does not read it.  An error thrown by
    [processQuery] is caught and logged, nothing else. *)
Definition sendBatchUpdate_resume {R : Runtime} (now : Z) (outcome : QueryOutcome)
           (task : FlushTask) (tr : t) : t * option FlushTask :=
  match task with
  | AwaitImages ref summary allImages mentionAttachments =>
      let mentionImages := processImageAttachments mentionAttachments in
      let (rl, next) :=
        sendBatchUpdate_send now (rateLimiter tr) ref summary
                             (allImages ++ mentionImages) in
      (set_rateLimiter rl tr, next)
  | AwaitQuery ref summary allImages =>
      match outcome with
      | Resolved _ =>
          let rl := RateLimiter.recordMessageSent now (rateLimiter tr) in
          let table :=
            match Map_get ref (channelActivities tr) with
            | Some activity =>
                Map_replace ref (set_pendingMessages [] activity)
                            (channelActivities tr)
            | None => channelActivities tr
            end in
          (set_channelActivities table (set_rateLimiter rl tr), None)
      | Rejected _ => (tr, None)
      end
  end.

(** A flush run to its end with nothing else happening in between:
    [t1] and [t2] are the clock at the first and at the second
    resumption. *)
Definition sendBatchUpdate_finish {R : Runtime} (t1 t2 : Z) (outcome : QueryOutcome)
           (task : option FlushTask) (tr : t) : t :=
  match task with
  | None => tr
  | Some task1 =>
      match sendBatchUpdate_resume t1 outcome task1 tr with
      | (tr1, None) => tr1
      | (tr1, Some task2) => fst (sendBatchUpdate_resume t2 outcome task2 tr1)
      end
  end.

Definition freshActivity (channelId : jsstring) : ChannelActivity :=
  mkActivity channelId 0 0 0 [] false.

Definition getOrCreateChannelActivity (channelId : jsstring)
           (table : list (jsstring * ChannelActivity))
  : list (jsstring * ChannelActivity) * ChannelActivity :=
  let table :=
    if negb (Map_has channelId table)
    then Map_set channelId (freshActivity channelId) table
    else table in
  (table,
   match Map_get channelId table with
   | Some activity => activity
   | None => freshActivity channelId
   end).

(** [now - last] when [last > 0], otherwise [Infinity]. *)
Definition timeSince (now last : Z) : option Z :=
  if 0 <? last then Some (now - last) else None.

Definition lessThan (d : option Z) (bound : Z) : bool :=
  match d with
  | Some x => x <? bound
  | None => false
  end.

(** The body of [shouldForwardImmediately] on the channel's [activity]
    object, stored under [channelId]: the new activity, the rate limiter,
    the returned boolean and the flush left running, if any.  The enqueue
    that ends the last branch is run here to its end within the call.  That
    is how a message without attachments is handled; for a message with
    attachments [addPendingMessage] awaits their download before it pushes,
    other calls run meanwhile, and the call as it then runs is
    [Enqueue.shouldForwardImmediately_start] followed, later, by
    [Enqueue.addPendingMessage_resume]. *)
Definition shouldForwardImmediately_on {R : Runtime} (now : Z) (tr : t)
           (channelId : jsstring) (activity : ChannelActivity)
           (message : Message)
  : ChannelActivity * RateLimiter.t * bool * option FlushTask :=
  let activity := set_lastActivity now activity in
  if isGorpMentioned (client tr) message then
    let (rl, task) :=
      if nonEmpty (pendingMessages activity)
      then sendBatchUpdate now (client tr) (rateLimiter tr) channelId
                           activity message
      else (rateLimiter tr, None) in
    let activity := set_lastGorpMention now activity in
    let activity := set_isActive true activity in
    (activity, rl, true, task)
  else if isFromGorp (client tr) message then
    let activity := set_lastGorpMessage now activity in
    let activity := set_isActive true activity in
    (activity, rateLimiter tr, true, None)
  else
    let timeSinceLastGorpMention := timeSince now (lastGorpMention activity) in
    let timeSinceLastGorpMessage := timeSince now (lastGorpMessage activity) in
    let isWithinMentionTimeout :=
      lessThan timeSinceLastGorpMention (GORP_INTERACTION_TIMEOUT tr) in
    let isWithinMessageTimeout :=
      lessThan timeSinceLastGorpMessage (GORP_INTERACTION_TIMEOUT tr) in
    if isWithinMentionTimeout || isWithinMessageTimeout then
      (set_isActive true activity, rateLimiter tr, true, None)
    else
      let activity := set_isActive false activity in
      (addPendingMessage activity message, rateLimiter tr, false, None).

Definition shouldForwardImmediately {R : Runtime} (now : Z) (message : Message)
           (tr : t) : t * bool * option FlushTask :=
  let channelId := channel_id (channel message) in
  let (table, activity) :=
    getOrCreateChannelActivity channelId (channelActivities tr) in
  let '(activity, rl, result, task) :=
    shouldForwardImmediately_on now tr channelId activity message in
  (set_channelActivities (Map_replace channelId activity table)
                         (set_rateLimiter rl tr),
   result, task).

(** [getChannelActivity]. *)
Definition getChannelActivity (channelId : jsstring) (tr : t)
  : option ChannelActivity :=
  Map_get channelId (channelActivities tr).

(** *** The scheduled flush: [processBatchUpdates] *)

(** What one iteration of the scheduler's loop meets: the clock when the
    iteration runs, what [processQuery] settles to if it is called, and
    the clock once it has settled. *)
Record Turn : Type := mkTurn {
  startedAt : Z;
  outcome : QueryOutcome;
  settledAt : Z
}.

(** What an iteration does outside the tracker: the rate-limit notice on
    the console, or the call of [processQuery] with what it settled to
    (a rejection is caught and logged). *)
Inductive BatchEvent : Type :=
| RateLimited (channel : jsstring)
| Query (channel : jsstring) (summary : jsstring)
        (allImages : list ImageData) (answer : QueryOutcome).

Definition eventChannel (e : BatchEvent) : jsstring :=
  match e with
  | RateLimited c => c
  | Query c _ _ _ => c
  end.

(** The body of the loop for one entry of the channel table, with the
    awaited [processQuery] run inside the step; [now] is the clock read once
    at the start of the tick.  This is an iteration during whose await
    nothing else touches the tracker; split at the await it is
    [Scheduler.processChannel_start] and [Scheduler.processChannel_resume]. *)
Definition processChannel (now : Z) (cl : Client) (interval : Z) (turn : Turn)
           (rl : RateLimiter.t) (channelId : jsstring)
           (activity : ChannelActivity)
  : RateLimiter.t * ChannelActivity * list BatchEvent :=
  if negb (nonEmpty (pendingMessages activity)) then (rl, activity, [])
  else if isActive activity then (rl, activity, [])
  else if interval <? now - lastActivity activity then (rl, activity, [])
  else
    match createBatchSummary (startedAt turn) cl activity with
    | Some summary =>
        if truthy summary then
          let (rl1, admitted) := RateLimiter.canSendMessage (startedAt turn) rl in
          if negb admitted then
            let (rl2, _) := RateLimiter.getStatus (startedAt turn) rl1 in
            let (rl3, _) :=
              RateLimiter.getTimeUntilReset (startedAt turn) (startedAt turn) rl2 in
            (rl3, activity, [RateLimited channelId])
          else
            let allImages := collectImages (pendingMessages activity) in
            match outcome turn with
            | Resolved r =>
                (RateLimiter.recordMessageSent (settledAt turn) rl1,
                 set_pendingMessages [] activity,
                 [Query channelId summary allImages (Resolved r)])
            | Rejected e =>
                (rl1, activity, [Query channelId summary allImages (Rejected e)])
            end
        else (rl, activity, [])
    | None => (rl, activity, [])
    end.

(** The [for ... of this.channelActivities.entries()] loop of a tick
    during whose awaits nothing else touches the tracker; the [i]-th entry
    of the table meets [world i].  It is one of the ways a tick can run.
    In general messages are handled while an iteration awaits
    [processQuery], and the loop, which iterates over the live table, sees
    what they changed and added: that loop is
    [Scheduler.processBatchUpdates_from] and
    [Scheduler.processBatchUpdates_resume]. *)
Fixpoint processEntries (now : Z) (cl : Client) (interval : Z)
         (world : nat -> Turn) (i : nat) (rl : RateLimiter.t)
         (entries : list (jsstring * ChannelActivity))
  : RateLimiter.t * list (jsstring * ChannelActivity) * list BatchEvent :=
  match entries with
  | [] => (rl, [], [])
  | (channelId, activity) :: rest =>
      let '(rl1, activity1, events1) :=
        processChannel now cl interval (world i) rl channelId activity in
      let '(rl2, rest2, events2) :=
        processEntries now cl interval world (S i) rl1 rest in
      (rl2, (channelId, activity1) :: rest2, events1 ++ events2)
  end.

Definition processBatchUpdates (now : Z) (world : nat -> Turn) (tr : t)
  : t * list BatchEvent :=
  let '(rl, table, events) :=
    processEntries now (client tr) (BATCH_INTERVAL tr) world 0
                   (rateLimiter tr) (channelActivities tr) in
  (set_channelActivities table (set_rateLimiter rl tr), events).

End ActivityTracker.

(** ** The tracker's calls, split at their awaits

    [addPendingMessage] awaits the download of a message's images before it
    pushes, and the loop of [processBatchUpdates] awaits [processQuery]
    inside an iteration.  Other calls run during these awaits.  The
    definitions below are the pieces that run in one go; what is awaited
    is resumed on the tracker as it is by then. *)

Module Enqueue.
Import ActivityTracker.

(** A suspended [addPendingMessage]: it awaits the images of
    [pushAttachments] and will then push an entry with the text
    [formattedText], fixed before the await, onto the queue of the
    [activity] object, which sits in the table under [pushRef]. *)
Record PushTask : Type := mkPushTask {
  pushRef : jsstring;
  formattedText : jsstring;
  pushAttachments : list Attachment
}.

(** [activity.pendingMessages.push(pendingMessage)] and the cut to the last
    50 entries. *)
Definition push (pendingMessage : PendingMessage) (activity : ChannelActivity)
  : ChannelActivity :=
  let pushed := pendingMessages activity ++ [pendingMessage] in
  if (50 <? length pushed)%nat
  then set_pendingMessages (sliceLast 50 pushed) activity
  else set_pendingMessages pushed activity.

(** [addPendingMessage] up to its [await]: without attachments there is
    none and the entry is pushed at once. *)
Definition addPendingMessage_start (ref : jsstring) (activity : ChannelActivity)
           (message : Message) : ChannelActivity * option PushTask :=
  if isEmptyMessage message then (activity, None)
  else
    let channelName := messageChannelName message in
    let formattedText := formatMessageWithImages message channelName in
    if nonEmpty (attachments message) then
      (activity,
       Some (mkPushTask ref formattedText (map snd (attachments message))))
    else (push (mkPending formattedText None) activity, None).

(** The [pendingMessage] built when the images have been processed. *)
Definition pendingMessageOf {R : Runtime} (task : PushTask) : PendingMessage :=
  let imageData := processImageAttachments (pushAttachments task) in
  mkPending (formattedText task)
            (if nonEmpty imageData then Some imageData else None).

(** The rest of [addPendingMessage], run when the images have been
    processed: the entry is pushed onto the queue as it is by then. *)
Definition addPendingMessage_resume {R : Runtime} (task : PushTask) (tr : t) : t :=
  match Map_get (pushRef task) (channelActivities tr) with
  | Some activity =>
      set_channelActivities
        (Map_replace (pushRef task) (push (pendingMessageOf task) activity)
                     (channelActivities tr))
        tr
  | None => tr
  end.

(** The body of [shouldForwardImmediately] up to the [await] of its last
    branch: the new activity, the rate limiter, the boolean the call will
    return, the flush left running and the enqueue left running, if any. *)
Definition shouldForwardImmediately_on_start {R : Runtime} (now : Z) (tr : t)
           (channelId : jsstring) (activity : ChannelActivity)
           (message : Message)
  : ChannelActivity * RateLimiter.t * bool * option FlushTask * option PushTask :=
  let activity := set_lastActivity now activity in
  if isGorpMentioned (client tr) message then
    let (rl, task) :=
      if nonEmpty (pendingMessages activity)
      then sendBatchUpdate now (client tr) (rateLimiter tr) channelId
                           activity message
      else (rateLimiter tr, None) in
    let activity := set_lastGorpMention now activity in
    let activity := set_isActive true activity in
    (activity, rl, true, task, None)
  else if isFromGorp (client tr) message then
    let activity := set_lastGorpMessage now activity in
    let activity := set_isActive true activity in
    (activity, rateLimiter tr, true, None, None)
  else
    let timeSinceLastGorpMention := timeSince now (lastGorpMention activity) in
    let timeSinceLastGorpMessage := timeSince now (lastGorpMessage activity) in
    let isWithinMentionTimeout :=
      lessThan timeSinceLastGorpMention (GORP_INTERACTION_TIMEOUT tr) in
    let isWithinMessageTimeout :=
      lessThan timeSinceLastGorpMessage (GORP_INTERACTION_TIMEOUT tr) in
    if isWithinMentionTimeout || isWithinMessageTimeout then
      (set_isActive true activity, rateLimiter tr, true, None, None)
    else
      let activity := set_isActive false activity in
      let (activity, pushTask) := addPendingMessage_start channelId activity message in
      (activity, rateLimiter tr, false, None, pushTask).

(** [shouldForwardImmediately] up to the [await] of its last branch.  When
    no enqueue is left running, this is the whole call. *)
Definition shouldForwardImmediately_start {R : Runtime} (now : Z) (message : Message)
           (tr : t) : t * bool * option FlushTask * option PushTask :=
  let channelId := channel_id (channel message) in
  let (table, activity) :=
    getOrCreateChannelActivity channelId (channelActivities tr) in
  let '(activity, rl, result, task, pushTask) :=
    shouldForwardImmediately_on_start now tr channelId activity message in
  (set_channelActivities (Map_replace channelId activity table)
                         (set_rateLimiter rl tr),
   result, task, pushTask).

End Enqueue.

Module Scheduler.
Import ActivityTracker.

(** An iteration of the loop of [processBatchUpdates] up to its call of
    [processQuery]: the limiter after the check, and the digest and the
    images of the call, if one is made.  [now] is the clock read at the
    start of the tick, [startedAt] the clock of the iteration. *)
Definition processChannel_start (now : Z) (cl : Client) (interval : Z)
           (startedAt : Z) (rl : RateLimiter.t) (activity : ChannelActivity)
  : RateLimiter.t * option (jsstring * list ImageData) :=
  if negb (nonEmpty (pendingMessages activity)) then (rl, None)
  else if isActive activity then (rl, None)
  else if interval <? now - lastActivity activity then (rl, None)
  else
    match createBatchSummary startedAt cl activity with
    | Some summary =>
        if truthy summary then
          let (rl1, admitted) := RateLimiter.canSendMessage startedAt rl in
          if negb admitted then
            let (rl2, _) := RateLimiter.getStatus startedAt rl1 in
            let (rl3, _) := RateLimiter.getTimeUntilReset startedAt startedAt rl2 in
            (rl3, None)
          else (rl1, Some (summary, collectImages (pendingMessages activity)))
        else (rl, None)
    | None => (rl, None)
    end.

(** The rest of the iteration, run when [processQuery] has settled: the
    send is recorded and the queue of the [activity] object, which sits in
    the table under [channelId], is emptied; a rejection is caught and
    logged. *)
Definition processChannel_resume (settledAt : Z) (outcome : QueryOutcome)
           (channelId : jsstring) (tr : t) : t :=
  match outcome with
  | Resolved _ =>
      let rl := RateLimiter.recordMessageSent settledAt (rateLimiter tr) in
      let table :=
        match Map_get channelId (channelActivities tr) with
        | Some activity =>
            Map_replace channelId (set_pendingMessages [] activity)
                        (channelActivities tr)
        | None => channelActivities tr
        end in
      set_channelActivities table (set_rateLimiter rl tr)
  | Rejected _ => tr
  end.

(** A tick suspended in an iteration: [tickNow] is the clock read at the
    start of the tick, [position] the place in the table of the entry the
    loop is at, [tickRef] its key, and [tickSummary], [tickImages] the
    arguments of the call of [processQuery] that is awaited. *)
Record TickTask : Type := mkTickTask {
  tickNow : Z;
  position : nat;
  tickRef : jsstring;
  tickSummary : jsstring;
  tickImages : list ImageData
}.

(** The loop of [processBatchUpdates] from the entry at place [i] on, as far
    as it runs in one go: up to the first call of [processQuery], or to the
    end of the table.  [entries] are the entries from place [i] on, [clock]
    is the clock of this run.  Besides the limiter it gives the channels
    for which the rate-limit notice was logged, and the suspended tick, if
    a call was made. *)
Fixpoint processBatchUpdates_scan (now clock : Z) (cl : Client) (interval : Z)
         (rl : RateLimiter.t) (i : nat) (entries : list (jsstring * ChannelActivity))
  : RateLimiter.t * list jsstring * option TickTask :=
  match entries with
  | [] => (rl, [], None)
  | (channelId, activity) :: rest =>
      if negb (nonEmpty (pendingMessages activity))
      then processBatchUpdates_scan now clock cl interval rl (S i) rest
      else if isActive activity
      then processBatchUpdates_scan now clock cl interval rl (S i) rest
      else if interval <? now - lastActivity activity
      then processBatchUpdates_scan now clock cl interval rl (S i) rest
      else
        match createBatchSummary clock cl activity with
        | Some summary =>
            if truthy summary then
              let (rl1, admitted) := RateLimiter.canSendMessage clock rl in
              if negb admitted then
                let (rl2, _) := RateLimiter.getStatus clock rl1 in
                let (rl3, _) := RateLimiter.getTimeUntilReset clock clock rl2 in
                let '(rl4, notices, task) :=
                  processBatchUpdates_scan now clock cl interval rl3 (S i) rest in
                (rl4, channelId :: notices, task)
              else
                (rl1, [],
                 Some (mkTickTask now i channelId summary
                                  (collectImages (pendingMessages activity))))
            else processBatchUpdates_scan now clock cl interval rl (S i) rest
        | None => processBatchUpdates_scan now clock cl interval rl (S i) rest
        end
  end.

(** The loop run from place [i] of the table as it is now. *)
Definition processBatchUpdates_from (now clock : Z) (i : nat) (tr : t)
  : t * list jsstring * option TickTask :=
  let '(rl, notices, task) :=
    processBatchUpdates_scan now clock (client tr) (BATCH_INTERVAL tr)
                             (rateLimiter tr) i (skipn i (channelActivities tr)) in
  (set_rateLimiter rl tr, notices, task).

(** [processBatchUpdates()] up to its first [await]. *)
Definition processBatchUpdates_start (now : Z) (tr : t)
  : t * list jsstring * option TickTask :=
  processBatchUpdates_from now now 0 tr.

(** A suspended tick resumed when its call has settled to [outcome]: the
    rest of the iteration, then the loop from the next entry of the table
    as it is by then. *)
Definition processBatchUpdates_resume (clock : Z) (outcome : QueryOutcome)
           (task : TickTask) (tr : t) : t * list jsstring * option TickTask :=
  processBatchUpdates_from (tickNow task) clock (S (position task))
                           (processChannel_resume clock outcome (tickRef task) tr).

End Scheduler.

(** ** The trackers a run of the bot can reach *)

(** A tracker is constructed, then sees messages, resumptions of flushes
    and ticks of the scheduler, in any order: whole calls when nothing runs
    during their awaits, and otherwise their pieces, with other calls in
    between.  The limiter is shared with the message handler, which checks
    and records on it outside the tracker. *)
Inductive Reachable {R : Runtime} : ActivityTracker.t -> Prop :=
| reach_create (cl : Client) (rl : RateLimiter.t) (cfg : Config) :
    Reachable (ActivityTracker.create cl rl cfg)
| reach_message (now : Z) (message : Message) (tr : ActivityTracker.t) :
    Reachable tr ->
    Reachable (fst (fst (ActivityTracker.shouldForwardImmediately now message tr)))
| reach_resume (now : Z) (outcome : QueryOutcome)
               (task : ActivityTracker.FlushTask) (tr : ActivityTracker.t) :
    Reachable tr ->
    Reachable (fst (ActivityTracker.sendBatchUpdate_resume now outcome task tr))
| reach_tick (now : Z) (world : nat -> ActivityTracker.Turn)
             (tr : ActivityTracker.t) :
    Reachable tr ->
    Reachable (fst (ActivityTracker.processBatchUpdates now world tr))
| reach_message_start (now : Z) (message : Message) (tr : ActivityTracker.t) :
    Reachable tr ->
    Reachable (fst (fst (fst (Enqueue.shouldForwardImmediately_start now message tr))))
| reach_push (task : Enqueue.PushTask) (tr : ActivityTracker.t) :
    Reachable tr ->
    Reachable (Enqueue.addPendingMessage_resume task tr)
| reach_tick_from (now clock : Z) (i : nat) (tr : ActivityTracker.t) :
    Reachable tr ->
    Reachable (fst (fst (Scheduler.processBatchUpdates_from now clock i tr)))
| reach_tick_resume (clock : Z) (outcome : QueryOutcome)
                    (task : Scheduler.TickTask) (tr : ActivityTracker.t) :
    Reachable tr ->
    Reachable (fst (fst (Scheduler.processBatchUpdates_resume clock outcome task tr)))
| reach_limiter (rl : RateLimiter.t) (tr : ActivityTracker.t) :
    Reachable tr ->
    Reachable (ActivityTracker.set_rateLimiter rl tr).

(** ** Notions of the specification, stated in its own words *)

Module Spec.

(** The timestamps within the trailing hour of [now]. *)
Definition withinTrailingHour (now : Z) (ts : list Z) : list Z :=
  filter (fun t => now - 3600000 <? t) ts.

(** The oldest (smallest) timestamp of a sequence. *)
Fixpoint oldest (ts : list Z) : option Z :=
  match ts with
  | [] => None
  | t :: rest =>
      match oldest rest with
      | None => Some t
      | Some m => Some (Z.min t m)
      end
  end.

(** One [canSendMessage()]-then-[recordMessageSent()] cycle: the check at
    [checkedAt], the record at [recordedAt]. *)
Definition cycle (checkedAt recordedAt : Z) (rl : RateLimiter.t)
  : RateLimiter.t * bool :=
  let (rl1, ok) := RateLimiter.canSendMessage checkedAt rl in
  (RateLimiter.recordMessageSent recordedAt rl1, ok).

(** Eligibility for the scheduled flush: the queue is non-empty, the
    channel is not active, and its last activity is at most one batch
    interval old. *)
Definition eligible (now interval : Z)
           (activity : ActivityTracker.ChannelActivity) : bool :=
  nonEmpty (ActivityTracker.pendingMessages activity)
  && negb (ActivityTracker.isActive activity)
  && (now - ActivityTracker.lastActivity activity <=? interval).

Definition isEligibleEntry (now interval : Z)
           (entry : jsstring * ActivityTracker.ChannelActivity) : bool :=
  eligible now interval (snd entry).

(** The record [shouldForwardImmediately] works on for a channel: the one
    in the table, or the one created on the channel's first message. *)
Definition activityOf (channelId : jsstring) (tr : ActivityTracker.t)
  : ActivityTracker.ChannelActivity :=
  match ActivityTracker.getChannelActivity channelId tr with
  | Some activity => activity
  | None => ActivityTracker.freshActivity channelId
  end.

(** The pending queue of a channel. *)
Definition queueOf (channelId : jsstring) (tr : ActivityTracker.t)
  : list ActivityTracker.PendingMessage :=
  ActivityTracker.pendingMessages (activityOf channelId tr).

(** The author of the message is the tracked identity itself. *)
Definition authorIsTrackedIdentity (cl : Client) (message : Message) : Prop :=
  exists u, client_user cl = Some u /\ user_id (author message) = user_id u.

(** Empty text (nothing but white space) and no attachments. *)
Definition isBlank (message : Message) : Prop :=
  Forall (fun c => isWhiteSpace c = true) (content message)
  /\ attachments message = [].

(** The digest a suspended flush carries. *)
Definition taskSummary (task : ActivityTracker.FlushTask) : jsstring :=
  match task with
  | ActivityTracker.AwaitImages _ summary _ _ => summary
  | ActivityTracker.AwaitQuery _ summary _ => summary
  end.

(** Every queue of the table holds at most 50 entries. *)
Definition queuesBounded (tr : ActivityTracker.t) : Prop :=
  forall k a, ActivityTracker.getChannelActivity k tr = Some a ->
              (length (ActivityTracker.pendingMessages a) <= 50)%nat.

(** Every record of the table carries the channel id it is stored under. *)
Definition recordsKeyed (tr : ActivityTracker.t) : Prop :=
  forall k a, ActivityTracker.getChannelActivity k tr = Some a ->
              ActivityTracker.channelId a = k.

(** The four fields that record a channel's classification state. *)
Definition stamps (a : ActivityTracker.ChannelActivity) : Z * Z * Z * bool :=
  (ActivityTracker.lastGorpMention a, ActivityTracker.lastGorpMessage a,
   ActivityTracker.lastActivity a, ActivityTracker.isActive a).

End Spec.

(** ** A concrete runtime and a small scenario on which the model is run *)

Module Scenario.
Import ActivityTracker.

Definition asciiLower (c : N) : N :=
  if ((65 <=? c) && (c <=? 90))%N then (c + 32)%N else c.

(** Lower-casing of ASCII text, and a network on which every download
    fails. *)
Definition asciiRuntime : Runtime := {|
  toLowerCase := map asciiLower;
  downloadAndEncodeImage := fun a =>
    mkImageData (att_name a)
                (match att_contentType a with
                 | Some ct => ct
                 | None => lit "unknown"
                 end)
                (att_url a) None None (Some (lit "fetch failed"))
|}.

Definition gorp : User := mkUser (lit "42") (lit "Gorp") true.
Definition alice : User := mkUser (lit "7") (lit "alice") false.
Definition general : Channel := mkChannel (lit "100") true (Some (lit "general")).
Definition discord : Client := mkClient (Some gorp) [(lit "100", general)].

Definition say (id : string) (who : User) (words : string) : Message :=
  mkMessage (lit id) who general (lit words) [].

Definition hello : Message := say "1" alice "hello there".
Definition mention : Message := say "2" alice "hey Gorp, what did I miss?".
Definition blank : Message := say "3" alice "   ".
Definition ownReply : Message := say "4" gorp "nothing much".

(** A tracker just constructed: 5 minutes of interaction timeout, 30
    minutes of batch interval, [cap] sends an hour. *)
Definition start (cap : Z) : t :=
  create discord (RateLimiter.create cap) (mkConfig 5 30 cap).

(** The tracker after [hello] was seen at time 1000000: the channel is
    dormant and [hello] is queued. *)
Definition afterHello (cap : Z) : t :=
  fst (fst (shouldForwardImmediately (R := asciiRuntime) 1000000 hello (start cap))).

(** The same with the hourly quota of one send used up at time 999000. *)
Definition quotaUsed : t :=
  set_rateLimiter (RateLimiter.recordMessageSent 999000 (RateLimiter.create 1))
                  (afterHello 1).

(** The channel after a mention at time 1000000. *)
Definition afterMention : t :=
  fst (fst (shouldForwardImmediately (R := asciiRuntime) 1000000 mention (start 3))).


(** Fifty-five messages in a row, numbered 1 to 55. *)
Definition burst : list Message :=
  map (fun i => mkMessage (numberToString (Z.of_nat i)) alice general
                          (lit "ping") [])
      (seq 1 55).

(** A tick one minute after [hello], with a downstream that answers, and
    with one that fails. *)
Definition answering : nat -> Turn :=
  fun _ => mkTurn 1060000 (Resolved (lit "noted")) 1060400.
Definition failing : nat -> Turn :=
  fun _ => mkTurn 1060000 (Rejected (lit "503")) 1060400.

End Scenario.

(** ** Further code: how the rate limiter is used

    Every sender of the repository ([sendMessageToLetta], the mention flush
    and the scheduled flush) uses the limiter in the same way: it calls
    [canSendMessage], and only when admitted and only after the downstream
    query has resolved it calls [recordMessageSent]; in between and around,
    [getStatus] and [getTimeUntilReset] are read for the log and for the
    status command. *)

Module Usage.

(** One use of the limiter.  [Attempt c (Some r)]: a check at [c] and, when
    admitted, a query that resolves and is recorded at [r].
    [Attempt c None]: a check at [c] whose query, when admitted, fails, so
    that nothing is recorded.  [Status t]: a call of [getStatus] at [t]. *)
Inductive Use : Type :=
| Attempt (checkedAt : Z) (recorded : option Z)
| Status (at_ : Z).

(** The clock readings of a use, in the order they are made. *)
Definition timesOf (u : Use) : list Z :=
  match u with
  | Attempt c (Some r) => [c; r]
  | Attempt c None => [c]
  | Status t => [t]
  end.

(** A use on the limiter, together with the list of all the sends recorded
    so far (which the limiter itself forgets as it purges). *)
Definition use (st : RateLimiter.t * list Z) (u : Use) : RateLimiter.t * list Z :=
  let (rl, sent) := st in
  match u with
  | Attempt c recorded =>
      let (rl1, admitted) := RateLimiter.canSendMessage c rl in
      if admitted then
        match recorded with
        | Some r => (RateLimiter.recordMessageSent r rl1, sent ++ [r])
        | None => (rl1, sent)
        end
      else (rl1, sent)
  | Status t => (fst (RateLimiter.getStatus t rl), sent)
  end.

Definition run (cap : Z) (uses : list Use) : RateLimiter.t * list Z :=
  fold_left use uses (RateLimiter.create cap, []).

(** The last clock reading of a use. *)
Definition endOf (u : Use) : Z :=
  match u with
  | Attempt _ (Some r) => r
  | Attempt c None => c
  | Status t => t
  end.

(** All the clock readings of a run, in order. *)
Definition clock (uses : list Use) : list Z := concat (map timesOf uses).

(** The state of a serial run: the limiter holds at most [cap] timestamps,
    and in every window that ends at [t0] or later it retains exactly the
    sends that were recorded. *)
Definition inStep (cap t0 : Z) (st : RateLimiter.t * list Z) : Prop :=
  RateLimiter.maxMessagesPerHour (fst st) = cap
  /\ Z.of_nat (length (RateLimiter.messageTimestamps (fst st))) <= cap
  /\ forall t, t0 <= t ->
               RateLimiter.purge t (snd st)
               = RateLimiter.purge t (RateLimiter.messageTimestamps (fst st)).

End Usage.


(** ** Further notions: what it means for a text to mention the bot *)

Module Words.

(** [needle] occurs in [s]. *)
Definition occursIn (needle s : jsstring) : Prop :=
  exists pre post, s = pre ++ needle ++ post.

(** The four letters g, o, r, p, each in either case. *)
Definition isGorpWord (w : jsstring) : Prop :=
  exists g o r p,
    w = [g; o; r; p]
    /\ (g = 103 \/ g = 71)%N /\ (o = 111 \/ o = 79)%N
    /\ (r = 114 \/ r = 82)%N /\ (p = 112 \/ p = 80)%N.

(** No word character right before the end of [pre]; at the very start,
    [prev] tells whether a word character precedes. *)
Definition boundaryBeforeFrom (prev : bool) (pre : jsstring) : Prop :=
  match rev pre with
  | [] => prev = false
  | c :: _ => isWordChar c = false
  end.

Definition boundaryBefore (pre : jsstring) : Prop := boundaryBeforeFrom false pre.

(** No word character at the start of [post]. *)
Definition boundaryAfter (post : jsstring) : Prop :=
  match post with
  | [] => True
  | c :: _ => isWordChar c = false
  end.

(** [s] holds the word gorp, in any case, as a whole word. *)
Definition hasGorpWord (s : jsstring) : Prop :=
  exists pre w post,
    s = pre ++ w ++ post /\ isGorpWord w
    /\ boundaryBefore pre /\ boundaryAfter post.

End Words.


(** ** Further code: image download, [downloadAndEncodeImage] of
    [src/utils/imageUtils.ts] *)

Module ImageUtils.

(** What the network gives for one download: [fetch] rejects (with the
    message of the error, or [None] for a thrown value that is no [Error]),
    the response is not [ok], reading the body rejects, or the body arrives,
    given here already in base64. *)
Inductive FetchResult : Type :=
| FetchThrows (message : option jsstring)
| HttpError (status : Z) (statusText : jsstring)
| BodyThrows (message : option jsstring)
| Body (base64Data : jsstring).

(** [error instanceof Error ? error.message : 'Unknown error']. *)
Definition errorMessage (thrown : option jsstring) : jsstring :=
  match thrown with
  | Some message => message
  | None => lit "Unknown error"
  end.

(** [maxSize = 5 * 1024 * 1024]. *)
Definition maxSize : Z := 5 * 1024 * 1024.

(** [`${attachment.contentType}`]. *)
Definition contentTypeText (attachment : Attachment) : jsstring :=
  match att_contentType attachment with
  | Some ct => ct
  | None => lit "null"
  end.

(** The descriptor built in the [catch] block. *)
Definition failed (attachment : Attachment) (message : jsstring) : ImageData :=
  mkImageData (att_name attachment)
              (match att_contentType attachment with
               | Some ct => if truthy ct then ct else lit "unknown"
               | None => lit "unknown"
               end)
              (att_url attachment) None None (Some message).

(** [downloadAndEncodeImage]; [lower] is [String.prototype.toLowerCase] and
    [fetch] what the network gives for a URL.  Every [throw] of the [try]
    block lands in the [catch] block. *)
Definition downloadAndEncodeImage (lower : jsstring -> jsstring)
           (fetch : jsstring -> FetchResult) (attachment : Attachment)
  : ImageData :=
  match att_contentType attachment with
  | None => failed attachment (lit "Not an image: " ++ contentTypeText attachment)
  | Some ct =>
      if negb (startsWith ct (lit "image/")) then
        failed attachment (lit "Not an image: " ++ contentTypeText attachment)
      else if negb (existsb (str_eqb (lower ct)) allowedImageTypes) then
        failed attachment (lit "Unsupported image type: " ++ contentTypeText attachment)
      else if maxSize <? att_size attachment then
        failed attachment
               (lit "Image too large: " ++ sizeMB (att_size attachment)
                    ++ lit "MB (max: 5MB)")
      else
        match fetch (att_url attachment) with
        | FetchThrows thrown => failed attachment (errorMessage thrown)
        | HttpError status statusText =>
            failed attachment
                   (lit "Failed to download image: " ++ numberToString status
                        ++ lit " " ++ statusText)
        | BodyThrows thrown => failed attachment (errorMessage thrown)
        | Body base64Data =>
            mkImageData (att_name attachment) ct (att_url attachment)
                        (Some base64Data) (Some (att_size attachment)) None
        end
  end.

(** The runtime in which downloads go through [downloadAndEncodeImage]. *)
Definition runtime (lower : jsstring -> jsstring)
           (fetch : jsstring -> FetchResult) : Runtime :=
  Build_Runtime lower (downloadAndEncodeImage lower fetch).


(** An attachment whose image reaches the downstream: its content type
    starts with [image/] as written, is one of the allowed types once in
    lower case, its size is at most [maxSize], and its download brings a
    non-empty body. *)
Definition deliverable (lower : jsstring -> jsstring)
           (fetch : jsstring -> FetchResult) (attachment : Attachment) : bool :=
  match att_contentType attachment with
  | Some ct =>
      startsWith ct (lit "image/")
      && existsb (str_eqb (lower ct)) allowedImageTypes
      && (att_size attachment <=? maxSize)
      && match fetch (att_url attachment) with
         | Body base64Data => truthy base64Data
         | _ => false
         end
  | None => false
  end.

End ImageUtils.

(** ** Further code: the downstream client, [LettaService.processQuery] of
    [src/services/lettaService.ts] *)

Module LettaService.

(** The [content] of a message of the response: a string, an array of
    parts (each with or without a [text]), or anything else. *)
Inductive Content : Type :=
| Text (s : jsstring)
| Parts (parts : list (option jsstring))
| Other.

Record ResponseMessage : Type := mkResponseMessage {
  messageType : jsstring;
  body : Content
}.

Record SentImage : Type := mkSentImage {
  sent_name : jsstring;
  sent_contentType : jsstring;
  sent_data : option jsstring
}.

(** [messageContent]: [images] is set only when there is a valid image. *)
Record Request : Type := mkRequest {
  role : jsstring;
  query : jsstring;
  sent_images : option (list SentImage)
}.

Definition truthyOpt (s : option jsstring) : bool :=
  match s with Some x => truthy x | None => false end.

(** [img.base64Data && !img.error]. *)
Definition isValid (img : ImageData) : bool :=
  truthyOpt (img_base64Data img) && negb (truthyOpt (img_error img)).

Definition toSent (img : ImageData) : SentImage :=
  mkSentImage (img_name img) (img_contentType img) (img_base64Data img).

(** The message built at the start of [processQuery]; [images] is [None]
    when the caller passes none. *)
Definition buildRequest (text : jsstring) (images : option (list ImageData))
  : Request :=
  let sent :=
    match images with
    | Some imgs =>
        if nonEmpty imgs then
          let validImages := filter isValid imgs in
          if nonEmpty validImages then Some (map toSent validImages) else None
        else None
    | None => None
    end in
  mkRequest (lit "system") text sent.

(** [c.text || '']. *)
Definition partText (part : option jsstring) : jsstring :=
  match part with Some t => t | None => [] end.

(** The loop over [response.messages ?? []]. *)
Fixpoint firstAssistantText (messages : list ResponseMessage) : option jsstring :=
  match messages with
  | [] => None
  | m :: rest =>
      if str_eqb (messageType m) (lit "assistant_message") then
        match body m with
        | Text s => Some s
        | Parts parts => Some (concat (map partText parts))
        | Other => firstAssistantText rest
        end
      else firstAssistantText rest
  end.

Definition extractResponse (messages : option (list ResponseMessage)) : jsstring :=
  match firstAssistantText (match messages with Some ms => ms | None => [] end) with
  | Some s => s
  | None => lit "Response received from Letta"
  end.

(** What [client.agents.messages.create] settles to. *)
Inductive ApiResult : Type :=
| ApiReturns (messages : option (list ResponseMessage))
| ApiThrows (thrown : option jsstring).

Definition processQuery (api : Request -> ApiResult) (text : jsstring)
           (images : option (list ImageData)) : QueryOutcome :=
  match api (buildRequest text images) with
  | ApiReturns messages => Resolved (extractResponse messages)
  | ApiThrows thrown =>
      Rejected (lit "Failed to process query with Letta AI: "
                    ++ ImageUtils.errorMessage thrown)
  end.

(** A message of the response that ends the loop. *)
Definition answers (m : ResponseMessage) : bool :=
  str_eqb (messageType m) (lit "assistant_message")
  && match body m with Other => false | _ => true end.

End LettaService.


(** ** Further code: the message handler of [src/index.ts] *)

Module Handler.

(** A letter of a pattern under the [i] flag, against a lower-case pattern
    letter given by its code. *)
Fixpoint matchWord (word s : jsstring) : option jsstring :=
  match word with
  | [] => Some s
  | l :: word' =>
      match s with
      | c :: s' => if ciMatch l c then matchWord word' s' else None
      | [] => None
      end
  end.

(** [\s+]: what follows the white space.  Taking all of it loses no match,
    since every use is followed by a letter. *)
Definition spaces1 (s : jsstring) : option jsstring :=
  match s with
  | c :: s' => if isWhiteSpace c then Some (trimStart s') else None
  | [] => None
  end.

Definition andThen {A B : Type} (x : option A) (f : A -> option B) : option B :=
  match x with Some a => f a | None => None end.

(** [is\s+this\s+true] at the start of [s]. *)
Definition isThisTrueHere (s : jsstring) : bool :=
  match andThen (andThen (andThen (andThen (matchWord (lit "is") s) spaces1)
                                  (matchWord (lit "this"))) spaces1)
                (matchWord (lit "true")) with
  | Some _ => true
  | None => false
  end.

(** [@?gorp\s+] at the start of [s]: what follows it.  After an [@] the
    pattern goes on behind it; going on at the [@] itself could not match
    the letter g. *)
Definition gorpPrefix (s : jsstring) : option jsstring :=
  match s with
  | 64%N :: s' => andThen (matchWord (lit "gorp") s') spaces1
  | _ => andThen (matchWord (lit "gorp") s) spaces1
  end.

(** [(?:@?gorp\s+)?is\s+this\s+true] at the start of [s]: with the
    optional group, or after backtracking without it. *)
Definition patternHere (s : jsstring) : bool :=
  match gorpPrefix s with
  | Some rest => isThisTrueHere rest
  | None => false
  end
  || isThisTrueHere s.

(** [isThisTruePattern.test(s)]: the pattern at some position of [s]. *)
Fixpoint isThisTruePattern_test (s : jsstring) : bool :=
  patternHere s ||
  match s with
  | [] => false
  | _ :: s' => isThisTruePattern_test s'
  end.

(** [isGorpMentioned] of the handler:
    [client.user && message.content === `<@!${client.user.id}>`]. *)
Definition isGorpMentioned (cl : Client) (message : Message) : bool :=
  match client_user cl with
  | Some u => str_eqb (content message) (lit "<@!" ++ user_id u ++ lit ">")
  | None => false
  end.

(** [content.replace(new RegExp(`^${token}\\s*`), '')] for a [content] that
    starts with [token].  The pattern is built from the bot's id; for an id
    of decimal digits, as the platform's ids are, no character of the token
    is special in a pattern, and the match is the token followed by all the
    white space after it. *)
Definition stripToken (token content : jsstring) : jsstring :=
  trimStart (skipn (length token) content).

(** [content.split(/ +/)]: the pieces between runs of spaces; [inRun]
    tells whether the previous character was a space, [piece] holds the
    current piece reversed. *)
Fixpoint splitSpacesFrom (inRun : bool) (piece : jsstring) (s : jsstring)
  : list jsstring :=
  match s with
  | [] => [rev piece]
  | c :: s' =>
      if (c =? 32)%N then
        if inRun then splitSpacesFrom true piece s'
        else rev piece :: splitSpacesFrom true [] s'
      else splitSpacesFrom false (c :: piece) s'
  end.

Definition splitSpaces (s : jsstring) : list jsstring :=
  splitSpacesFrom false [] s.

(** The [command] of the handler: the first word after the mention, in
    lower case. *)
Definition commandText {R : Runtime} (cl : Client) (message : Message) : jsstring :=
  let content0 := content message in
  let stripped :=
    match client_user cl with
    | Some u =>
        if startsWith content0 (lit "<@" ++ user_id u ++ lit ">")
        then stripToken (lit "<@" ++ user_id u ++ lit ">") content0
        else if startsWith content0 (lit "<@!" ++ user_id u ++ lit ">")
        then stripToken (lit "<@!" ++ user_id u ++ lit ">") content0
        else if startsWith content0 (lit "@gorp")
        then stripToken (lit "@gorp") content0
        else content0
    | None =>
        if startsWith content0 (lit "@gorp")
        then stripToken (lit "@gorp") content0
        else content0
    end in
  let args := splitSpaces (trim stripped) in
  toLowerCase (hd [] args).

Definition isDigit (c : N) : bool := ((48 <=? c) && (c <=? 57))%N.

Inductive Command : Type :=
| Ping | Help | ToggleForward | ToggleSmartForward | ActivityStatus
| RateLimitStatus | TestLetta | LettaStatus | McpStatus.

(** The cases of the [switch]; [None] is its [default]. *)
Definition commandNamed (name : jsstring) : option Command :=
  if str_eqb name (lit "ping") then Some Ping
  else if str_eqb name (lit "help") then Some Help
  else if str_eqb name (lit "toggle-forward") then Some ToggleForward
  else if str_eqb name (lit "toggle-smart-forward") then Some ToggleSmartForward
  else if str_eqb name (lit "activity-status") then Some ActivityStatus
  else if str_eqb name (lit "rate-limit-status") then Some RateLimitStatus
  else if str_eqb name (lit "test-letta") then Some TestLetta
  else if str_eqb name (lit "letta-status") then Some LettaStatus
  else if str_eqb name (lit "mcp-status") then Some McpStatus
  else None.

(** What the handler does with a message: nothing (a bot's message, or an
    empty command), the reply [yeh], forwarding, or a command. *)
Inductive Route : Type :=
| Ignored
| RepliesYeh
| Forwards
| NoCommand
| Runs (command : Command).

Definition route {R : Runtime} (cl : Client) (message : Message) : Route :=
  if bot (author message) then Ignored
  else if isThisTruePattern_test (toLowerCase (content message)) then RepliesYeh
  else if negb (isGorpMentioned cl message) then Forwards
  else
    let command := commandText cl message in
    if negb (truthy command) then NoCommand
    else match commandNamed command with
         | Some c => Runs c
         | None => Forwards
         end.

(** [config.letta] as the handler reads it. *)
Record Flags : Type := mkFlags {
  enabled : bool;
  autoForward : bool;
  smartForward : bool;
  messageHistoryLimit : Z
}.

(** [array.slice(0, n)]: up to the [n]-th element, counted from the end
    for a negative [n]. *)
Definition sliceTo {A : Type} (n : Z) (l : list A) : list A :=
  if n <? 0 then firstn (length l - Z.to_nat (- n)) l
  else firstn (Z.to_nat n) l.

(** [recentMessages]: [fetched] is what [channel.messages.fetch] returned,
    newest first. *)
Definition recentMessages (historyLimit : Z) (fetched : list Message)
           (message : Message) : list Message :=
  rev (sliceTo historyLimit
         (filter (fun msg => negb (str_eqb (message_id msg) (message_id message)))
                 fetched)).

(** [messageHistory]; [fetched] is [None] when the fetch throws. *)
Definition messageHistory (historyLimit : Z) (fetched : option (list Message))
           (message : Message) (channelName : jsstring) : jsstring :=
  if isTextBased (channel message) then
    match fetched with
    | Some msgs =>
        let recent := recentMessages historyLimit msgs message in
        if nonEmpty recent then
          nl ++ nl ++ lit "[Recent message history:"
             ++ concat (map (fun recentMsg =>
                               nl ++ ActivityTracker.formatMessageWithImages
                                       recentMsg channelName) recent)
             ++ lit "]"
        else []
    | None => []
    end
  else [].

(** The call [lettaService.processQuery(formattedMessage, imageData)]. *)
Record Call : Type := mkCall {
  callText : jsstring;
  callImages : list ImageData
}.

(** [sendMessageToLetta] up to its call of [processQuery]: the limiter
    after the check, and the call made, if any.  [fetched] is what the
    fetch of the history gave, [None] when it throws; neither that fetch
    nor the download of the images touches the limiter. *)
Definition sendMessageToLetta {R : Runtime} (now : Z) (historyLimit : Z)
           (fetched : option (list Message)) (message : Message)
           (rl : RateLimiter.t) : RateLimiter.t * option Call :=
  if ActivityTracker.isEmptyMessage message then (rl, None)
  else
    let (rl1, admitted) := RateLimiter.canSendMessage now rl in
    if negb admitted then
      let (rl2, _) := RateLimiter.getStatus now rl1 in
      let (rl3, _) := RateLimiter.getTimeUntilReset now now rl2 in
      (rl3, None)
    else
      let channelName := ActivityTracker.messageChannelName message in
      let history := messageHistory historyLimit fetched message channelName in
      let formattedMessage :=
        lit "[Discord] "
            ++ ActivityTracker.formatMessageWithImages message channelName
            ++ history in
      let imageData :=
        if nonEmpty (attachments message)
        then processImageAttachments (map snd (attachments message))
        else [] in
      (rl1, Some (mkCall formattedMessage imageData)).

(** The rest of [sendMessageToLetta], run when [processQuery] has settled
    to [outcome]; a rejection is caught and logged. *)
Definition sendMessageToLetta_resume (now : Z) (outcome : QueryOutcome)
           (rl : RateLimiter.t) : RateLimiter.t :=
  match outcome with
  | Resolved _ =>
      fst (RateLimiter.getStatus now (RateLimiter.recordMessageSent now rl))
  | Rejected _ => rl
  end.

(** [handleMessageForwarding] up to its call of [sendMessageToLetta]: the
    tracker after the classification, whether [sendMessageToLetta] is
    called next, and the flush left running. *)
Definition handleMessageForwarding {R : Runtime} (flags : Flags) (now : Z)
           (message : Message) (tr : ActivityTracker.t)
  : ActivityTracker.t * bool * option ActivityTracker.FlushTask :=
  if enabled flags && autoForward flags then
    if smartForward flags then
      ActivityTracker.shouldForwardImmediately now message tr
    else (tr, false, None)
  else (tr, false, None).

(** The [MessageCreate] handler, as far as the tracker and the limiter are
    concerned, up to its call of [sendMessageToLetta].  Replies leave them
    alone, and so do the commands, except that [rate-limit-status] reads
    [getStatus] and [getTimeUntilReset], which purge the limiter. *)
Definition onMessageCreate {R : Runtime} (flags : Flags) (now : Z)
           (message : Message) (tr : ActivityTracker.t)
  : ActivityTracker.t * bool * option ActivityTracker.FlushTask :=
  match route (ActivityTracker.client tr) message with
  | Forwards => handleMessageForwarding flags now message tr
  | Runs RateLimitStatus =>
      let (rl1, _) := RateLimiter.getStatus now (ActivityTracker.rateLimiter tr) in
      let (rl2, _) := RateLimiter.getTimeUntilReset now now rl1 in
      (ActivityTracker.set_rateLimiter rl2 tr, false, None)
  | _ => (tr, false, None)
  end.

End Handler.


(** ** Further sample data *)

Module Samples.
Import ActivityTracker.

(** Three uses of a limiter of two sends an hour: two sends that go through
    and a third attempt. *)
Definition threeAttempts : list Usage.Use :=
  [Usage.Attempt 1000 (Some 1500); Usage.Attempt 2000 (Some 2500);
   Usage.Status 2600; Usage.Attempt 3000 (Some 3500)].

(** A limiter of two sends an hour that has recorded both. *)
Definition spent : RateLimiter.t :=
  RateLimiter.recordMessageSent 2000
    (RateLimiter.recordMessageSent 1000 (RateLimiter.create 2)).

(** A second channel, a message in it, and a mention in each channel. *)
Definition random : Channel := mkChannel (lit "200") true (Some (lit "random")).
Definition helloRandom : Message :=
  mkMessage (lit "5") Scenario.alice random (lit "anyone around?") [].
Definition mentionRandom : Message :=
  mkMessage (lit "6") Scenario.alice random (lit "gorp, are you there?") [].

(** Both channels dormant with one queued message each, and one send an
    hour. *)
Definition twoQueues : t :=
  fst (fst (shouldForwardImmediately (R := Scenario.asciiRuntime) 1000100 helloRandom
                                     (Scenario.afterHello 1))).

(** A message that is the bot's nickname token and nothing else, and one
    that goes on after the token. *)
Definition bareToken : Message := Scenario.say "9" Scenario.alice "<@!42>".
Definition tokenPing : Message := Scenario.say "10" Scenario.alice "<@!42> ping".

Definition flags : Handler.Flags := Handler.mkFlags true true true 2.

(** A message posted while a flush of its channel is under way. *)
Definition late : Message := Scenario.say "11" Scenario.alice "one more thing".

(** What a fetch of three messages gives after [tokenPing] was posted,
    newest first. *)
Definition fetched : list Message :=
  [tokenPing; Scenario.mention; Scenario.hello].

End Samples.



(** * Properties *)

(** ** Rate limiter *)

Section RateLimiterFacts.
Import RateLimiter.

Lemma purge_withinTrailingHour (now : Z) (ts : list Z) :
  purge now ts = Spec.withinTrailingHour now ts.
Proof.
  unfold purge, Spec.withinTrailingHour, windowMs.
  apply filter_ext; intros t.
  destruct (Z.ltb_spec (now - t) (60 * 60 * 1000));
    destruct (Z.ltb_spec (now - 3600000) t); trivial; lia.
Qed.

Lemma purge_keeps (now : Z) (ts : list Z) :
  Forall (fun t => now - t < windowMs) ts -> purge now ts = ts.
Proof.
  induction 1 as [|t ts Ht _ IH]; simpl; trivial.
  destruct (Z.ltb_spec (now - t) windowMs); [now rewrite IH | lia].
Qed.

Lemma purge_idempotent (now : Z) (ts : list Z) :
  purge now (purge now ts) = purge now ts.
Proof.
  apply purge_keeps, Forall_forall; intros t Ht.
  apply filter_In in Ht; destruct Ht as [_ Ht].
  now apply Z.ltb_lt.
Qed.

Lemma purge_sorted (now : Z) (ts : list Z) :
  StronglySorted Z.le ts -> StronglySorted Z.le (purge now ts).
Proof.
  induction 1 as [|t ts Hs IH Hall]; simpl; [constructor|].
  destruct (now - t <? windowMs); trivial.
  constructor; trivial.
  apply Forall_forall; intros u Hu.
  apply filter_In in Hu; destruct Hu as [Hu _].
  rewrite Forall_forall in Hall; auto.
Qed.

Lemma oldest_of_sorted (t : Z) (ts : list Z) :
  StronglySorted Z.le (t :: ts) -> Spec.oldest (t :: ts) = Some t.
Proof.
  revert t; induction ts as [|u ts IH]; intros t Hs; trivial.
  inversion Hs as [|? ? Hs' Hall]; subst.
  change (Spec.oldest (t :: u :: ts))
    with (match Spec.oldest (u :: ts) with
          | None => Some t
          | Some m => Some (Z.min t m)
          end).
  rewrite (IH u Hs').
  inversion Hall; subst.
  f_equal; lia.
Qed.

Lemma ceilDiv_least (x d : Z) :
  0 < d ->
  x <= ceilDiv x d * d /\ (forall m, x <= m * d -> ceilDiv x d <= m).
Proof.
  intros Hd; unfold ceilDiv.
  pose proof (Z.mul_div_le (- x) d Hd).
  pose proof (Z.mul_succ_div_gt (- x) d Hd).
  split; [nia | intros m Hm; nia].
Qed.

End RateLimiterFacts.

Section RateLimiterClaims.
Import RateLimiter.

(** C2.  With [maxMessagesPerHour = 3] and an empty limiter, three
    check-then-record cycles at non-decreasing times are all admitted; a
    fourth check, less than an hour after the first record, is denied;
    and at a later time at which the first recorded timestamp is an hour
    old (and the second is not yet), the check is admitted again and
    [remainingMessages] is exactly one more than it was at the denied
    check. *)
Theorem cap3_three_admitted_fourth_denied_then_one_slot
        (c1 r1 c2 r2 c3 r3 c4 c5 : Z) :
  c1 <= r1 -> r1 <= c2 -> c2 <= r2 -> r2 <= c3 -> c3 <= r3 -> r3 <= c4 ->
  c4 - r1 < windowMs ->
  windowMs <= c5 - r1 -> c5 - r2 < windowMs ->
  let rl0 := create 3 in
  let '(rl1, ok1) := Spec.cycle c1 r1 rl0 in
  let '(rl2, ok2) := Spec.cycle c2 r2 rl1 in
  let '(rl3, ok3) := Spec.cycle c3 r3 rl2 in
  let '(rl4, ok4) := canSendMessage c4 rl3 in
  let '(rl5, before) := getStatus c4 rl4 in
  let '(rl6, ok5) := canSendMessage c5 rl5 in
  let '(_, after) := getStatus c5 rl6 in
  ok1 = true /\ ok2 = true /\ ok3 = true /\ ok4 = false /\ ok5 = true
  /\ remainingMessages before = 0
  /\ remainingMessages after = remainingMessages before + 1.
Proof.
  intros H1 H2 H3 H4 H5 H6 Hsame Hold Hnew.
  unfold windowMs in *.
  cbv [Spec.cycle create canSendMessage recordMessageSent getStatus purge
       messageTimestamps maxMessagesPerHour filter app length windowMs
       remainingMessages].
  repeat match goal with
         | |- context [?a - ?b <? ?w] =>
             let E := fresh "E" in
             destruct (Z.ltb_spec (a - b) w) as [E|E]; try lia; clear E;
             cbv [filter app length]
         end.
  repeat split; reflexivity.
Qed.

Lemma cap3_three_admitted_fourth_denied_then_one_slot_witness :
  let '(rl4, ok4) :=
    canSendMessage 4000
      (fst (Spec.cycle 3000 3000
         (fst (Spec.cycle 2000 2000 (fst (Spec.cycle 1000 1000 (create 3))))))) in
  ok4 = false
  /\ snd (canSendMessage 3601500 (fst (getStatus 4000 rl4))) = true.
Proof.
  pose proof (cap3_three_admitted_fourth_denied_then_one_slot
                1000 1000 2000 2000 3000 3000 4000 3601500
                ltac:(lia) ltac:(lia) ltac:(lia) ltac:(lia) ltac:(lia)
                ltac:(lia) ltac:(vm_compute; reflexivity)
                ltac:(vm_compute; discriminate)
                ltac:(vm_compute; reflexivity)) as H.
  vm_compute in H. vm_compute.
  destruct H as (_ & _ & _ & H4 & H5 & _).
  split; assumption.
Defined.

(** C8.  [getStatus] reports [remainingMessages = max(0, cap - n)] for [n]
    the number of timestamps within the trailing hour, and a [resetTime]
    that is the first retained timestamp plus the window, or [now] when
    none is retained; with timestamps in the order a non-decreasing clock
    records them, that first retained timestamp is the oldest one.
    [getTimeUntilReset] is the least whole number of minutes, not below
    zero, that reaches [resetTime] from the current clock. *)
Theorem getStatus_getTimeUntilReset_spec (statusNow now : Z) (rl : t) :
  let retained := Spec.withinTrailingHour statusNow (messageTimestamps rl) in
  let status := snd (getStatus statusNow rl) in
  let minutes := snd (getTimeUntilReset statusNow now rl) in
  messagesInWindow status = Z.of_nat (length retained)
  /\ remainingMessages status
     = Z.max 0 (maxMessagesPerHour rl - Z.of_nat (length retained))
  /\ resetTime status
     = match retained with
       | first :: _ => first + windowMs
       | [] => statusNow
       end
  /\ (StronglySorted Z.le (messageTimestamps rl) ->
      resetTime status
      = match Spec.oldest retained with
        | Some t => t + windowMs
        | None => statusNow
        end)
  /\ 0 <= minutes
  /\ resetTime status - now <= minutes * 60000
  /\ (forall m, 0 <= m -> resetTime status - now <= m * 60000 -> minutes <= m).
Proof.
  cbv zeta.
  unfold getTimeUntilReset, getStatus; cbn [fst snd resetTime remainingMessages
                                             messagesInWindow].
  rewrite purge_withinTrailingHour.
  set (retained := Spec.withinTrailingHour statusNow (messageTimestamps rl)).
  set (reset := match retained with
                | first :: _ => first + windowMs
                | [] => statusNow
                end).
  repeat split; try reflexivity.
  - intros Hs.
    assert (Hr : StronglySorted Z.le retained).
    { unfold retained; rewrite <- purge_withinTrailingHour.
      now apply purge_sorted. }
    unfold reset; destruct retained as [|first rest]; trivial.
    now rewrite (oldest_of_sorted first rest Hr).
  - lia.
  - change (1000 * 60) with 60000.
    destruct (ceilDiv_least (reset - now) 60000 ltac:(lia)) as [Hge _]; lia.
  - intros m Hm Hreach.
    change (1000 * 60) with 60000.
    destruct (ceilDiv_least (reset - now) 60000 ltac:(lia)) as [_ Hleast].
    specialize (Hleast m Hreach); lia.
Qed.

Lemma getStatus_getTimeUntilReset_spec_witness :
  let rl := mk [1000; 2000] 3 in
  remainingMessages (snd (getStatus 5000 rl)) = 1
  /\ resetTime (snd (getStatus 5000 rl)) = 3601000
  /\ snd (getTimeUntilReset 5000 5000 rl) = 60.
Proof.
  destruct (getStatus_getTimeUntilReset_spec 5000 5000 (mk [1000; 2000] 3))
    as (_ & Hrem & _ & Hold & _).
  specialize (Hold ltac:(repeat constructor; lia)).
  cbv zeta; split; [| split].
  - rewrite Hrem; reflexivity.
  - rewrite Hold; reflexivity.
  - reflexivity.
Defined.

End RateLimiterClaims.

(** ** Strings and the channel table *)

Lemma str_eqb_eq (a b : jsstring) : str_eqb a b = true <-> a = b.
Proof.
  revert b; induction a as [|x a IH]; destruct b as [|y b]; simpl;
    try (split; [discriminate | discriminate]); try tauto.
  rewrite andb_true_iff, N.eqb_eq, IH.
  split; [intros [-> ->]; reflexivity | intros E; inversion E; auto].
Qed.

Lemma str_eqb_refl (a : jsstring) : str_eqb a a = true.
Proof. now apply str_eqb_eq. Qed.

Lemma str_eqb_neq (a b : jsstring) : a <> b -> str_eqb a b = false.
Proof.
  intros Hne; destruct (str_eqb a b) eqn:E; trivial.
  apply str_eqb_eq in E; contradiction.
Qed.

Section JsMapFacts.
Context {V : Type}.
Implicit Types (m : list (jsstring * V)) (k : jsstring) (v : V).

Lemma Map_get_In k v m : Map_get k m = Some v -> In (k, v) m.
Proof.
  induction m as [|[k' v'] m IH]; simpl; [discriminate|].
  destruct (str_eqb k k') eqn:E.
  - apply str_eqb_eq in E; subst; intros [= ->]; now left.
  - intros Hg; right; auto.
Qed.

Lemma Map_get_key k v m : Map_get k m = Some v -> In k (map fst m).
Proof.
  intros Hget; apply Map_get_In in Hget.
  change k with (fst (k, v)); now apply in_map.
Qed.

Lemma Map_key_get k m : In k (map fst m) -> exists v, Map_get k m = Some v.
Proof.
  induction m as [|[k' v'] m IH]; simpl; [tauto|].
  destruct (str_eqb k k') eqn:E; [eauto|].
  intros [->|Hin]; [now rewrite str_eqb_refl in E | auto].
Qed.

Lemma Map_get_None_notin k m : Map_get k m = None -> ~ In k (map fst m).
Proof.
  induction m as [|[k' v'] m IH]; simpl; [tauto|].
  destruct (str_eqb k k') eqn:E; [discriminate|].
  intros Hg [->|Hin]; [now rewrite str_eqb_refl in E | now apply IH].
Qed.


Lemma Map_get_replace_same k v m :
  Map_has k m = true -> Map_get k (Map_replace k v m) = Some v.
Proof.
  unfold Map_has; induction m as [|[k' v'] m IH]; simpl; [discriminate|].
  destruct (str_eqb k k') eqn:E; simpl; rewrite E; auto.
Qed.

Lemma Map_get_replace_other k k' v m :
  k' <> k -> Map_get k' (Map_replace k v m) = Map_get k' m.
Proof.
  intros Hne; induction m as [|[k0 v0] m IH]; simpl; trivial.
  destruct (str_eqb k k0) eqn:E; simpl.
  - apply str_eqb_eq in E; subst k0.
    now rewrite (str_eqb_neq k' k Hne).
  - now rewrite IH.
Qed.

Lemma Map_replace_keys k v m : map fst (Map_replace k v m) = map fst m.
Proof.
  induction m as [|[k0 v0] m IH]; simpl; trivial.
  destruct (str_eqb k k0); simpl; [reflexivity | now rewrite IH].
Qed.

Lemma Map_get_app_new k v m :
  Map_get k m = None -> Map_get k (m ++ [(k, v)]) = Some v.
Proof.
  induction m as [|[k0 v0] m IH]; simpl.
  - now rewrite str_eqb_refl.
  - destruct (str_eqb k k0); [discriminate | auto].
Qed.

Lemma Map_get_app_other k k' v m :
  k' <> k -> Map_get k' (m ++ [(k, v)]) = Map_get k' m.
Proof.
  intros Hne; induction m as [|[k0 v0] m IH]; simpl.
  - now rewrite (str_eqb_neq k' k Hne).
  - destruct (str_eqb k' k0); auto.
Qed.

End JsMapFacts.

(** ** The tracker: one call of [shouldForwardImmediately] *)

Section TrackerFacts.
Context {R : Runtime}.
Import ActivityTracker.

(** The call works on the channel's record and stores the result under the
    channel's id; every other channel is left as it was. *)
Lemma shouldForwardImmediately_focus (now : Z) (message : Message) (tr : t)
      (a : ChannelActivity) (rl : RateLimiter.t) (b : bool)
      (task : option FlushTask) :
  let channelId := channel_id (channel message) in
  shouldForwardImmediately_on now tr channelId (Spec.activityOf channelId tr)
                              message
  = (a, rl, b, task) ->
  exists table,
    shouldForwardImmediately now message tr
    = (mk table (client tr) rl (GORP_INTERACTION_TIMEOUT tr) (BATCH_INTERVAL tr),
       b, task)
    /\ Map_get channelId table = Some a
    /\ (forall k, k <> channelId ->
                  Map_get k table = Map_get k (channelActivities tr)).
Proof.
  intros channelId Hon.
  unfold shouldForwardImmediately, getOrCreateChannelActivity.
  fold channelId.
  unfold Spec.activityOf, getChannelActivity in Hon.
  unfold Map_has, Map_set, Map_has.
  destruct (Map_get channelId (channelActivities tr)) as [a0|] eqn:Hget;
    cbn [negb].
  - rewrite Hget, Hon.
    eexists; split; [reflexivity|]; split.
    + apply Map_get_replace_same; unfold Map_has; now rewrite Hget.
    + intros k Hk; now apply Map_get_replace_other.
  - rewrite (Map_get_app_new _ _ _ Hget), Hon.
    eexists; split; [reflexivity|]; split.
    + apply Map_get_replace_same; unfold Map_has.
      now rewrite (Map_get_app_new _ _ _ Hget).
    + intros k Hk.
      rewrite Map_get_replace_other by assumption.
      now apply Map_get_app_other.
Qed.

Lemma sendBatchUpdate_send_limiter (now : Z) (rl : RateLimiter.t)
      (ref summary : jsstring) (imgs : list ImageData) :
  sendBatchUpdate_send now rl ref summary imgs
  = (fst (RateLimiter.canSendMessage now rl),
     if snd (RateLimiter.canSendMessage now rl)
     then Some (AwaitQuery ref summary imgs) else None).
Proof.
  unfold sendBatchUpdate_send, RateLimiter.getTimeUntilReset,
    RateLimiter.getStatus, RateLimiter.canSendMessage;
    cbn [fst snd RateLimiter.messageTimestamps RateLimiter.maxMessagesPerHour].
  destruct (_ <? _); cbn [negb]; [reflexivity|].
  now rewrite !purge_idempotent.
Qed.

Lemma isFromGorp_iff (cl : Client) (message : Message) :
  isFromGorp cl message = true <-> Spec.authorIsTrackedIdentity cl message.
Proof.
  unfold isFromGorp, Spec.authorIsTrackedIdentity.
  destruct (client_user cl) as [u|].
  - rewrite str_eqb_eq; split.
    + intros E; now exists u.
    + intros (u' & [= <-] & E); exact E.
  - split; [discriminate | intros (u & E & _); discriminate].
Qed.

(** The body of the call for a message that is neither a mention nor the
    bot's own. *)
Lemma shouldForwardImmediately_on_plain (now : Z) (tr : t) (k : jsstring)
      (a : ChannelActivity) (message : Message) :
  isGorpMentioned (client tr) message = false ->
  isFromGorp (client tr) message = false ->
  shouldForwardImmediately_on now tr k a message
  = if lessThan (timeSince now (lastGorpMention a)) (GORP_INTERACTION_TIMEOUT tr)
       || lessThan (timeSince now (lastGorpMessage a)) (GORP_INTERACTION_TIMEOUT tr)
    then (set_isActive true (set_lastActivity now a), rateLimiter tr, true, None)
    else (addPendingMessage (set_isActive false (set_lastActivity now a)) message,
          rateLimiter tr, false, None).
Proof.
  intros Hm Hg; unfold shouldForwardImmediately_on.
  now rewrite Hm, Hg.
Qed.

Lemma shouldForwardImmediately_on_self (now : Z) (tr : t) (k : jsstring)
      (a : ChannelActivity) (message : Message) :
  isGorpMentioned (client tr) message = false ->
  isFromGorp (client tr) message = true ->
  shouldForwardImmediately_on now tr k a message
  = (set_isActive true (set_lastGorpMessage now (set_lastActivity now a)),
     rateLimiter tr, true, None).
Proof.
  intros Hm Hg; unfold shouldForwardImmediately_on.
  now rewrite Hm, Hg.
Qed.


End TrackerFacts.

Section ClassificationClaims.
Context {R : Runtime}.
Import ActivityTracker.

(** C7.  The self-message branch looks at the author, not at the text: a
    message that is not a mention and whose author is the tracked identity
    makes [shouldForwardImmediately] stamp [lastGorpMessage = now], set
    [isActive] and return true, whatever its content; a non-mention
    message of any other author leaves [lastGorpMessage] as it was. *)
Theorem self_branch_decided_by_author (now : Z) (message : Message) (tr : t) :
  isGorpMentioned (client tr) message = false ->
  let channelId := channel_id (channel message) in
  let '(tr', result, task) := shouldForwardImmediately now message tr in
  exists a',
    getChannelActivity channelId tr' = Some a'
    /\ (Spec.authorIsTrackedIdentity (client tr) message ->
        result = true /\ lastGorpMessage a' = now /\ isActive a' = true)
    /\ (~ Spec.authorIsTrackedIdentity (client tr) message ->
        lastGorpMessage a' = lastGorpMessage (Spec.activityOf channelId tr)).
Proof.
  intros Hm channelId.
  destruct (isFromGorp (client tr) message) eqn:Hg.
  - pose proof (shouldForwardImmediately_on_self now tr channelId
                  (Spec.activityOf channelId tr) message Hm Hg) as Hon.
    destruct (shouldForwardImmediately_focus now message tr _ _ _ _ Hon)
      as (table & -> & Hget & _).
    eexists; split; [exact Hget|]; split.
    + intros _; repeat split.
    + intros Hno; exfalso; apply Hno; now apply isFromGorp_iff.
  - pose proof (shouldForwardImmediately_on_plain now tr channelId
                  (Spec.activityOf channelId tr) message Hm Hg) as Hon.
    assert (Hnot : ~ Spec.authorIsTrackedIdentity (client tr) message).
    { intros Ha; apply isFromGorp_iff in Ha; congruence. }
    destruct (lessThan _ _ || lessThan _ _);
      destruct (shouldForwardImmediately_focus now message tr _ _ _ _ Hon)
      as (table & -> & Hget & _);
      (eexists; split; [exact Hget|]; split; [intros Ha; contradiction|]);
      intros _; trivial.
    unfold addPendingMessage.
    destruct (isEmptyMessage message); [reflexivity|].
    destruct (50 <? _)%nat; reflexivity.
Qed.


(** C4.  With an interaction timeout of five minutes and the channel's
    latest interaction (mention or own message) stamped at [t0], a message
    that is neither a mention nor the bot's own is forwarded immediately
    exactly when it arrives strictly less than five minutes after [t0]:
    at [t0 + 4m59s] it is, at [t0 + 5m01s] it is not, and at [t0 + 5m]
    sharp it is not. *)
Theorem interaction_timeout_is_strict (t0 : Z) (message : Message) (tr : t)
        (a : ChannelActivity) :
  GORP_INTERACTION_TIMEOUT tr = 5 * 60 * 1000 ->
  getChannelActivity (channel_id (channel message)) tr = Some a ->
  0 < t0 ->
  Z.max (lastGorpMention a) (lastGorpMessage a) = t0 ->
  isGorpMentioned (client tr) message = false ->
  ~ Spec.authorIsTrackedIdentity (client tr) message ->
  let result now := snd (fst (shouldForwardImmediately now message tr)) in
  (forall now, result now = (now - t0 <? 300000))
  /\ result (t0 + 299000) = true
  /\ result (t0 + 301000) = false
  /\ result (t0 + 300000) = false.
Proof.
  intros HT Hget Ht0 Hmax Hm Hauthor result.
  assert (Hg : isFromGorp (client tr) message = false).
  { destruct (isFromGorp (client tr) message) eqn:E; trivial.
    apply isFromGorp_iff in E; contradiction. }
  assert (Hall : forall now, result now = (now - t0 <? 300000)).
  { intros now; unfold result.
    pose proof (shouldForwardImmediately_on_plain now tr
                  (channel_id (channel message))
                  (Spec.activityOf (channel_id (channel message)) tr)
                  message Hm Hg) as Hon.
    unfold Spec.activityOf in Hon; rewrite Hget in Hon.
    rewrite HT in Hon.
    assert (Hcond : lessThan (timeSince now (lastGorpMention a)) (5 * 60 * 1000)
                    || lessThan (timeSince now (lastGorpMessage a)) (5 * 60 * 1000)
                    = (now - t0 <? 300000)).
    { unfold lessThan, timeSince.
      destruct (Z.ltb_spec 0 (lastGorpMention a));
        destruct (Z.ltb_spec 0 (lastGorpMessage a));
        repeat match goal with
               | |- context [?x <? ?y] => destruct (Z.ltb_spec x y)
               end; cbn; trivial; lia. }
    rewrite Hcond in Hon.
    destruct (now - t0 <? 300000);
      destruct (shouldForwardImmediately_focus now message tr _ _ _ _
                  ltac:(unfold Spec.activityOf; rewrite Hget; exact Hon))
      as (table & -> & _); reflexivity. }
  split; [exact Hall|].
  rewrite !Hall.
  repeat split; [apply Z.ltb_lt | apply Z.ltb_ge | apply Z.ltb_ge]; lia.
Qed.

Lemma trimStart_blank (s : jsstring) :
  Forall (fun c => isWhiteSpace c = true) s -> trimStart s = [].
Proof. induction 1 as [|c s Hc _ IH]; simpl; [|rewrite Hc]; trivial. Qed.

Lemma isBlank_isEmptyMessage (message : Message) :
  Spec.isBlank message -> isEmptyMessage message = true.
Proof.
  intros [Hws Hatt]; unfold isEmptyMessage, trim.
  now rewrite (trimStart_blank _ Hws), Hatt.
Qed.

(** C9.  A message with nothing but white space and no attachments still
    goes through classification: [lastActivity] is stamped, a mention or a
    self message is detected as for any other message; but when it is
    classified a batch candidate (the call returns false) the pending
    queue of its channel is left exactly as it was. *)
Theorem blank_message_is_not_enqueued (now : Z) (message : Message) (tr : t) :
  Spec.isBlank message ->
  let channelId := channel_id (channel message) in
  let '(tr', result, task) := shouldForwardImmediately now message tr in
  exists a',
    getChannelActivity channelId tr' = Some a'
    /\ lastActivity a' = now
    /\ (result = false ->
        pendingMessages a' = Spec.queueOf channelId tr /\ isActive a' = false)
    /\ (isGorpMentioned (client tr) message = true ->
        result = true /\ lastGorpMention a' = now)
    /\ (isGorpMentioned (client tr) message = false ->
        Spec.authorIsTrackedIdentity (client tr) message ->
        result = true /\ lastGorpMessage a' = now).
Proof.
  intros Hblank channelId.
  pose proof (isBlank_isEmptyMessage message Hblank) as Hempty.
  destruct (shouldForwardImmediately_on now tr channelId
                                        (Spec.activityOf channelId tr) message)
    as [[[a' rl] b] task] eqn:Hon.
  destruct (shouldForwardImmediately_focus now message tr _ _ _ _ Hon)
    as (table & -> & Hget & _).
  exists a'; split; [exact Hget|].
  assert (Hauthor : isFromGorp (client tr) message = false ->
                    ~ Spec.authorIsTrackedIdentity (client tr) message).
  { intros Hg Ha; apply isFromGorp_iff in Ha; congruence. }
  unfold shouldForwardImmediately_on in Hon.
  destruct (isGorpMentioned (client tr) message) eqn:Hm.
  - destruct (if nonEmpty _ then _ else _) as [rl0 task0].
    injection Hon as <- <- <- <-.
    split; [reflexivity|]; split; [discriminate|].
    split; [intros _; split; reflexivity | discriminate].
  - destruct (isFromGorp (client tr) message) eqn:Hg.
    + injection Hon as <- <- <- <-.
      split; [reflexivity|]; split; [discriminate|].
      split; [discriminate | intros _ _; split; reflexivity].
    + specialize (Hauthor eq_refl).
      destruct (lessThan _ _ || lessThan _ _).
      * injection Hon as <- <- <- <-.
        split; [reflexivity|]; split; [discriminate|].
        split; [discriminate | intros _ Ha; contradiction].
      * unfold addPendingMessage in Hon; rewrite Hempty in Hon.
        injection Hon as <- <- <- <-.
        split; [reflexivity|]; split; [intros _; split; reflexivity|].
        split; [discriminate | intros _ Ha; contradiction].
Qed.

End ClassificationClaims.

Section ClassificationChecks.
Import ActivityTracker.

Lemma self_branch_decided_by_author_witness :
  let '(tr', result, _) :=
    shouldForwardImmediately (R := Scenario.asciiRuntime) 1200000
                             Scenario.ownReply (Scenario.afterHello 3) in
  result = true
  /\ option_map lastGorpMessage (getChannelActivity (lit "100") tr') = Some 1200000.
Proof.
  pose proof (@self_branch_decided_by_author Scenario.asciiRuntime 1200000
                Scenario.ownReply (Scenario.afterHello 3)
                ltac:(vm_compute; reflexivity)) as Hc.
  cbv zeta in Hc.
  destruct (shouldForwardImmediately 1200000 Scenario.ownReply
                                     (Scenario.afterHello 3))
    as [[tr' result] task].
  destruct Hc as (a' & Hget & Hself & _).
  destruct Hself as (Hr & Hstamp & _).
  { exists Scenario.gorp; split; reflexivity. }
  change (channel_id (channel Scenario.ownReply)) with (lit "100") in Hget.
  rewrite Hget; cbn [option_map]; rewrite Hstamp; split; [exact Hr | reflexivity].
Defined.


Lemma interaction_timeout_is_strict_witness :
  snd (fst (shouldForwardImmediately (R := Scenario.asciiRuntime)
              (1000000 + 299000) Scenario.hello Scenario.afterMention)) = true
  /\ snd (fst (shouldForwardImmediately (R := Scenario.asciiRuntime)
                 (1000000 + 301000) Scenario.hello Scenario.afterMention)) = false.
Proof.
  assert (Hauthor : ~ Spec.authorIsTrackedIdentity
                      (client Scenario.afterMention) Scenario.hello).
  { intros (u & Eu & Eid); vm_compute in Eu; injection Eu as <-.
    vm_compute in Eid; discriminate. }
  destruct (@interaction_timeout_is_strict Scenario.asciiRuntime 1000000
              Scenario.hello Scenario.afterMention
              (Spec.activityOf (lit "100") Scenario.afterMention)
              ltac:(vm_compute; reflexivity) ltac:(vm_compute; reflexivity)
              ltac:(vm_compute; reflexivity) ltac:(vm_compute; reflexivity)
              ltac:(vm_compute; reflexivity) Hauthor)
    as (_ & Hbefore & Hafter & _).
  split; [exact Hbefore | exact Hafter].
Defined.

Lemma blank_message_is_not_enqueued_witness :
  let '(tr', result, _) :=
    shouldForwardImmediately (R := Scenario.asciiRuntime) 2000000
                             Scenario.blank (Scenario.afterHello 3) in
  result = false
  /\ Spec.queueOf (lit "100") tr' = Spec.queueOf (lit "100") (Scenario.afterHello 3).
Proof.
  pose proof (@blank_message_is_not_enqueued Scenario.asciiRuntime 2000000
                Scenario.blank (Scenario.afterHello 3)
                ltac:(split; [repeat constructor | reflexivity])) as Hc.
  cbv zeta in Hc.
  change (channel_id (channel Scenario.blank)) with (lit "100") in Hc.
  destruct (shouldForwardImmediately 2000000 Scenario.blank
                                     (Scenario.afterHello 3))
    as [[tr' result] task] eqn:Erun.
  destruct Hc as (a' & Hget & _ & Hqueue & _).
  assert (Hres : result = false).
  { apply (f_equal (fun r => snd (fst r))) in Erun.
    vm_compute in Erun; now subst result. }
  split; [exact Hres|].
  destruct (Hqueue Hres) as [Hq _].
  unfold Spec.queueOf at 1, Spec.activityOf; rewrite Hget; exact Hq.
Defined.

End ClassificationChecks.

(** ** The pending queue *)

Section QueueFacts.
Context {R : Runtime}.
Import ActivityTracker.

Lemma sliceLast_short {A : Type} (n : nat) (l : list A) :
  (length l <= n)%nat -> sliceLast n l = l.
Proof.
  intros Hle; unfold sliceLast.
  now replace (length l - n)%nat with 0%nat by lia.
Qed.

Lemma sliceLast_length {A : Type} (n : nat) (l : list A) :
  length (sliceLast n l) = Nat.min n (length l).
Proof. unfold sliceLast; rewrite length_skipn; lia. Qed.

(** Trimming after every push keeps what trimming once at the end keeps. *)
Lemma sliceLast_app {A : Type} (n : nat) (l r : list A) :
  sliceLast n (sliceLast n l ++ r) = sliceLast n (l ++ r).
Proof.
  unfold sliceLast.
  rewrite !length_app, length_skipn, !skipn_app, skipn_skipn, length_skipn.
  f_equal; f_equal; lia.
Qed.

(** A message that is not empty is pushed, and the queue is then cut to
    its last 50 entries. *)
Lemma addPendingMessage_pushes (activity : ChannelActivity) (message : Message) :
  isEmptyMessage message = false ->
  pendingMessages (addPendingMessage activity message)
  = sliceLast 50 (pendingMessages activity ++ [pendingOf message]).
Proof.
  intros Hne; unfold addPendingMessage; rewrite Hne.
  destruct (Nat.ltb_spec 50 (length (pendingMessages activity ++ [pendingOf message])));
    cbn [pendingMessages set_pendingMessages]; trivial.
  now rewrite sliceLast_short by lia.
Qed.

Lemma addPendingMessage_bound (activity : ChannelActivity) (message : Message) :
  (length (pendingMessages activity) <= 50)%nat ->
  (length (pendingMessages (addPendingMessage activity message)) <= 50)%nat.
Proof.
  intros Hle.
  destruct (isEmptyMessage message) eqn:He.
  - unfold addPendingMessage; now rewrite He.
  - rewrite addPendingMessage_pushes by assumption.
    rewrite sliceLast_length; lia.
Qed.

Lemma addPendingMessage_many (messages : list Message) :
  Forall (fun m => isEmptyMessage m = false) messages ->
  forall activity,
    (length (pendingMessages activity) <= 50)%nat ->
    pendingMessages (fold_left addPendingMessage messages activity)
    = sliceLast 50 (pendingMessages activity ++ map pendingOf messages).
Proof.
  induction 1 as [|m messages Hm _ IH]; intros activity Hle; cbn [fold_left map].
  - rewrite app_nil_r; now rewrite sliceLast_short.
  - rewrite IH by now apply addPendingMessage_bound.
    rewrite addPendingMessage_pushes by assumption.
    rewrite sliceLast_app, <- app_assoc; reflexivity.
Qed.

(** A call of [shouldForwardImmediately] changes the queue of the
    message's channel by at most one [addPendingMessage]. *)
Lemma shouldForwardImmediately_on_queue (now : Z) (tr : t) (k : jsstring)
      (a : ChannelActivity) (message : Message) :
  let a' := fst (fst (fst (shouldForwardImmediately_on now tr k a message))) in
  pendingMessages a' = pendingMessages a
  \/ pendingMessages a' = pendingMessages (addPendingMessage a message).
Proof.
  unfold shouldForwardImmediately_on.
  destruct (isGorpMentioned _ _).
  - destruct (if nonEmpty _ then _ else _); now left.
  - destruct (isFromGorp _ _); [now left|].
    destruct (lessThan _ _ || lessThan _ _); [now left|].
    right; unfold addPendingMessage.
    destruct (isEmptyMessage message); [reflexivity|].
    cbn [pendingMessages set_isActive set_lastActivity].
    destruct (50 <? _)%nat; reflexivity.
Qed.

End QueueFacts.

(** ** The flush started by a mention *)

Section FlushFacts.
Context {R : Runtime}.
Import ActivityTracker.

Lemma getOrCreateChannelActivity_snd (channelId : jsstring) (tr : t) :
  snd (getOrCreateChannelActivity channelId (channelActivities tr))
  = Spec.activityOf channelId tr.
Proof.
  unfold getOrCreateChannelActivity, Spec.activityOf, getChannelActivity,
    Map_set, Map_has; cbn [snd].
  destruct (Map_get channelId (channelActivities tr)) eqn:Hget; cbn [negb].
  - now rewrite Hget.
  - now rewrite (Map_get_app_new _ _ _ Hget).
Qed.

(** The call written out on the channel's record. *)
Lemma shouldForwardImmediately_eq (now : Z) (message : Message) (tr : t) :
  let channelId := channel_id (channel message) in
  let r := shouldForwardImmediately_on now tr channelId
                                       (Spec.activityOf channelId tr) message in
  shouldForwardImmediately now message tr
  = (mk (Map_replace channelId (fst (fst (fst r)))
           (fst (getOrCreateChannelActivity channelId (channelActivities tr))))
        (client tr) (snd (fst (fst r)))
        (GORP_INTERACTION_TIMEOUT tr) (BATCH_INTERVAL tr),
     snd (fst r), snd r).
Proof.
  cbv zeta; unfold shouldForwardImmediately.
  rewrite <- getOrCreateChannelActivity_snd.
  destruct (getOrCreateChannelActivity _ _) as [table activity]; cbn [fst snd].
  destruct (shouldForwardImmediately_on _ _ _ _ _) as [[[a rl] b] task].
  reflexivity.
Qed.

(** Neither the record nor the returned boolean depends on the rate
    limiter the tracker holds. *)
Lemma shouldForwardImmediately_on_limiter (now : Z) (tr : t)
      (rlA rlB : RateLimiter.t) (k : jsstring) (a : ChannelActivity)
      (message : Message) :
  let rA := shouldForwardImmediately_on now (set_rateLimiter rlA tr) k a message in
  let rB := shouldForwardImmediately_on now (set_rateLimiter rlB tr) k a message in
  fst (fst (fst rA)) = fst (fst (fst rB)) /\ snd (fst rA) = snd (fst rB).
Proof.
  cbv zeta; unfold shouldForwardImmediately_on;
    cbn [client set_rateLimiter GORP_INTERACTION_TIMEOUT].
  destruct (isGorpMentioned (client tr) message).
  - destruct (nonEmpty _);
      [do 2 destruct (sendBatchUpdate _ _ _ _ _ _) |]; split; reflexivity.
  - destruct (isFromGorp (client tr) message); [split; reflexivity|].
    destruct (lessThan _ _ || lessThan _ _); split; reflexivity.
Qed.

(** A resumption writes nothing but the queue of the task's channel and
    the rate limiter. *)
Lemma sendBatchUpdate_resume_stamps (now : Z) (outcome : QueryOutcome)
      (task : FlushTask) (tr : t) (k : jsstring) :
  option_map Spec.stamps
             (getChannelActivity k (fst (sendBatchUpdate_resume now outcome task tr)))
  = option_map Spec.stamps (getChannelActivity k tr).
Proof.
  unfold sendBatchUpdate_resume, getChannelActivity.
  destruct task as [ref summary imgs atts | ref summary imgs].
  - destruct (sendBatchUpdate_send _ _ _ _ _); reflexivity.
  - destruct outcome; [|reflexivity].
    cbn [fst channelActivities set_channelActivities].
    destruct (Map_get ref (channelActivities tr)) as [a|] eqn:Hget; [|reflexivity].
    destruct (str_eqb k ref) eqn:Ek.
    + apply str_eqb_eq in Ek; subst k.
      rewrite Map_get_replace_same by (unfold Map_has; now rewrite Hget).
      now rewrite Hget.
    + rewrite Map_get_replace_other; trivial.
      intros ->; now rewrite str_eqb_refl in Ek.
Qed.

Lemma sendBatchUpdate_finish_stamps (t1 t2 : Z) (outcome : QueryOutcome)
      (task : option FlushTask) (tr : t) (k : jsstring) :
  option_map Spec.stamps
             (getChannelActivity k (sendBatchUpdate_finish t1 t2 outcome task tr))
  = option_map Spec.stamps (getChannelActivity k tr).
Proof.
  unfold sendBatchUpdate_finish.
  destruct task as [task1|]; [|reflexivity].
  pose proof (sendBatchUpdate_resume_stamps t1 outcome task1 tr k) as H1.
  destruct (sendBatchUpdate_resume t1 outcome task1 tr) as [tr1 [task2|]];
    cbn [fst] in H1; [|exact H1].
  now rewrite sendBatchUpdate_resume_stamps.
Qed.

(** The queue once a pending query has settled. *)
Lemma resume_query_queue (now : Z) (outcome : QueryOutcome)
      (ref summary : jsstring) (imgs : list ImageData) (tr : t)
      (a : ChannelActivity) :
  getChannelActivity ref tr = Some a ->
  sendBatchUpdate_resume now outcome (AwaitQuery ref summary imgs) tr
  = (if isResolved outcome
     then set_channelActivities
            (Map_replace ref (set_pendingMessages [] a) (channelActivities tr))
            (set_rateLimiter (RateLimiter.recordMessageSent now (rateLimiter tr)) tr)
     else tr, None).
Proof.
  unfold getChannelActivity; intros Hget; cbn [sendBatchUpdate_resume].
  destruct outcome; cbn [isResolved]; [now rewrite Hget | reflexivity].
Qed.


Lemma queueOf_stored (ref : jsstring) (tr : t) (a : ChannelActivity) :
  getChannelActivity ref tr = Some a ->
  Spec.queueOf ref tr = pendingMessages a.
Proof.
  intros Hget; unfold Spec.queueOf, Spec.activityOf; now rewrite Hget.
Qed.

(** The body of the call for a mention. *)
Lemma shouldForwardImmediately_on_mention (now : Z) (tr : t) (k : jsstring)
      (a : ChannelActivity) (message : Message) :
  isGorpMentioned (client tr) message = true ->
  let flush :=
    if nonEmpty (pendingMessages a)
    then sendBatchUpdate now (client tr) (rateLimiter tr) k
                         (set_lastActivity now a) message
    else (rateLimiter tr, None) in
  shouldForwardImmediately_on now tr k a message
  = (set_isActive true (set_lastGorpMention now (set_lastActivity now a)),
     fst flush, true, snd flush).
Proof.
  intros Hm; unfold shouldForwardImmediately_on; rewrite Hm.
  cbn [pendingMessages set_lastActivity].
  destruct (nonEmpty (pendingMessages a)); [|reflexivity].
  destruct (sendBatchUpdate _ _ _ _ _ _); reflexivity.
Qed.

(** What a mention does to its channel, the flush it starts being run to
    its end: the queue is emptied when the rate limiter admits the flush
    and the downstream query resolves, and is left as it was otherwise. *)
Lemma mention_flush_queue (now t1 t2 : Z) (outcome : QueryOutcome)
      (message : Message) (tr : t) :
  isGorpMentioned (client tr) message = true ->
  let channelId := channel_id (channel message) in
  let run := shouldForwardImmediately now message tr in
  let final := sendBatchUpdate_finish t1 t2 outcome (snd run) (fst (fst run)) in
  let checkedAt := if nonEmpty (attachments message) then t1 else now in
  let admitted := snd (RateLimiter.canSendMessage checkedAt (rateLimiter tr)) in
  snd (fst run) = true
  /\ getChannelActivity channelId (fst (fst run))
     = Some (set_isActive true
               (set_lastGorpMention now
                  (set_lastActivity now (Spec.activityOf channelId tr))))
  /\ (Spec.queueOf channelId tr = [] -> snd run = None)
  /\ Spec.queueOf channelId final
     = if admitted && isResolved outcome then [] else Spec.queueOf channelId tr.
Proof.
  intros Hm channelId run final checkedAt admitted.
  pose proof (shouldForwardImmediately_on_mention now tr channelId
                (Spec.activityOf channelId tr) message Hm) as Hon.
  cbv zeta in Hon.
  destruct (shouldForwardImmediately_focus now message tr _ _ _ _ Hon)
    as (table & Hrun & Hget & _).
  fold channelId in Hget.
  set (stamped := set_isActive true
                    (set_lastGorpMention now
                       (set_lastActivity now (Spec.activityOf channelId tr)))) in *.
  assert (Hq : pendingMessages stamped = Spec.queueOf channelId tr) by reflexivity.
  subst final run; rewrite Hrun; cbn [fst snd].
  split; [reflexivity|]; split; [exact Hget|].
  fold (Spec.queueOf channelId tr).
  assert (Hkeep : forall rl,
             Spec.queueOf channelId
               (mk table (client tr) rl (GORP_INTERACTION_TIMEOUT tr)
                   (BATCH_INTERVAL tr))
             = Spec.queueOf channelId tr).
  { intros rl; now rewrite (queueOf_stored _ _ stamped). }
  assert (Hclear : forall rl,
             Spec.queueOf channelId
               (mk (Map_replace channelId (set_pendingMessages [] stamped) table)
                   (client tr) rl (GORP_INTERACTION_TIMEOUT tr)
                   (BATCH_INTERVAL tr))
             = []).
  { intros rl.
    rewrite (queueOf_stored _ _ (set_pendingMessages [] stamped)); [reflexivity|].
    apply Map_get_replace_same; unfold Map_has; now rewrite Hget. }
  destruct (Spec.queueOf channelId tr) as [|p q] eqn:Equeue; cbn [nonEmpty fst snd].
  { split; [reflexivity|].
    cbn [sendBatchUpdate_finish]; rewrite Hkeep.
    now destruct (admitted && isResolved outcome). }
  split; [discriminate|].
  unfold sendBatchUpdate; subst admitted checkedAt.
  destruct (nonEmpty (attachments message)); cbn [fst snd].
  - (* the mention carries attachments: the check comes at the first resumption *)
    cbn [sendBatchUpdate_finish sendBatchUpdate_resume rateLimiter].
    rewrite sendBatchUpdate_send_limiter.
    destruct (snd (RateLimiter.canSendMessage t1 (rateLimiter tr))); cbn [andb fst].
    + rewrite (resume_query_queue t2 outcome _ _ _ _ stamped) by exact Hget.
      destruct (isResolved outcome); cbn [fst]; [apply Hclear | apply Hkeep].
    + apply Hkeep.
  - (* no attachments: the check is made before the call returns *)
    rewrite sendBatchUpdate_send_limiter; cbn [fst snd].
    destruct (snd (RateLimiter.canSendMessage now (rateLimiter tr))); cbn [andb].
    + cbn [sendBatchUpdate_finish].
      rewrite (resume_query_queue t1 outcome _ _ _ _ stamped) by exact Hget.
      destruct (isResolved outcome); cbn [fst]; [apply Hclear | apply Hkeep].
    + cbn [sendBatchUpdate_finish]; apply Hkeep.
Qed.


(** The digest of a flush started by a mention: the queued lines in queue
    order, then the separator and the mention's own line. *)
Lemma mention_flush_digest (now : Z) (message : Message) (tr : t)
      (task : FlushTask) :
  isGorpMentioned (client tr) message = true ->
  let channelId := channel_id (channel message) in
  snd (shouldForwardImmediately now message tr) = Some task ->
  exists header,
    Spec.taskSummary task
    = header ++ join nl (map text (Spec.queueOf channelId tr))
             ++ nl ++ nl ++ lit "--- MENTION ---" ++ nl
             ++ formatMessageWithImages message (messageChannelName message).
Proof.
  intros Hm channelId.
  rewrite shouldForwardImmediately_eq; cbn [snd]; fold channelId.
  rewrite (shouldForwardImmediately_on_mention now tr channelId _ message Hm).
  cbn [snd].
  destruct (nonEmpty (pendingMessages (Spec.activityOf channelId tr)));
    [|discriminate].
  assert (Hhead : exists header,
             batchHeader now (client tr)
                         (set_lastActivity now (Spec.activityOf channelId tr))
             = header ++ join nl (map text (Spec.queueOf channelId tr))).
  { unfold batchHeader; cbn [pendingMessages set_lastActivity].
    fold (Spec.queueOf channelId tr).
    eexists; rewrite !app_assoc; reflexivity. }
  destruct Hhead as [header Hhead].
  unfold sendBatchUpdate; rewrite Hhead.
  intros Htask; exists header.
  rewrite <- app_assoc in Htask.
  destruct (nonEmpty (attachments message)); cbn [snd] in Htask.
  - injection Htask as <-; reflexivity.
  - rewrite sendBatchUpdate_send_limiter in Htask; cbn [snd] in Htask.
    destruct (snd (RateLimiter.canSendMessage _ _)); [|discriminate].
    injection Htask as <-; reflexivity.
Qed.

End FlushFacts.

(** ** The scheduled flush *)

Section SchedulerFacts.
Import ActivityTracker.

Lemma batchHeader_truthy (now : Z) (cl : Client) (a : ChannelActivity) :
  truthy (batchHeader now cl a) = true.
Proof. reflexivity. Qed.

(** An entry that fails one of the three conditions is skipped. *)
Lemma processChannel_skip (now : Z) (cl : Client) (interval : Z) (turn : Turn)
      (rl : RateLimiter.t) (k : jsstring) (a : ChannelActivity) :
  Spec.eligible now interval a = false ->
  processChannel now cl interval turn rl k a = (rl, a, []).
Proof.
  unfold Spec.eligible, processChannel.
  destruct (nonEmpty (pendingMessages a)); cbn [negb andb]; [|reflexivity].
  destruct (isActive a); cbn [negb andb]; [reflexivity|].
  rewrite Z.leb_antisym.
  destruct (interval <? now - lastActivity a); [reflexivity | discriminate].
Qed.

(** An entry that meets them goes to the rate-limit check and, when
    admitted, to [processQuery]. *)
Lemma processChannel_attempt (now : Z) (cl : Client) (interval : Z) (turn : Turn)
      (rl : RateLimiter.t) (k : jsstring) (a : ChannelActivity) :
  Spec.eligible now interval a = true ->
  let summary := batchHeader (startedAt turn) cl a in
  let allImages := collectImages (pendingMessages a) in
  let check := RateLimiter.canSendMessage (startedAt turn) rl in
  processChannel now cl interval turn rl k a
  = if snd check then
      match outcome turn with
      | Resolved r =>
          (RateLimiter.recordMessageSent (settledAt turn) (fst check),
           set_pendingMessages [] a,
           [Query k summary allImages (Resolved r)])
      | Rejected e => (fst check, a, [Query k summary allImages (Rejected e)])
      end
    else (fst check, a, [RateLimited k]).
Proof.
  unfold Spec.eligible, processChannel, createBatchSummary.
  destruct (nonEmpty (pendingMessages a)); cbn [negb andb]; [|discriminate].
  destruct (isActive a); cbn [negb andb]; [discriminate|].
  rewrite Z.leb_antisym.
  destruct (interval <? now - lastActivity a); [discriminate|intros _].
  cbv zeta; rewrite batchHeader_truthy.
  unfold RateLimiter.getTimeUntilReset, RateLimiter.getStatus,
    RateLimiter.canSendMessage;
    cbn [fst snd RateLimiter.messageTimestamps RateLimiter.maxMessagesPerHour].
  destruct (_ <? _); cbn [negb]; [reflexivity|].
  now rewrite !purge_idempotent.
Qed.

Lemma processChannel_events (now : Z) (cl : Client) (interval : Z) (turn : Turn)
      (rl : RateLimiter.t) (k : jsstring) (a : ChannelActivity) :
  map eventChannel (snd (processChannel now cl interval turn rl k a))
  = if Spec.eligible now interval a then [k] else [].
Proof.
  destruct (Spec.eligible now interval a) eqn:E.
  - rewrite (processChannel_attempt _ _ _ _ _ _ _ E); cbv zeta.
    destruct (snd (RateLimiter.canSendMessage _ _)); [|reflexivity].
    destruct (outcome turn); reflexivity.
  - now rewrite (processChannel_skip _ _ _ _ _ _ _ E).
Qed.

(** The loop visits the table in order: the table keeps its keys and the
    trace has one event for each eligible entry, in table order. *)
Lemma processEntries_trace (now : Z) (cl : Client) (interval : Z)
      (world : nat -> Turn) (entries : list (jsstring * ChannelActivity)) :
  forall i rl,
    let r := processEntries now cl interval world i rl entries in
    map fst (snd (fst r)) = map fst entries
    /\ map eventChannel (snd r)
       = map fst (filter (Spec.isEligibleEntry now interval) entries).
Proof.
  induction entries as [|[k a] entries IH]; intros i rl; cbn [processEntries].
  - split; reflexivity.
  - pose proof (processChannel_events now cl interval (world i) rl k a) as Hev.
    destruct (processChannel now cl interval (world i) rl k a)
      as [[rl1 a1] ev1]; cbn [snd] in Hev.
    specialize (IH (S i) rl1); cbv zeta in IH.
    destruct (processEntries now cl interval world (S i) rl1 entries)
      as [[rl2 rest2] ev2]; cbn [fst snd] in *.
    destruct IH as [IHk IHe]; split; [cbn [map fst]; now rewrite IHk|].
    rewrite map_app, Hev, IHe; cbn [filter].
    unfold Spec.isEligibleEntry at 2; cbn [snd].
    destruct (Spec.eligible now interval a); reflexivity.
Qed.

(** With distinct keys, what the loop leaves under a key is what the step
    for that entry produced, and the events of that channel in the trace
    are the events of that step. *)
Lemma processEntries_entry (now : Z) (cl : Client) (interval : Z)
      (world : nat -> Turn) (entries : list (jsstring * ChannelActivity))
      (k : jsstring) (a : ChannelActivity) :
  NoDup (map fst entries) ->
  Map_get k entries = Some a ->
  forall i rl,
    let r := processEntries now cl interval world i rl entries in
    exists turn rl0,
      let step := processChannel now cl interval turn rl0 k a in
      Map_get k (snd (fst r)) = Some (snd (fst step))
      /\ filter (fun e => str_eqb (eventChannel e) k) (snd r) = snd step.
Proof.
  induction entries as [|[k0 a0] entries IH]; intros Hnd Hget i rl;
    [discriminate|].
  cbn [processEntries].
  inversion Hnd as [|? ? Hnotin Hnd']; subst.
  pose proof (processChannel_events now cl interval (world i) rl k0 a0) as Hev.
  pose proof (processEntries_trace now cl interval world entries (S i)) as Htr.
  destruct (processChannel now cl interval (world i) rl k0 a0)
    as [[rl1 a1] ev1] eqn:Hstep; cbn [snd] in Hev.
  specialize (Htr rl1); cbv zeta in Htr.
  cbn [Map_get] in Hget.
  destruct (str_eqb k k0) eqn:Ek.
  - apply str_eqb_eq in Ek; subst k0; injection Hget as <-.
    destruct (processEntries now cl interval world (S i) rl1 entries)
      as [[rl2 rest2] ev2]; cbn [fst snd] in *.
    exists (world i), rl; rewrite Hstep; cbn [fst snd Map_get].
    rewrite str_eqb_refl; split; [reflexivity|].
    rewrite filter_app.
    assert (H1 : filter (fun e => str_eqb (eventChannel e) k) ev1 = ev1).
    { apply forallb_filter_id, forallb_forall; intros e He.
      assert (Hin : In (eventChannel e) (map eventChannel ev1)) by now apply in_map.
      rewrite Hev in Hin.
      destruct (Spec.eligible now interval a0); [|contradiction].
      destruct Hin as [<-|[]]; apply str_eqb_refl. }
    assert (H2 : filter (fun e => str_eqb (eventChannel e) k) ev2 = []).
    { destruct (filter _ ev2) as [|e es] eqn:Ef; trivial.
      assert (He : In e (filter (fun e => str_eqb (eventChannel e) k) ev2))
        by (rewrite Ef; now left).
      apply filter_In in He; destruct He as [He Hk].
      apply str_eqb_eq in Hk.
      exfalso; apply Hnotin.
      assert (Hin : In (eventChannel e) (map eventChannel ev2)) by now apply in_map.
      destruct Htr as [_ Htr]; rewrite Htr, Hk in Hin.
      apply in_map_iff in Hin; destruct Hin as ([k' a'] & Hk' & Hin).
      apply filter_In in Hin; destruct Hin as [Hin _].
      cbn in Hk'; subst k'.
      change k with (fst (k, a')); now apply in_map. }
    now rewrite H1, H2, app_nil_r.
  - destruct (IH Hnd' Hget (S i) rl1) as (turn & rl0 & Hk & Hf).
    destruct (processEntries now cl interval world (S i) rl1 entries)
      as [[rl2 rest2] ev2]; cbn [fst snd] in *.
    exists turn, rl0; cbn [Map_get]; rewrite Ek; split; [exact Hk|].
    rewrite filter_app, Hf.
    assert (H1 : filter (fun e => str_eqb (eventChannel e) k) ev1 = []).
    { destruct (filter _ ev1) as [|e es] eqn:Ef; trivial.
      assert (He : In e (filter (fun e => str_eqb (eventChannel e) k) ev1))
        by (rewrite Ef; now left).
      apply filter_In in He; destruct He as [He Hke].
      apply str_eqb_eq in Hke.
      assert (Hin : In (eventChannel e) (map eventChannel ev1)) by now apply in_map.
      rewrite Hev in Hin.
      destruct (Spec.eligible now interval a0); [|contradiction].
      destruct Hin as [E|[]].
      assert (Esame : k = k0) by congruence.
      rewrite Esame, str_eqb_refl in Ek; discriminate. }
    now rewrite H1.
Qed.

End SchedulerFacts.

(** ** The calls split at their awaits *)

Section SplitFacts.
Context {R : Runtime}.
Import ActivityTracker.

Lemma Map_replace_replace {V : Type} (k : jsstring) (v v' : V)
      (m : list (jsstring * V)) :
  Map_replace k v (Map_replace k v' m) = Map_replace k v m.
Proof.
  induction m as [|[k0 v0] m IH]; cbn [Map_replace]; [reflexivity|].
  destruct (str_eqb k k0) eqn:E; cbn [Map_replace]; rewrite E;
    [reflexivity | now rewrite IH].
Qed.

Lemma push_queue (entry : PendingMessage) (a : ChannelActivity) :
  pendingMessages (Enqueue.push entry a)
  = sliceLast 50 (pendingMessages a ++ [entry]).
Proof.
  unfold Enqueue.push.
  destruct (Nat.ltb_spec 50 (length (pendingMessages a ++ [entry])));
    cbn [pendingMessages set_pendingMessages]; trivial.
  now rewrite sliceLast_short by lia.
Qed.

Lemma push_bound (entry : PendingMessage) (a : ChannelActivity) :
  (length (pendingMessages (Enqueue.push entry a)) <= 50)%nat.
Proof. rewrite push_queue, sliceLast_length; lia. Qed.

Lemma push_fields (entry : PendingMessage) (a : ChannelActivity) :
  channelId (Enqueue.push entry a) = channelId a
  /\ Spec.stamps (Enqueue.push entry a) = Spec.stamps a.
Proof. unfold Enqueue.push; destruct (50 <? _)%nat; split; reflexivity. Qed.

Lemma addPendingMessage_is_push (a : ChannelActivity) (message : Message) :
  isEmptyMessage message = false ->
  addPendingMessage a message = Enqueue.push (pendingOf message) a.
Proof.
  intros Hne; unfold addPendingMessage, Enqueue.push; now rewrite Hne.
Qed.

(** The first piece of the call in terms of the whole call: they differ
    only for a message with attachments that is queued, whose entry is then
    not pushed yet. *)
Lemma shouldForwardImmediately_on_start_eq (now : Z) (tr : t) (k : jsstring)
      (a : ChannelActivity) (message : Message) :
  Enqueue.shouldForwardImmediately_on_start now tr k a message
  = let '(a', rl, b, task) := shouldForwardImmediately_on now tr k a message in
    if b then (a', rl, true, task, None)
    else if isEmptyMessage message then (a', rl, false, task, None)
    else if nonEmpty (attachments message) then
      (set_isActive false (set_lastActivity now a), rl, false, task,
       Some (Enqueue.mkPushTask
               k (formatMessageWithImages message (messageChannelName message))
               (map snd (attachments message))))
    else (a', rl, false, task, None).
Proof.
  unfold Enqueue.shouldForwardImmediately_on_start, shouldForwardImmediately_on.
  destruct (isGorpMentioned (client tr) message).
  { destruct (if nonEmpty _ then _ else _) as [rl task]; reflexivity. }
  destruct (isFromGorp (client tr) message); [reflexivity|].
  destruct (lessThan _ _ || lessThan _ _); [reflexivity|].
  unfold Enqueue.addPendingMessage_start, addPendingMessage.
  destruct (isEmptyMessage message); [reflexivity|].
  destruct (attachments message) as [|att atts] eqn:Eatt; cbn [nonEmpty];
    [|reflexivity].
  unfold Enqueue.push, pendingOf; rewrite Eatt; reflexivity.
Qed.

(** What a suspended enqueue pushes is the entry of its message. *)
Lemma pendingMessageOf_message (k : jsstring) (message : Message) :
  attachments message <> [] ->
  Enqueue.pendingMessageOf
    (Enqueue.mkPushTask
       k (formatMessageWithImages message (messageChannelName message))
       (map snd (attachments message)))
  = pendingOf message.
Proof.
  intros Hatt; unfold Enqueue.pendingMessageOf, pendingOf;
    cbn [Enqueue.pushAttachments Enqueue.formattedText].
  destruct (attachments message); [contradiction | reflexivity].
Qed.

Lemma shouldForwardImmediately_start_focus (now : Z) (message : Message) (tr : t)
      (a : ChannelActivity) (rl : RateLimiter.t) (b : bool)
      (task : option FlushTask) (pushTask : option Enqueue.PushTask) :
  let channelId := channel_id (channel message) in
  Enqueue.shouldForwardImmediately_on_start
    now tr channelId (Spec.activityOf channelId tr) message
  = (a, rl, b, task, pushTask) ->
  exists table,
    Enqueue.shouldForwardImmediately_start now message tr
    = (mk table (client tr) rl (GORP_INTERACTION_TIMEOUT tr) (BATCH_INTERVAL tr),
       b, task, pushTask)
    /\ Map_get channelId table = Some a
    /\ (forall k, k <> channelId ->
                  Map_get k table = Map_get k (channelActivities tr))
    /\ map fst table
       = map fst (fst (getOrCreateChannelActivity channelId (channelActivities tr))).
Proof.
  intros channelId Hon.
  unfold Enqueue.shouldForwardImmediately_start, getOrCreateChannelActivity.
  fold channelId.
  unfold Spec.activityOf, getChannelActivity in Hon.
  unfold Map_has, Map_set, Map_has.
  destruct (Map_get channelId (channelActivities tr)) as [a0|] eqn:Hget;
    cbn [negb fst].
  - rewrite Hget, Hon.
    eexists; split; [reflexivity|]; split; [|split].
    + apply Map_get_replace_same; unfold Map_has; now rewrite Hget.
    + intros k Hk; now apply Map_get_replace_other.
    + apply Map_replace_keys.
  - rewrite (Map_get_app_new _ _ _ Hget), Hon.
    eexists; split; [reflexivity|]; split; [|split].
    + apply Map_get_replace_same; unfold Map_has.
      now rewrite (Map_get_app_new _ _ _ Hget).
    + intros k Hk.
      rewrite Map_get_replace_other by assumption.
      now apply Map_get_app_other.
    + apply Map_replace_keys.
Qed.

Lemma getOrCreateChannelActivity_get (channelId : jsstring) (tr : t) :
  Map_get channelId (fst (getOrCreateChannelActivity channelId (channelActivities tr)))
  = Some (Spec.activityOf channelId tr).
Proof.
  unfold getOrCreateChannelActivity, Spec.activityOf, getChannelActivity,
    Map_set, Map_has; cbn [fst].
  destruct (Map_get channelId (channelActivities tr)) eqn:Hget; cbn [negb].
  - exact Hget.
  - now rewrite (Map_get_app_new _ _ _ Hget).
Qed.

(** The first piece written out on the channel's record. *)
Lemma shouldForwardImmediately_start_eq (now : Z) (message : Message) (tr : t) :
  let channelId := channel_id (channel message) in
  let r := Enqueue.shouldForwardImmediately_on_start
             now tr channelId (Spec.activityOf channelId tr) message in
  Enqueue.shouldForwardImmediately_start now message tr
  = (mk (Map_replace channelId (fst (fst (fst (fst r))))
           (fst (getOrCreateChannelActivity channelId (channelActivities tr))))
        (client tr) (snd (fst (fst (fst r))))
        (GORP_INTERACTION_TIMEOUT tr) (BATCH_INTERVAL tr),
     snd (fst (fst r)), snd (fst r), snd r).
Proof.
  cbv zeta; unfold Enqueue.shouldForwardImmediately_start.
  rewrite <- getOrCreateChannelActivity_snd.
  destruct (getOrCreateChannelActivity _ _) as [table activity]; cbn [fst snd].
  destruct (Enqueue.shouldForwardImmediately_on_start _ _ _ _ _)
    as [[[[a rl] b] task] pushTask].
  reflexivity.
Qed.

(** A call during whose await nothing else runs is its two pieces, one
    after the other. *)
Lemma shouldForwardImmediately_in_two_pieces (now : Z) (message : Message) (tr : t) :
  shouldForwardImmediately now message tr
  = let '(tr1, result, task, pushTask) :=
      Enqueue.shouldForwardImmediately_start now message tr in
    (match pushTask with
     | Some running => Enqueue.addPendingMessage_resume running tr1
     | None => tr1
     end, result, task).
Proof.
  pose proof (shouldForwardImmediately_eq now message tr) as Hwhole.
  pose proof (shouldForwardImmediately_start_eq now message tr) as Hstart.
  cbv zeta in Hwhole, Hstart.
  set (channelId := channel_id (channel message)) in *.
  pose proof (shouldForwardImmediately_on_start_eq
                now tr channelId (Spec.activityOf channelId tr) message) as Hon.
  pose proof (getOrCreateChannelActivity_get channelId tr) as Hget.
  set (table0 := fst (getOrCreateChannelActivity channelId (channelActivities tr))) in *.
  rewrite Hwhole, Hstart; clear Hwhole Hstart.
  destruct (shouldForwardImmediately_on now tr channelId
                                        (Spec.activityOf channelId tr) message)
    as [[[a' rl] b] task] eqn:Hwhole.
  rewrite Hon; clear Hon; cbn [fst snd].
  destruct b; [reflexivity|].
  destruct (isEmptyMessage message) eqn:Hempty; [reflexivity|].
  destruct (nonEmpty (attachments message)) eqn:Hatt; [|reflexivity].
  cbn [fst snd].
  unfold Enqueue.addPendingMessage_resume;
    cbn [channelActivities Enqueue.pushRef set_channelActivities client
         rateLimiter GORP_INTERACTION_TIMEOUT BATCH_INTERVAL].
  rewrite Map_get_replace_same by (unfold Map_has; now rewrite Hget).
  rewrite Map_replace_replace.
  rewrite pendingMessageOf_message
    by (destruct (attachments message); [discriminate Hatt | discriminate]).
  assert (Ha' : a' = Enqueue.push (pendingOf message)
                                  (set_isActive false
                                     (set_lastActivity now (Spec.activityOf channelId tr)))).
  { unfold shouldForwardImmediately_on in Hwhole.
    destruct (isGorpMentioned (client tr) message).
    { destruct (if nonEmpty _ then _ else _); discriminate Hwhole. }
    destruct (isFromGorp (client tr) message); [discriminate Hwhole|].
    destruct (lessThan _ _ || lessThan _ _); [discriminate Hwhole|].
    injection Hwhole as <- _ _.
    now apply addPendingMessage_is_push. }
  now rewrite <- Ha'.
Qed.

(** *** The loop of the scheduler, as far as it runs in one go *)








(** A run of the loop writes the limiter and nothing else. *)
Lemma processBatchUpdates_from_frame (now clock : Z) (i : nat) (tr : t) :
  let tr' := fst (fst (Scheduler.processBatchUpdates_from now clock i tr)) in
  channelActivities tr' = channelActivities tr
  /\ client tr' = client tr
  /\ GORP_INTERACTION_TIMEOUT tr' = GORP_INTERACTION_TIMEOUT tr
  /\ BATCH_INTERVAL tr' = BATCH_INTERVAL tr.
Proof.
  unfold Scheduler.processBatchUpdates_from.
  destruct (Scheduler.processBatchUpdates_scan _ _ _ _ _ _ _) as [[rl notices] task].
  repeat split.
Qed.

(** The rest of an iteration writes the record of its channel and the
    limiter, and nothing else. *)
Lemma processChannel_resume_get (clock : Z) (outcome : QueryOutcome)
      (ref : jsstring) (tr : t) (k : jsstring) :
  getChannelActivity k (Scheduler.processChannel_resume clock outcome ref tr)
  = if str_eqb k ref && isResolved outcome
    then option_map (set_pendingMessages []) (getChannelActivity k tr)
    else getChannelActivity k tr.
Proof.
  unfold Scheduler.processChannel_resume, getChannelActivity.
  destruct outcome as [response | err]; cbn [isResolved];
    [|now rewrite andb_false_r].
  rewrite andb_true_r; cbn [channelActivities set_channelActivities set_rateLimiter].
  destruct (str_eqb k ref) eqn:Ek.
  - apply str_eqb_eq in Ek; subst k.
    destruct (Map_get ref (channelActivities tr)) as [a|] eqn:Hget.
    + rewrite Map_get_replace_same by (unfold Map_has; now rewrite Hget).
      reflexivity.
    + now rewrite Hget.
  - destruct (Map_get ref (channelActivities tr)) as [a|]; [|reflexivity].
    apply Map_get_replace_other.
    intros ->; now rewrite str_eqb_refl in Ek.
Qed.

Lemma processChannel_resume_keys (clock : Z) (outcome : QueryOutcome)
      (ref : jsstring) (tr : t) :
  map fst (channelActivities (Scheduler.processChannel_resume clock outcome ref tr))
  = map fst (channelActivities tr).
Proof.
  unfold Scheduler.processChannel_resume.
  destruct outcome; [|reflexivity].
  cbn [channelActivities set_channelActivities set_rateLimiter].
  destruct (Map_get ref (channelActivities tr)); [|reflexivity].
  apply Map_replace_keys.
Qed.

Lemma addPendingMessage_resume_get (task : Enqueue.PushTask) (tr : t) (k : jsstring) :
  getChannelActivity k (Enqueue.addPendingMessage_resume task tr)
  = if str_eqb k (Enqueue.pushRef task)
    then option_map (Enqueue.push (Enqueue.pendingMessageOf task))
                    (getChannelActivity k tr)
    else getChannelActivity k tr.
Proof.
  unfold Enqueue.addPendingMessage_resume, getChannelActivity.
  destruct (str_eqb k (Enqueue.pushRef task)) eqn:Ek.
  - apply str_eqb_eq in Ek; subst k.
    destruct (Map_get (Enqueue.pushRef task) (channelActivities tr)) as [a|] eqn:Hget.
    + cbn [channelActivities set_channelActivities].
      rewrite Map_get_replace_same by (unfold Map_has; now rewrite Hget).
      reflexivity.
    + now rewrite Hget.
  - destruct (Map_get (Enqueue.pushRef task) (channelActivities tr)) as [a|];
      [|reflexivity].
    cbn [channelActivities set_channelActivities].
    apply Map_get_replace_other.
    intros ->; now rewrite str_eqb_refl in Ek.
Qed.

Lemma addPendingMessage_resume_keys (task : Enqueue.PushTask) (tr : t) :
  map fst (channelActivities (Enqueue.addPendingMessage_resume task tr))
  = map fst (channelActivities tr).
Proof.
  unfold Enqueue.addPendingMessage_resume.
  destruct (Map_get (Enqueue.pushRef task) (channelActivities tr)); [|reflexivity].
  cbn [channelActivities set_channelActivities]; apply Map_replace_keys.
Qed.







End SplitFacts.


(** ** Invariants of the channel table *)

Section Invariants.
Context {R : Runtime}.
Import ActivityTracker.

Lemma shouldForwardImmediately_keys (now : Z) (message : Message) (tr : t) :
  NoDup (map fst (channelActivities tr)) ->
  NoDup (map fst (channelActivities
                    (fst (fst (shouldForwardImmediately now message tr))))).
Proof.
  intros Hnd; rewrite shouldForwardImmediately_eq; cbv zeta;
    cbn [fst channelActivities].
  rewrite Map_replace_keys.
  unfold getOrCreateChannelActivity, Map_has, Map_set, Map_has; cbn [fst].
  destruct (Map_get (channel_id (channel message)) (channelActivities tr))
    eqn:Hget; cbn [negb]; [exact Hnd|].
  rewrite map_app; cbn [map fst].
  apply NoDup_app; repeat split; trivial.
  - apply NoDup_cons; [intros [] | apply NoDup_nil].
  - intros k Hin [<-|[]].
    now apply (Map_get_None_notin _ _ Hget).
Qed.

Lemma shouldForwardImmediately_bound (now : Z) (message : Message) (tr : t) :
  Spec.queuesBounded tr ->
  Spec.queuesBounded (fst (fst (shouldForwardImmediately now message tr))).
Proof.
  intros Hinv k a.
  set (channelId := channel_id (channel message)).
  destruct (shouldForwardImmediately_on now tr channelId
                                        (Spec.activityOf channelId tr) message)
    as [[[a' rl] b] task] eqn:Hon.
  destruct (shouldForwardImmediately_focus now message tr _ _ _ _ Hon)
    as (table & -> & Hget & Hother).
  unfold getChannelActivity; cbn [fst channelActivities].
  fold channelId in Hget, Hother.
  assert (Hbefore : (length (pendingMessages (Spec.activityOf channelId tr)) <= 50)%nat).
  { unfold Spec.activityOf.
    destruct (getChannelActivity channelId tr) eqn:E; [eauto | cbn; lia]. }
  destruct (str_eqb k channelId) eqn:Ek.
  - apply str_eqb_eq in Ek; subst k; rewrite Hget; intros [= <-].
    pose proof (shouldForwardImmediately_on_queue now tr channelId
                  (Spec.activityOf channelId tr) message) as Hq.
    rewrite Hon in Hq; cbn [fst] in Hq.
    destruct Hq as [-> | ->]; [assumption | now apply addPendingMessage_bound].
  - rewrite Hother; [apply Hinv|].
    intros ->; now rewrite str_eqb_refl in Ek.
Qed.

Lemma sendBatchUpdate_resume_keys (now : Z) (outcome : QueryOutcome)
      (task : FlushTask) (tr : t) :
  map fst (channelActivities (fst (sendBatchUpdate_resume now outcome task tr)))
  = map fst (channelActivities tr).
Proof.
  unfold sendBatchUpdate_resume.
  destruct task as [ref summary imgs atts | ref summary imgs].
  - destruct (sendBatchUpdate_send _ _ _ _ _); reflexivity.
  - destruct outcome; [|reflexivity].
    cbn [fst channelActivities set_channelActivities].
    destruct (Map_get ref (channelActivities tr)); [|reflexivity].
    apply Map_replace_keys.
Qed.

Lemma sendBatchUpdate_resume_bound (now : Z) (outcome : QueryOutcome)
      (task : FlushTask) (tr : t) :
  Spec.queuesBounded tr ->
  Spec.queuesBounded (fst (sendBatchUpdate_resume now outcome task tr)).
Proof.
  intros Hinv k a; unfold sendBatchUpdate_resume, getChannelActivity.
  destruct task as [ref summary imgs atts | ref summary imgs].
  - destruct (sendBatchUpdate_send _ _ _ _ _); apply Hinv.
  - destruct outcome; [|apply Hinv].
    cbn [fst channelActivities set_channelActivities].
    destruct (Map_get ref (channelActivities tr)) as [a0|] eqn:Hget; [|apply Hinv].
    destruct (str_eqb k ref) eqn:Ek.
    + apply str_eqb_eq in Ek; subst k.
      rewrite Map_get_replace_same by (unfold Map_has; now rewrite Hget).
      intros [= <-]; cbn; lia.
    + rewrite Map_get_replace_other; [apply Hinv|].
      intros ->; now rewrite str_eqb_refl in Ek.
Qed.

Lemma processBatchUpdates_keys (now : Z) (world : nat -> Turn) (tr : t) :
  map fst (channelActivities (fst (processBatchUpdates now world tr)))
  = map fst (channelActivities tr).
Proof.
  unfold processBatchUpdates.
  pose proof (processEntries_trace now (client tr) (BATCH_INTERVAL tr) world
                (channelActivities tr) 0%nat (rateLimiter tr)) as Htr.
  cbv zeta in Htr.
  destruct (processEntries _ _ _ _ _ _ _) as [[rl table] events].
  now destruct Htr.
Qed.

(** A step of the loop leaves the queue as it was or empties it. *)
Lemma processChannel_queue (now : Z) (cl : Client) (interval : Z) (turn : Turn)
      (rl : RateLimiter.t) (k : jsstring) (a : ChannelActivity) :
  let a' := snd (fst (processChannel now cl interval turn rl k a)) in
  a' = a \/ a' = set_pendingMessages [] a.
Proof.
  destruct (Spec.eligible now interval a) eqn:E.
  - rewrite (processChannel_attempt _ _ _ _ _ _ _ E); cbv zeta.
    destruct (snd (RateLimiter.canSendMessage _ _)); [|now left].
    destruct (outcome turn); [now right | now left].
  - rewrite (processChannel_skip _ _ _ _ _ _ _ E); now left.
Qed.

Lemma processBatchUpdates_bound (now : Z) (world : nat -> Turn) (tr : t) :
  NoDup (map fst (channelActivities tr)) ->
  Spec.queuesBounded tr ->
  Spec.queuesBounded (fst (processBatchUpdates now world tr)).
Proof.
  intros Hnd Hinv k a' Hget'.
  pose proof (processBatchUpdates_keys now world tr) as Hkeys.
  assert (Hk : In k (map fst (channelActivities tr))).
  { rewrite <- Hkeys; exact (Map_get_key _ _ _ Hget'). }
  destruct (Map_key_get _ _ Hk) as [a Hget].
  unfold processBatchUpdates, getChannelActivity in *.
  pose proof (processEntries_entry now (client tr) (BATCH_INTERVAL tr) world
                (channelActivities tr) k a Hnd Hget 0%nat (rateLimiter tr))
    as Hentry.
  cbv zeta in Hentry.
  destruct (processEntries _ _ _ _ _ _ _) as [[rl table] events];
    cbn [fst snd channelActivities set_channelActivities] in *.
  destruct Hentry as (turn & rl0 & Hstep & _).
  rewrite Hstep in Hget'; injection Hget' as <-.
  destruct (processChannel_queue now (client tr) (BATCH_INTERVAL tr) turn rl0 k a)
    as [-> | ->]; [exact (Hinv k a Hget) | cbn; lia].
Qed.

(** The pieces of the calls keep the keys, the bound and the ids. *)
Lemma shouldForwardImmediately_start_keys (now : Z) (message : Message) (tr : t) :
  map fst (channelActivities
             (fst (fst (fst (Enqueue.shouldForwardImmediately_start now message tr)))))
  = map fst (channelActivities (fst (fst (shouldForwardImmediately now message tr)))).
Proof.
  rewrite shouldForwardImmediately_start_eq, shouldForwardImmediately_eq; cbv zeta;
    cbn [fst channelActivities].
  now rewrite !Map_replace_keys.
Qed.

(** The record the first piece leaves: the one the whole call leaves, or,
    when the enqueue is left running, the old one with its queue and id. *)
Lemma shouldForwardImmediately_start_record (now : Z) (message : Message) (tr : t)
      (k : jsstring) (a : ChannelActivity) :
  getChannelActivity
    k (fst (fst (fst (Enqueue.shouldForwardImmediately_start now message tr))))
  = Some a ->
  getChannelActivity k (fst (fst (shouldForwardImmediately now message tr))) = Some a
  \/ (pendingMessages a
      = pendingMessages (Spec.activityOf (channel_id (channel message)) tr)
      /\ channelId a = channelId (Spec.activityOf (channel_id (channel message)) tr)
      /\ k = channel_id (channel message)).
Proof.
  set (cid := channel_id (channel message)).
  pose proof (shouldForwardImmediately_on_start_eq
                now tr cid (Spec.activityOf cid tr) message) as Heq.
  destruct (Enqueue.shouldForwardImmediately_on_start
              now tr cid (Spec.activityOf cid tr) message)
    as [[[[a1 rl1] b1] task1] push1] eqn:Hstart.
  destruct (shouldForwardImmediately_on now tr cid (Spec.activityOf cid tr) message)
    as [[[a' rl] b] task] eqn:Hon.
  destruct (shouldForwardImmediately_start_focus now message tr _ _ _ _ _ Hstart)
    as (table1 & -> & Hget1 & Hother1 & _).
  destruct (shouldForwardImmediately_focus now message tr _ _ _ _ Hon)
    as (table & -> & Hget & Hother).
  fold cid in Hget1, Hother1, Hget, Hother.
  unfold getChannelActivity; cbn [fst channelActivities].
  destruct (str_eqb k cid) eqn:Ek.
  - apply str_eqb_eq in Ek; subst k; rewrite Hget1, Hget; intros [= <-].
    destruct b; [injection Heq as -> _ _ _ _; now left|].
    destruct (isEmptyMessage message); [injection Heq as -> _ _ _ _; now left|].
    destruct (nonEmpty (attachments message));
      [|injection Heq as -> _ _ _ _; now left].
    injection Heq as -> _ _ _ _; right; repeat split.
  - assert (Hk : k <> cid) by (intros ->; now rewrite str_eqb_refl in Ek).
    rewrite (Hother1 k Hk), (Hother k Hk); now left.
Qed.

Lemma shouldForwardImmediately_start_bound (now : Z) (message : Message) (tr : t) :
  Spec.queuesBounded tr ->
  Spec.queuesBounded
    (fst (fst (fst (Enqueue.shouldForwardImmediately_start now message tr)))).
Proof.
  intros Hinv k a Hget.
  destruct (shouldForwardImmediately_start_record now message tr k a Hget)
    as [Hwhole | (-> & _ & _)].
  - exact (shouldForwardImmediately_bound now message tr Hinv k a Hwhole).
  - unfold Spec.activityOf.
    destruct (getChannelActivity (channel_id (channel message)) tr) eqn:E;
      [eauto | cbn; lia].
Qed.

Lemma addPendingMessage_resume_bound (task : Enqueue.PushTask) (tr : t) :
  Spec.queuesBounded tr ->
  Spec.queuesBounded (Enqueue.addPendingMessage_resume task tr).
Proof.
  intros Hinv k a; rewrite addPendingMessage_resume_get.
  destruct (str_eqb k (Enqueue.pushRef task)); [|apply Hinv].
  destruct (getChannelActivity k tr); cbn [option_map]; [|discriminate].
  intros [= <-]; apply push_bound.
Qed.

Lemma processChannel_resume_bound (clock : Z) (outcome : QueryOutcome)
      (ref : jsstring) (tr : t) :
  Spec.queuesBounded tr ->
  Spec.queuesBounded (Scheduler.processChannel_resume clock outcome ref tr).
Proof.
  intros Hinv k a; rewrite processChannel_resume_get.
  destruct (str_eqb k ref && isResolved outcome); [|apply Hinv].
  destruct (getChannelActivity k tr); cbn [option_map]; [|discriminate].
  intros [= <-]; cbn; lia.
Qed.

Lemma processBatchUpdates_from_bound (now clock : Z) (i : nat) (tr : t) :
  Spec.queuesBounded tr ->
  Spec.queuesBounded (fst (fst (Scheduler.processBatchUpdates_from now clock i tr))).
Proof.
  intros Hinv k a; unfold getChannelActivity.
  rewrite (proj1 (processBatchUpdates_from_frame now clock i tr)); apply Hinv.
Qed.

(** The keys of a reachable tracker are distinct and its queues are
    bounded. *)
Lemma reachable_invariant (tr : t) :
  Reachable tr -> NoDup (map fst (channelActivities tr)) /\ Spec.queuesBounded tr.
Proof.
  induction 1 as [cl rl cfg | now message tr _ [IHk IHq]
                  | now outcome task tr _ [IHk IHq] | now world tr _ [IHk IHq]
                  | now message tr _ [IHk IHq] | task tr _ [IHk IHq]
                  | now clock i tr _ [IHk IHq] | clock outcome task tr _ [IHk IHq]
                  | rl tr _ [IHk IHq]].
  - split; [apply NoDup_nil | intros k a; discriminate].
  - split; [now apply shouldForwardImmediately_keys
           | now apply shouldForwardImmediately_bound].
  - split; [now rewrite sendBatchUpdate_resume_keys
           | now apply sendBatchUpdate_resume_bound].
  - split; [now rewrite processBatchUpdates_keys
           | now apply processBatchUpdates_bound].
  - split; [rewrite shouldForwardImmediately_start_keys;
            now apply shouldForwardImmediately_keys
           | now apply shouldForwardImmediately_start_bound].
  - split; [now rewrite addPendingMessage_resume_keys
           | now apply addPendingMessage_resume_bound].
  - split; [now rewrite (proj1 (processBatchUpdates_from_frame now clock i tr))
           | now apply processBatchUpdates_from_bound].
  - unfold Scheduler.processBatchUpdates_resume.
    split; [rewrite (proj1 (processBatchUpdates_from_frame _ _ _ _));
            now rewrite processChannel_resume_keys
           | now apply processBatchUpdates_from_bound, processChannel_resume_bound].
  - split; [exact IHk | exact IHq].
Qed.

(** C5.  The pending queue never holds more than 50 entries: one
    [addPendingMessage] keeps the bound, and so does every tracker the bot
    can reach, for each of its channels.  Enqueueing 55 non-empty messages
    into an empty queue leaves exactly 50 entries, the last 50 enqueued, in
    the order they were enqueued. *)
Theorem pending_queue_keeps_last_50 :
  (forall activity message,
      (length (pendingMessages activity) <= 50)%nat ->
      (length (pendingMessages (addPendingMessage activity message)) <= 50)%nat)
  /\ (forall tr, Reachable tr ->
                 forall k a, getChannelActivity k tr = Some a ->
                             (length (pendingMessages a) <= 50)%nat)
  /\ (forall activity messages,
         pendingMessages activity = [] ->
         Forall (fun m => isEmptyMessage m = false) messages ->
         length messages = 55%nat ->
         let queue := pendingMessages (fold_left addPendingMessage messages activity) in
         queue = map pendingOf (skipn 5 messages) /\ length queue = 50%nat).
Proof.
  split; [exact addPendingMessage_bound|]; split.
  - intros tr Hreach; exact (proj2 (reachable_invariant tr Hreach)).
  - intros activity messages Hempty Hne Hlen queue; subst queue.
    rewrite (addPendingMessage_many messages Hne) by (rewrite Hempty; cbn; lia).
    rewrite Hempty; cbn [app].
    unfold sliceLast; rewrite length_map, Hlen.
    change (55 - 50)%nat with 5%nat.
    rewrite skipn_map; split; [reflexivity|].
    rewrite length_map, length_skipn; lia.
Qed.

End Invariants.

(** ** Flushes: what the mention path and the scheduler guarantee *)

Section FlushClaims.
Context {R : Runtime}.
Import ActivityTracker.

(** C1, as the code has it.  For a message classified as a mention,
    [shouldForwardImmediately] returns true and stamps
    [lastGorpMention = now] and [isActive = true].  The flush it starts
    for a non-empty queue builds a digest with the queued lines in queue
    order followed by the mention's own line; run to its end, it leaves
    the queue at length 0 when the rate limiter admits it and the
    downstream query resolves, and leaves the queue as it was when the
    limiter denies it or the query fails. *)
Theorem mention_returns_true_and_flushes_when_sent
        (now t1 t2 : Z) (outcome : QueryOutcome) (message : Message) (tr : t) :
  isGorpMentioned (client tr) message = true ->
  let channelId := channel_id (channel message) in
  let '(tr', result, task) := shouldForwardImmediately now message tr in
  let final := sendBatchUpdate_finish t1 t2 outcome task tr' in
  let checkedAt := if nonEmpty (attachments message) then t1 else now in
  let admitted := snd (RateLimiter.canSendMessage checkedAt (rateLimiter tr)) in
  result = true
  /\ (exists a', getChannelActivity channelId tr' = Some a'
                 /\ lastGorpMention a' = now /\ isActive a' = true)
  /\ (admitted = true -> isResolved outcome = true ->
      length (Spec.queueOf channelId final) = 0%nat)
  /\ (admitted = false \/ isResolved outcome = false ->
      Spec.queueOf channelId final = Spec.queueOf channelId tr)
  /\ (forall running, task = Some running ->
        exists header,
          Spec.taskSummary running
          = header ++ join nl (map text (Spec.queueOf channelId tr))
                   ++ nl ++ nl ++ lit "--- MENTION ---" ++ nl
                   ++ formatMessageWithImages message (messageChannelName message)).
Proof.
  intros Hm channelId.
  pose proof (mention_flush_queue now t1 t2 outcome message tr Hm) as Hq.
  pose proof (fun running => mention_flush_digest now message tr running Hm) as Hd.
  cbv zeta in Hq, Hd; fold channelId in Hq, Hd.
  destruct (shouldForwardImmediately now message tr) as [[tr' result] task];
    cbn [fst snd] in Hq, Hd.
  destruct Hq as (Hres & Hget & _ & Hqueue).
  cbv zeta; split; [exact Hres|]; split.
  { eexists; split; [exact Hget|]; split; reflexivity. }
  split; [|split].
  - intros Ha Hr; rewrite Hqueue, Ha, Hr; reflexivity.
  - intros [Ha | Hr]; rewrite Hqueue; [now rewrite Ha|].
    rewrite Hr; now destruct (snd (RateLimiter.canSendMessage _ _)).
  - exact Hd.
Qed.




(** C10.  Classification does not look at the rate limiter.  Two runs of
    [shouldForwardImmediately] on the same message and the same channel
    table, one with the quota exhausted and one with it free (any two
    limiter states), return the same boolean and leave the same channel
    table when the call returns; and whatever the flush does afterwards
    in either run, [lastGorpMention], [lastGorpMessage], [lastActivity]
    and [isActive] of every channel stay the same in both. *)
Theorem classification_ignores_rate_limiter
        (now : Z) (message : Message) (tr : t) (rlA rlB : RateLimiter.t) :
  let runA := shouldForwardImmediately now message (set_rateLimiter rlA tr) in
  let runB := shouldForwardImmediately now message (set_rateLimiter rlB tr) in
  snd (fst runA) = snd (fst runB)
  /\ channelActivities (fst (fst runA)) = channelActivities (fst (fst runB))
  /\ forall t1 t2 t1' t2' outcomeA outcomeB k,
      option_map Spec.stamps
        (getChannelActivity k
           (sendBatchUpdate_finish t1 t2 outcomeA (snd runA) (fst (fst runA))))
      = option_map Spec.stamps
          (getChannelActivity k
             (sendBatchUpdate_finish t1' t2' outcomeB (snd runB) (fst (fst runB)))).
Proof.
  cbv zeta.
  rewrite !shouldForwardImmediately_eq; cbv zeta; cbn [fst snd channelActivities].
  set (channelId := channel_id (channel message)).
  assert (Hsame : Spec.activityOf channelId (set_rateLimiter rlA tr)
                  = Spec.activityOf channelId (set_rateLimiter rlB tr))
    by reflexivity.
  rewrite Hsame.
  destruct (shouldForwardImmediately_on_limiter now tr rlA rlB channelId
              (Spec.activityOf channelId (set_rateLimiter rlB tr)) message)
    as [Ha Hb].
  cbn [set_rateLimiter channelActivities] in *.
  rewrite Ha, Hb.
  split; [reflexivity|]; split; [reflexivity|].
  intros t1 t2 t1' t2' outcomeA outcomeB k.
  rewrite !sendBatchUpdate_finish_stamps.
  reflexivity.
Qed.

End FlushClaims.

Section FlushChecks.
Import ActivityTracker.

(** C1 as stated fails: with the hourly quota used up, a mention makes
    [shouldForwardImmediately] return true while the message queued before
    it is still in the queue, at the return and after the flush has ended
    (the limiter denied it, so nothing is left running). *)
Lemma mention_with_quota_used_leaves_queue :
  isGorpMentioned (R := Scenario.asciiRuntime)
                  (client Scenario.quotaUsed) Scenario.mention = true
  /\ length (Spec.queueOf (lit "100") Scenario.quotaUsed) = 1%nat
  /\ let '(tr', result, task) :=
       shouldForwardImmediately (R := Scenario.asciiRuntime) 1000500
                                Scenario.mention Scenario.quotaUsed in
     result = true
     /\ task = None
     /\ length (Spec.queueOf (lit "100") tr') <> 0%nat
     /\ length (Spec.queueOf (lit "100")
                  (sendBatchUpdate_finish (R := Scenario.asciiRuntime)
                     1000600 1000700 (Resolved (lit "noted")) task tr'))
        <> 0%nat.
Proof. vm_compute; repeat split; discriminate. Qed.

Lemma mention_returns_true_and_flushes_when_sent_witness :
  let '(tr', result, task) :=
    shouldForwardImmediately (R := Scenario.asciiRuntime) 1000500
                             Scenario.mention (Scenario.afterHello 3) in
  result = true
  /\ length (Spec.queueOf (lit "100")
               (sendBatchUpdate_finish (R := Scenario.asciiRuntime)
                  1000600 1000700 (Resolved (lit "noted")) task tr'))
     = 0%nat.
Proof.
  pose proof (@mention_returns_true_and_flushes_when_sent Scenario.asciiRuntime
                1000500 1000600 1000700 (Resolved (lit "noted"))
                Scenario.mention (Scenario.afterHello 3)
                ltac:(vm_compute; reflexivity)) as Hc.
  cbv zeta in Hc.
  change (channel_id (channel Scenario.mention)) with (lit "100") in Hc.
  destruct (shouldForwardImmediately 1000500 Scenario.mention
                                     (Scenario.afterHello 3))
    as [[tr' result] task].
  destruct Hc as (Hres & _ & Hflush & _).
  split; [exact Hres|].
  apply Hflush; vm_compute; reflexivity.
Defined.




(** The flush is started, not awaited: with quota to spare, the call has
    returned true while the query is still running and the queue is not
    yet cleared; the queue is cleared when the query resolves. *)
Lemma admitted_flush_is_running_at_return :
  let '(tr', result, task) :=
    shouldForwardImmediately (R := Scenario.asciiRuntime) 1000500
                             Scenario.mention (Scenario.afterHello 3) in
  result = true
  /\ task <> None
  /\ length (Spec.queueOf (lit "100") tr') = 1%nat.
Proof. vm_compute; repeat split; discriminate. Qed.

(** The loop iterates over the live table: a channel that did not exist
    when the tick started, and whose first message is queued while the
    tick awaits a send for another channel, is flushed by the same tick. *)
Lemma channel_queued_during_await_is_flushed_by_the_same_tick :
  let started := Scheduler.processBatchUpdates_start 1060000 (Scenario.afterHello 3) in
  exists running,
    snd started = Some running
    /\ Scheduler.tickRef running = lit "100"
    /\ getChannelActivity (lit "200") (fst (fst started)) = None
    /\ let meanwhile :=
         fst (fst (shouldForwardImmediately (R := Scenario.asciiRuntime) 1060200
                     Samples.helloRandom (fst (fst started)))) in
       option_map Scheduler.tickRef
         (snd (Scheduler.processBatchUpdates_resume
                 1060400 (Rejected (lit "503")) running meanwhile))
       = Some (lit "200").
Proof.
  cbv zeta; eexists; split; [vm_compute; reflexivity|].
  split; [reflexivity|]; split; vm_compute; reflexivity.
Qed.


End FlushChecks.

Section QueueChecks.
Import ActivityTracker.

Lemma pending_queue_keeps_last_50_witness :
  let queue :=
    pendingMessages
      (fold_left (addPendingMessage (R := Scenario.asciiRuntime)) Scenario.burst
                 (freshActivity (lit "100"))) in
  queue = map (pendingOf (R := Scenario.asciiRuntime)) (skipn 5 Scenario.burst)
  /\ length queue = 50%nat.
Proof.
  destruct (@pending_queue_keeps_last_50 Scenario.asciiRuntime) as (_ & _ & Hlast).
  apply Hlast; [reflexivity | | reflexivity].
  vm_compute; repeat constructor.
Defined.

End QueueChecks.

(** * Further properties *)

(** ** The rate limiter in use *)

Section RateLimiterUse.
Import RateLimiter.

Lemma purge_length (now : Z) (ts : list Z) :
  (length (purge now ts) <= length ts)%nat.
Proof.
  induction ts as [|t ts IH]; simpl; [lia|].
  destruct (now - t <? windowMs); simpl; lia.
Qed.

Lemma purge_app (now : Z) (xs ys : list Z) :
  purge now (xs ++ ys) = purge now xs ++ purge now ys.
Proof. apply filter_app. Qed.

(** What a purge removes stays out of every later window. *)
Lemma purge_later (t t' : Z) (ts : list Z) :
  t <= t' -> purge t' (purge t ts) = purge t' ts.
Proof.
  intros Hle; induction ts as [|s ts IH]; simpl; trivial.
  destruct (Z.ltb_spec (t - s) windowMs) as [Hin|Hout]; simpl.
  - now rewrite IH.
  - destruct (Z.ltb_spec (t' - s) windowMs); [lia | exact IH].
Qed.

Lemma sorted_app_inv (xs ys : list Z) :
  StronglySorted Z.le (xs ++ ys) ->
  StronglySorted Z.le xs /\ StronglySorted Z.le ys
  /\ forall x y, In x xs -> In y ys -> x <= y.
Proof.
  induction xs as [|a xs IH]; cbn [app]; intros Hs.
  - repeat split; [constructor | exact Hs | intros x y []].
  - inversion Hs as [|? ? Hs' Hall]; subst.
    destruct (IH Hs') as (Hx & Hy & Hxy).
    apply Forall_app in Hall; destruct Hall as [Hax Hay].
    repeat split; [now constructor | exact Hy |].
    intros x y [<-|Hin] Hiny; [|auto].
    rewrite Forall_forall in Hay; auto.
Qed.

Lemma inStep_later (cap t0 t1 : Z) (st : RateLimiter.t * list Z) :
  t0 <= t1 -> Usage.inStep cap t0 st -> Usage.inStep cap t1 st.
Proof.
  intros Hle (H1 & H2 & H3); split; [|split]; trivial.
  intros t Ht; apply H3; lia.
Qed.

Lemma use_inStep (cap t0 : Z) (st : RateLimiter.t * list Z) (u : Usage.Use) :
  Usage.inStep cap t0 st ->
  StronglySorted Z.le (t0 :: Usage.timesOf u) ->
  Usage.inStep cap (Usage.endOf u) (Usage.use st u).
Proof.
  destruct st as [rl sent]; intros (Hcap & Hlen & Hsame) Hs.
  cbn [fst snd] in *; subst cap.
  inversion Hs as [|? ? Hs' Hall]; subst.
  assert (Hquiet : forall c, t0 <= c ->
             Usage.inStep (maxMessagesPerHour rl) c (mk (purge c (messageTimestamps rl))
                                    (maxMessagesPerHour rl), sent)).
  { intros c Hc; split; [|split]; cbn [fst snd messageTimestamps maxMessagesPerHour].
    - reflexivity.
    - pose proof (purge_length c (messageTimestamps rl)); lia.
    - intros t Ht; rewrite purge_later by lia; apply Hsame; lia. }
  destruct u as [c [r|] | t]; cbn [Usage.timesOf Usage.endOf Usage.use] in *.
  - inversion Hall as [|? ? Hc Hall']; subst.
    inversion Hs' as [|? ? _ Hcr]; subst.
    inversion Hcr as [|? ? Hcr' _]; subst.
    unfold canSendMessage.
    destruct (Z.ltb_spec (Z.of_nat (length (purge c (messageTimestamps rl))))
                         (maxMessagesPerHour rl)) as [Hadm|Hden].
    + split; [|split]; cbn [fst snd messageTimestamps maxMessagesPerHour
                                    recordMessageSent].
      * reflexivity.
      * rewrite length_app; cbn [length]; lia.
      * intros t Ht; rewrite !purge_app, purge_later by lia.
        now rewrite Hsame by lia.
    + apply (inStep_later _ c r); [exact Hcr' | exact (Hquiet c Hc)].
  - inversion Hall as [|? ? Hc _]; subst.
    unfold canSendMessage.
    destruct (_ <? _); exact (Hquiet c Hc).
  - inversion Hall as [|? ? Ht _]; subst.
    exact (Hquiet t Ht).
Qed.

Lemma endOf_last (u : Usage.Use) :
  In (Usage.endOf u) (Usage.timesOf u).
Proof. destruct u as [c [r|] | t]; cbn; auto. Qed.

Lemma run_inStep (cap : Z) (uses : list Usage.Use) :
  forall t0 st,
    Usage.inStep cap t0 st ->
    StronglySorted Z.le (t0 :: Usage.clock uses) ->
    forall t, Forall (fun x => x <= t) (t0 :: Usage.clock uses) ->
              Usage.inStep cap t (fold_left Usage.use uses st).
Proof.
  unfold Usage.clock.
  induction uses as [|u uses IH]; intros t0 st Hin Hs t Ht; cbn [fold_left map concat] in *.
  - inversion Ht; subst; now apply (inStep_later cap t0 t).
  - change (t0 :: Usage.timesOf u ++ concat (map Usage.timesOf uses))
      with ((t0 :: Usage.timesOf u) ++ concat (map Usage.timesOf uses)) in Hs, Ht.
    destruct (sorted_app_inv _ _ Hs) as (Hu & Hrest & Hcross).
    apply Forall_app in Ht; destruct Ht as [Htu Htrest].
    apply (IH (Usage.endOf u)).
    + now apply (use_inStep cap t0).
    + constructor; [exact Hrest|].
      apply Forall_forall; intros y Hy.
      apply Hcross; [right; apply endOf_last | exact Hy].
    + constructor; [|exact Htrest].
      rewrite Forall_forall in Htu; apply Htu; right; apply endOf_last.
Qed.

(** X1.  Used serially, with a clock that does not run backwards, the
    limiter keeps the quota: whatever the checks, failed queries and status
    reads of a run, the sends that were recorded within the hour before any
    time from the end of the run on number at most the cap. *)
Theorem serial_use_keeps_quota (cap : Z) (uses : list Usage.Use) (t : Z) :
  0 <= cap ->
  StronglySorted Z.le (Usage.clock uses) ->
  Forall (fun x => x <= t) (Usage.clock uses) ->
  Z.of_nat (length (Spec.withinTrailingHour t (snd (Usage.run cap uses)))) <= cap.
Proof.
  intros Hcap Hs Ht.
  set (t0 := match Usage.clock uses with [] => t | x :: _ => x end).
  assert (Hinit : Usage.inStep cap t0 (create cap, [])).
  { split; [|split]; cbn; [reflexivity | lia | reflexivity]. }
  assert (Hs0 : StronglySorted Z.le (t0 :: Usage.clock uses)).
  { subst t0; destruct (Usage.clock uses) as [|x xs].
    - constructor; constructor.
    - constructor; [exact Hs|].
      inversion Hs; subst; constructor; [lia | assumption]. }
  assert (Ht0 : Forall (fun x => x <= t) (t0 :: Usage.clock uses)).
  { constructor; [|exact Ht].
    subst t0; destruct (Usage.clock uses); [lia | now inversion Ht]. }
  destruct (run_inStep cap uses t0 _ Hinit Hs0 t Ht0) as (_ & Hlen & Hsame).
  rewrite <- purge_withinTrailingHour.
  unfold Usage.run; rewrite (Hsame t) by lia.
  pose proof (purge_length t (messageTimestamps
                                (fst (fold_left Usage.use uses (create cap, []))))).
  lia.
Qed.

End RateLimiterUse.

Section RateLimiterReads.
Import RateLimiter.

(** X2.  Reading the limiter never changes what it decides later: after a
    [canSendMessage], a [getStatus] or a [getTimeUntilReset] made at some
    time, every check and every status read at that time or later gives
    the limiter and the answer it would have given without it. *)
Theorem reads_leave_later_answers (t t' now : Z) (rl : RateLimiter.t) :
  t <= t' ->
  canSendMessage t' (fst (canSendMessage t rl)) = canSendMessage t' rl
  /\ canSendMessage t' (fst (getStatus t rl)) = canSendMessage t' rl
  /\ canSendMessage t' (fst (getTimeUntilReset t now rl)) = canSendMessage t' rl
  /\ getStatus t' (fst (canSendMessage t rl)) = getStatus t' rl
  /\ getStatus t' (fst (getStatus t rl)) = getStatus t' rl.
Proof.
  intros Hle.
  unfold getTimeUntilReset, getStatus, canSendMessage;
    cbn [fst snd messageTimestamps maxMessagesPerHour].
  rewrite (purge_later t t' _ Hle).
  repeat split.
Qed.

(** X3.  The check and the status agree: at one instant [canSendMessage]
    admits exactly when [getStatus] reports a positive [remainingMessages],
    both leave the same limiter behind, and the reported numbers add up to
    the cap unless the window already holds more than the cap. *)
Theorem check_agrees_with_status (now : Z) (rl : RateLimiter.t) :
  let status := snd (getStatus now rl) in
  snd (canSendMessage now rl) = (0 <? remainingMessages status)
  /\ fst (canSendMessage now rl) = fst (getStatus now rl)
  /\ statusMaxMessagesPerHour status = maxMessagesPerHour rl
  /\ 0 <= messagesInWindow status
  /\ (messagesInWindow status <= maxMessagesPerHour rl ->
      messagesInWindow status + remainingMessages status = maxMessagesPerHour rl)
  /\ (maxMessagesPerHour rl < messagesInWindow status ->
      remainingMessages status = 0).
Proof.
  cbv zeta; unfold getStatus, canSendMessage;
    cbn [fst snd remainingMessages messagesInWindow statusMaxMessagesPerHour].
  set (n := Z.of_nat (length (purge now (messageTimestamps rl)))).
  split; [|split; [reflexivity|split; [reflexivity|split; [lia|split; lia]]]].
  destruct (Z.ltb_spec n (maxMessagesPerHour rl));
    destruct (Z.ltb_spec 0 (Z.max 0 (maxMessagesPerHour rl - n))); trivial; lia.
Qed.

(** X4.  With no timestamp ahead of the clock, [getTimeUntilReset] is a
    number of minutes between 0 and 60; read at the instant of the status,
    it is 0 exactly when the window is empty. *)
Theorem countdown_between_0_and_60 (statusNow now : Z) (rl : RateLimiter.t) :
  Forall (fun s => s <= statusNow) (messageTimestamps rl) ->
  statusNow <= now ->
  let minutes := snd (getTimeUntilReset statusNow now rl) in
  0 <= minutes <= 60
  /\ (now = statusNow ->
      (minutes = 0 <-> Spec.withinTrailingHour statusNow (messageTimestamps rl) = [])).
Proof.
  intros Hpast Hnow; cbv zeta.
  unfold getTimeUntilReset, getStatus; cbn [fst snd resetTime].
  rewrite purge_withinTrailingHour.
  set (retained := Spec.withinTrailingHour statusNow (messageTimestamps rl)).
  assert (Hret : Forall (fun s => statusNow - 3600000 < s <= statusNow) retained).
  { apply Forall_forall; intros s Hs.
    apply filter_In in Hs; destruct Hs as [Hin Hw].
    rewrite Forall_forall in Hpast; specialize (Hpast s Hin).
    apply Z.ltb_lt in Hw; lia. }
  change (1000 * 60) with 60000.
  destruct retained as [|first rest].
  - assert (E : ceilDiv (statusNow - now) 60000 <= 0).
    { apply (proj2 (ceilDiv_least (statusNow - now) 60000 ltac:(lia))); lia. }
    split; [lia|]; intros _; split; [reflexivity | lia].
  - inversion Hret as [|? ? Hfirst _]; subst.
    unfold windowMs.
    destruct (ceilDiv_least (first + 60 * 60 * 1000 - now) 60000 ltac:(lia))
      as [Hge Hleast].
    pose proof (Hleast 60 ltac:(lia)) as Hle60.
    split; [lia|].
    intros ->; split; [|discriminate].
    intros Hzero; exfalso.
    assert (ceilDiv (first + 60 * 60 * 1000 - statusNow) 60000 <= 0) by lia.
    lia.
Qed.

(** X5.  [resetTime] is when the next slot opens.  When the window is
    exactly full and the timestamps are in recording order, every check
    from the status until just before [resetTime] is denied, and every
    check from [resetTime] on is admitted. *)
Theorem resetTime_is_next_admission (statusNow t : Z) (rl : RateLimiter.t) :
  StronglySorted Z.le (messageTimestamps rl) ->
  let status := snd (getStatus statusNow rl) in
  0 < messagesInWindow status ->
  messagesInWindow status = maxMessagesPerHour rl ->
  statusNow <= t ->
  snd (canSendMessage t rl) = (resetTime status <=? t).
Proof.
  intros Hsorted; cbv zeta.
  unfold getStatus, canSendMessage; cbn [fst snd messagesInWindow resetTime].
  intros Hpos Hfull Ht.
  rewrite <- (purge_later statusNow t _ Ht).
  pose proof (purge_sorted statusNow _ Hsorted) as Hs.
  destruct (purge statusNow (messageTimestamps rl)) as [|first rest] eqn:E;
    [cbn in Hpos; lia|].
  rewrite <- Hfull.
  inversion Hs as [|? ? _ Hall]; subst.
  destruct (Z.leb_spec (first + windowMs) t) as [Hafter|Hbefore].
  - apply Z.ltb_lt.
    cbn [purge filter].
    destruct (Z.ltb_spec (t - first) windowMs); [lia|].
    pose proof (purge_length t rest).
    fold (purge t rest); cbn [length]; lia.
  - apply Z.ltb_ge.
    rewrite purge_keeps; [lia|].
    constructor; [lia|].
    rewrite Forall_forall in Hall |- *; intros s Hin.
    specialize (Hall s Hin); lia.
Qed.

End RateLimiterReads.

(** ** More on one call of [shouldForwardImmediately] *)

Section TrackerCalls.
Context {R : Runtime}.
Import ActivityTracker.

(** X6.  When the part of [shouldForwardImmediately] that runs in one go
    ends, the channel's [isActive] flag is the boolean the call returns,
    [lastActivity] is the current time, and (for a positive clock and a
    positive timeout) both say whether the channel's last mention or last
    own message, as stamped by then, is less than the interaction timeout
    old.  That is the state at the return of the call unless an enqueue is
    left running, which happens only for a message with attachments that
    is queued: then the call returns after the download, and other calls
    may have changed the record meanwhile. *)
Theorem returned_flag_is_activity (now : Z) (message : Message) (tr : t) :
  0 < now ->
  0 < GORP_INTERACTION_TIMEOUT tr ->
  let channelId := channel_id (channel message) in
  let '(tr1, result, _, pushTask) :=
    Enqueue.shouldForwardImmediately_start now message tr in
  (exists a',
      getChannelActivity channelId tr1 = Some a'
      /\ isActive a' = result
      /\ lastActivity a' = now
      /\ result
         = (lessThan (timeSince now (lastGorpMention a')) (GORP_INTERACTION_TIMEOUT tr)
            || lessThan (timeSince now (lastGorpMessage a')) (GORP_INTERACTION_TIMEOUT tr)))
  /\ (pushTask <> None -> result = false /\ attachments message <> [])
  /\ (attachments message = [] -> pushTask = None).
Proof.
  intros Hnow HT channelId.
  assert (Hzero : lessThan (timeSince now now) (GORP_INTERACTION_TIMEOUT tr) = true).
  { unfold lessThan, timeSince.
    destruct (Z.ltb_spec 0 now); [|lia].
    apply Z.ltb_lt; lia. }
  destruct (Enqueue.shouldForwardImmediately_on_start
              now tr channelId (Spec.activityOf channelId tr) message)
    as [[[[a' rl] b] task] pushTask] eqn:Hon.
  destruct (shouldForwardImmediately_start_focus now message tr _ _ _ _ _ Hon)
    as (table & -> & Hget & _).
  unfold getChannelActivity; cbn [channelActivities]; fold channelId in Hget.
  unfold Enqueue.shouldForwardImmediately_on_start in Hon.
  destruct (isGorpMentioned (client tr) message).
  { destruct (if nonEmpty _ then _ else _) as [rl0 task0].
    injection Hon as <- _ <- _ <-.
    split; [|split; [intros []; reflexivity | reflexivity]].
    eexists; split; [exact Hget|].
    cbn [isActive lastActivity lastGorpMention lastGorpMessage set_isActive
                  set_lastGorpMention set_lastActivity].
    now rewrite Hzero. }
  destruct (isFromGorp (client tr) message).
  { injection Hon as <- _ <- _ <-.
    split; [|split; [intros []; reflexivity | reflexivity]].
    eexists; split; [exact Hget|].
    cbn [isActive lastActivity lastGorpMention lastGorpMessage set_isActive
                  set_lastGorpMessage set_lastActivity].
    now rewrite Hzero, orb_true_r. }
  cbn [lastGorpMention lastGorpMessage set_lastActivity] in Hon.
  destruct (lessThan _ _ || lessThan _ _) eqn:Hw.
  { injection Hon as <- _ <- _ <-.
    split; [|split; [intros []; reflexivity | reflexivity]].
    eexists; split; [exact Hget|].
    cbn [isActive lastActivity lastGorpMention lastGorpMessage set_isActive
                  set_lastActivity].
    now rewrite Hw. }
  unfold Enqueue.addPendingMessage_start in Hon.
  destruct (isEmptyMessage message).
  { injection Hon as <- _ <- _ <-.
    split; [|split; [intros []; reflexivity | reflexivity]].
    eexists; split; [exact Hget|].
    cbn [isActive lastActivity lastGorpMention lastGorpMessage set_isActive
                  set_lastActivity].
    now rewrite Hw. }
  destruct (attachments message) as [|att atts]; cbn [nonEmpty] in Hon.
  - injection Hon as <- _ <- _ <-.
    split; [|split; [intros []; reflexivity | reflexivity]].
    eexists; split; [exact Hget|].
    unfold Enqueue.push; destruct (50 <? _)%nat;
      cbn [isActive lastActivity lastGorpMention lastGorpMessage set_isActive
                    set_lastActivity set_pendingMessages];
      now rewrite Hw.
  - injection Hon as <- _ <- _ <-.
    split; [|split; [intros _; split; [reflexivity | discriminate] | discriminate]].
    eexists; split; [exact Hget|].
    cbn [isActive lastActivity lastGorpMention lastGorpMessage set_isActive
                  set_lastActivity].
    now rewrite Hw.
Qed.

(** X7.  A call touches nothing but the record of the message's channel and
    the rate limiter, and the limiter only by a purge: no send is recorded
    before the call returns.  A flush is left running only for a mention
    that found a non-empty queue. *)
Theorem call_touches_only_its_channel (now : Z) (message : Message) (tr : t) :
  let channelId := channel_id (channel message) in
  let '(tr', result, task) := shouldForwardImmediately now message tr in
  (forall k, k <> channelId -> getChannelActivity k tr' = getChannelActivity k tr)
  /\ client tr' = client tr
  /\ GORP_INTERACTION_TIMEOUT tr' = GORP_INTERACTION_TIMEOUT tr
  /\ BATCH_INTERVAL tr' = BATCH_INTERVAL tr
  /\ RateLimiter.maxMessagesPerHour (rateLimiter tr')
     = RateLimiter.maxMessagesPerHour (rateLimiter tr)
  /\ (RateLimiter.messageTimestamps (rateLimiter tr')
      = RateLimiter.messageTimestamps (rateLimiter tr)
      \/ RateLimiter.messageTimestamps (rateLimiter tr')
         = RateLimiter.purge now (RateLimiter.messageTimestamps (rateLimiter tr)))
  /\ (task <> None ->
      isGorpMentioned (client tr) message = true
      /\ Spec.queueOf channelId tr <> []).
Proof.
  intros channelId.
  destruct (shouldForwardImmediately_on now tr channelId
                                        (Spec.activityOf channelId tr) message)
    as [[[a' rl] b] task] eqn:Hon.
  destruct (shouldForwardImmediately_focus now message tr _ _ _ _ Hon)
    as (table & -> & _ & Hother).
  split; [exact Hother|].
  cbn [client GORP_INTERACTION_TIMEOUT BATCH_INTERVAL rateLimiter].
  do 3 (split; [reflexivity|]).
  unfold shouldForwardImmediately_on in Hon.
  destruct (isGorpMentioned (client tr) message).
  - cbn [pendingMessages set_lastActivity] in Hon.
    fold (Spec.queueOf channelId tr) in Hon.
    destruct (Spec.queueOf channelId tr) as [|p q]; cbn [nonEmpty] in Hon.
    + injection Hon as _ <- _ <-.
      split; [reflexivity|]; split; [now left | intros []; reflexivity].
    + unfold sendBatchUpdate in Hon.
      destruct (nonEmpty (attachments message)).
      * injection Hon as _ <- _ <-.
        split; [reflexivity|]; split; [now left|].
        intros _; split; [reflexivity | discriminate].
      * rewrite sendBatchUpdate_send_limiter in Hon.
        injection Hon as _ <- _ <-.
        split; [reflexivity|]; split; [now right|].
        intros _; split; [reflexivity | discriminate].
  - destruct (isFromGorp (client tr) message).
    + injection Hon as _ <- _ <-.
      split; [reflexivity|]; split; [now left | intros []; reflexivity].
    + destruct (lessThan _ _ || lessThan _ _);
        injection Hon as _ <- _ <-;
        (split; [reflexivity|]; split; [now left | intros []; reflexivity]).
Qed.

(** X8.  A message is forwarded or queued, never both.  When the call
    decides true, the queue of the channel is left as it was and no
    enqueue is started.  When it decides false, a message that is not
    empty is pushed and the queue cut to its last 50 entries: at once for
    a message without attachments, onto the queue as the call found it;
    and for a message with attachments after their download, onto the
    queue as it is by then, the call having left it untouched until then
    and the push touching no other channel. *)
Theorem forwarded_or_queued (now : Z) (message : Message) (tr : t) :
  let channelId := channel_id (channel message) in
  let '(tr1, result, _, pushTask) :=
    Enqueue.shouldForwardImmediately_start now message tr in
  match pushTask with
  | None =>
      Spec.queueOf channelId tr1
      = if result then Spec.queueOf channelId tr
        else if isEmptyMessage message then Spec.queueOf channelId tr
             else sliceLast 50 (Spec.queueOf channelId tr ++ [pendingOf message])
  | Some running =>
      result = false
      /\ attachments message <> []
      /\ Spec.queueOf channelId tr1 = Spec.queueOf channelId tr
      /\ forall tr0 a0,
          getChannelActivity channelId tr0 = Some a0 ->
          Spec.queueOf channelId (Enqueue.addPendingMessage_resume running tr0)
          = sliceLast 50 (pendingMessages a0 ++ [pendingOf message])
          /\ forall k, k <> channelId ->
                       getChannelActivity k (Enqueue.addPendingMessage_resume running tr0)
                       = getChannelActivity k tr0
  end.
Proof.
  intros channelId.
  destruct (Enqueue.shouldForwardImmediately_on_start
              now tr channelId (Spec.activityOf channelId tr) message)
    as [[[[a' rl] b] task] pushTask] eqn:Hon.
  destruct (shouldForwardImmediately_start_focus now message tr _ _ _ _ _ Hon)
    as (table & -> & Hget & _).
  fold channelId in Hget.
  assert (Hq : Spec.queueOf channelId
                 (mk table (client tr) rl (GORP_INTERACTION_TIMEOUT tr)
                     (BATCH_INTERVAL tr))
               = pendingMessages a') by (apply queueOf_stored; exact Hget).
  rewrite Hq; clear Hq.
  unfold Enqueue.shouldForwardImmediately_on_start in Hon.
  destruct (isGorpMentioned (client tr) message).
  { destruct (if nonEmpty _ then _ else _) as [rl0 task0].
    injection Hon as <- _ <- _ <-; reflexivity. }
  destruct (isFromGorp (client tr) message).
  { injection Hon as <- _ <- _ <-; reflexivity. }
  destruct (lessThan _ _ || lessThan _ _).
  { injection Hon as <- _ <- _ <-; reflexivity. }
  unfold Enqueue.addPendingMessage_start in Hon.
  destruct (isEmptyMessage message) eqn:Hempty.
  { injection Hon as <- _ <- _ <-; reflexivity. }
  destruct (attachments message) as [|att atts] eqn:Hatt; cbn [nonEmpty] in Hon.
  - injection Hon as <- _ <- _ <-.
    rewrite push_queue.
    unfold pendingOf; rewrite Hatt; reflexivity.
  - injection Hon as <- _ <- _ <-.
    split; [reflexivity|]; split; [discriminate|]; split; [reflexivity|].
    intros tr0 a0 Hget0.
    assert (Hentry : Enqueue.pendingMessageOf
                       (Enqueue.mkPushTask
                          channelId
                          (formatMessageWithImages message (messageChannelName message))
                          (map snd (att :: atts)))
                     = pendingOf message).
    { rewrite <- Hatt; apply pendingMessageOf_message; rewrite Hatt; discriminate. }
    cbn [map] in Hentry.
    split.
    + unfold Spec.queueOf, Spec.activityOf.
      rewrite addPendingMessage_resume_get; cbn [Enqueue.pushRef].
      rewrite str_eqb_refl, Hget0; cbn [option_map].
      now rewrite push_queue, Hentry.
    + intros k Hk.
      rewrite addPendingMessage_resume_get; cbn [Enqueue.pushRef].
      now rewrite (str_eqb_neq _ _ Hk).
Qed.


End TrackerCalls.

(** ** More on the channel table and the scheduler *)

Section TableFacts.
Context {R : Runtime}.
Import ActivityTracker.

Lemma shouldForwardImmediately_on_channelId (now : Z) (tr : t) (k : jsstring)
      (a : ChannelActivity) (message : Message) :
  channelId (fst (fst (fst (shouldForwardImmediately_on now tr k a message))))
  = channelId a.
Proof.
  unfold shouldForwardImmediately_on.
  destruct (isGorpMentioned _ _).
  - destruct (if nonEmpty _ then _ else _); reflexivity.
  - destruct (isFromGorp _ _); [reflexivity|].
    destruct (lessThan _ _ || lessThan _ _); [reflexivity|].
    unfold addPendingMessage.
    destruct (isEmptyMessage message); [reflexivity|].
    destruct (50 <? _)%nat; reflexivity.
Qed.

Lemma shouldForwardImmediately_keyed (now : Z) (message : Message) (tr : t) :
  Spec.recordsKeyed tr ->
  Spec.recordsKeyed (fst (fst (shouldForwardImmediately now message tr))).
Proof.
  intros Hinv k a.
  set (cid := channel_id (channel message)).
  destruct (shouldForwardImmediately_on now tr cid (Spec.activityOf cid tr) message)
    as [[[a' rl] b] task] eqn:Hon.
  destruct (shouldForwardImmediately_focus now message tr _ _ _ _ Hon)
    as (table & -> & Hget & Hother).
  fold cid in Hget, Hother.
  unfold getChannelActivity; cbn [fst channelActivities].
  destruct (str_eqb k cid) eqn:Ek.
  - apply str_eqb_eq in Ek; subst k; rewrite Hget; intros [= <-].
    pose proof (shouldForwardImmediately_on_channelId now tr cid
                  (Spec.activityOf cid tr) message) as Hid.
    rewrite Hon in Hid; cbn [fst] in Hid; rewrite Hid.
    unfold Spec.activityOf.
    destruct (getChannelActivity cid tr) eqn:E; [now apply Hinv | reflexivity].
  - rewrite Hother; [apply Hinv|].
    intros ->; now rewrite str_eqb_refl in Ek.
Qed.

Lemma sendBatchUpdate_resume_keyed (now : Z) (outcome : QueryOutcome)
      (task : FlushTask) (tr : t) :
  Spec.recordsKeyed tr ->
  Spec.recordsKeyed (fst (sendBatchUpdate_resume now outcome task tr)).
Proof.
  intros Hinv k a; unfold sendBatchUpdate_resume, getChannelActivity.
  destruct task as [ref summary imgs atts | ref summary imgs].
  - destruct (sendBatchUpdate_send _ _ _ _ _); apply Hinv.
  - destruct outcome; [|apply Hinv].
    cbn [fst channelActivities set_channelActivities].
    destruct (Map_get ref (channelActivities tr)) as [a0|] eqn:Hget; [|apply Hinv].
    destruct (str_eqb k ref) eqn:Ek.
    + apply str_eqb_eq in Ek; subst k.
      rewrite Map_get_replace_same by (unfold Map_has; now rewrite Hget).
      intros [= <-]; exact (Hinv ref a0 Hget).
    + rewrite Map_get_replace_other; [apply Hinv|].
      intros ->; now rewrite str_eqb_refl in Ek.
Qed.

(** Under distinct keys, what a tick leaves under a key comes from the
    step on the record that was there. *)
Lemma processBatchUpdates_entry (now : Z) (world : nat -> Turn) (tr : t)
      (k : jsstring) (a' : ChannelActivity) :
  NoDup (map fst (channelActivities tr)) ->
  getChannelActivity k (fst (processBatchUpdates now world tr)) = Some a' ->
  exists a turn rl0,
    getChannelActivity k tr = Some a
    /\ a' = snd (fst (processChannel now (client tr) (BATCH_INTERVAL tr)
                                     turn rl0 k a)).
Proof.
  intros Hnd Hget'.
  pose proof (processBatchUpdates_keys now world tr) as Hkeys.
  assert (Hk : In k (map fst (channelActivities tr))).
  { rewrite <- Hkeys; exact (Map_get_key _ _ _ Hget'). }
  destruct (Map_key_get _ _ Hk) as [a Hget].
  unfold processBatchUpdates, getChannelActivity in *.
  pose proof (processEntries_entry now (client tr) (BATCH_INTERVAL tr) world
                (channelActivities tr) k a Hnd Hget 0%nat (rateLimiter tr))
    as Hentry.
  cbv zeta in Hentry.
  destruct (processEntries _ _ _ _ _ _ _) as [[rl table] events];
    cbn [fst snd channelActivities set_channelActivities] in *.
  destruct Hentry as (turn & rl0 & Hstep & _).
  rewrite Hstep in Hget'; injection Hget' as <-.
  now exists a, turn, rl0.
Qed.

Lemma processBatchUpdates_keyed (now : Z) (world : nat -> Turn) (tr : t) :
  NoDup (map fst (channelActivities tr)) ->
  Spec.recordsKeyed tr ->
  Spec.recordsKeyed (fst (processBatchUpdates now world tr)).
Proof.
  intros Hnd Hinv k a' Hget'.
  destruct (processBatchUpdates_entry now world tr k a' Hnd Hget')
    as (a & turn & rl0 & Hget & ->).
  destruct (processChannel_queue now (client tr) (BATCH_INTERVAL tr) turn rl0 k a)
    as [-> | ->]; exact (Hinv k a Hget).
Qed.

Lemma shouldForwardImmediately_start_keyed (now : Z) (message : Message) (tr : t) :
  Spec.recordsKeyed tr ->
  Spec.recordsKeyed
    (fst (fst (fst (Enqueue.shouldForwardImmediately_start now message tr)))).
Proof.
  intros Hinv k a Hget.
  destruct (shouldForwardImmediately_start_record now message tr k a Hget)
    as [Hwhole | (_ & -> & ->)].
  - exact (shouldForwardImmediately_keyed now message tr Hinv k a Hwhole).
  - unfold Spec.activityOf.
    destruct (getChannelActivity (channel_id (channel message)) tr) eqn:E;
      [now apply Hinv | reflexivity].
Qed.

Lemma addPendingMessage_resume_keyed (task : Enqueue.PushTask) (tr : t) :
  Spec.recordsKeyed tr ->
  Spec.recordsKeyed (Enqueue.addPendingMessage_resume task tr).
Proof.
  intros Hinv k a; rewrite addPendingMessage_resume_get.
  destruct (str_eqb k (Enqueue.pushRef task)); [|apply Hinv].
  destruct (getChannelActivity k tr) as [a0|] eqn:E; cbn [option_map];
    [|discriminate].
  intros [= <-]; rewrite (proj1 (push_fields _ _)); now apply Hinv.
Qed.

Lemma processChannel_resume_keyed (clock : Z) (outcome : QueryOutcome)
      (ref : jsstring) (tr : t) :
  Spec.recordsKeyed tr ->
  Spec.recordsKeyed (Scheduler.processChannel_resume clock outcome ref tr).
Proof.
  intros Hinv k a; rewrite processChannel_resume_get.
  destruct (str_eqb k ref && isResolved outcome); [|apply Hinv].
  destruct (getChannelActivity k tr) as [a0|] eqn:E; cbn [option_map];
    [|discriminate].
  intros [= <-]; cbn [channelId set_pendingMessages]; now apply Hinv.
Qed.

Lemma processBatchUpdates_from_keyed (now clock : Z) (i : nat) (tr : t) :
  Spec.recordsKeyed tr ->
  Spec.recordsKeyed (fst (fst (Scheduler.processBatchUpdates_from now clock i tr))).
Proof.
  intros Hinv k a; unfold getChannelActivity.
  rewrite (proj1 (processBatchUpdates_from_frame now clock i tr)); apply Hinv.
Qed.

(** X10.  In every tracker the bot can reach, the channel table holds at
    most one record per channel id, and each record carries the id it is
    stored under. *)
Theorem reachable_table_is_keyed (tr : t) :
  Reachable tr ->
  NoDup (map fst (channelActivities tr))
  /\ forall k a, getChannelActivity k tr = Some a -> channelId a = k.
Proof.
  intros Hreach; split; [exact (proj1 (reachable_invariant tr Hreach))|].
  induction Hreach as [cl rl cfg | now message tr Hr IH
                       | now outcome task tr Hr IH | now world tr Hr IH
                       | now message tr Hr IH | task tr Hr IH
                       | now clock i tr Hr IH | clock outcome task tr Hr IH
                       | rl tr Hr IH].
  - intros k a; discriminate.
  - now apply shouldForwardImmediately_keyed.
  - now apply sendBatchUpdate_resume_keyed.
  - apply processBatchUpdates_keyed; [|exact IH].
    exact (proj1 (reachable_invariant tr Hr)).
  - now apply shouldForwardImmediately_start_keyed.
  - now apply addPendingMessage_resume_keyed.
  - now apply processBatchUpdates_from_keyed.
  - unfold Scheduler.processBatchUpdates_resume.
    now apply processBatchUpdates_from_keyed, processChannel_resume_keyed.
  - exact IH.
Qed.


End TableFacts.

(** ** Flushes that overlap *)

Section OverlappingFlushes.
Context {R : Runtime}.
Import ActivityTracker.

(** A mention without attachments, on a non-empty queue, with a slot free:
    the call returns with the query under way and the slot not yet taken. *)
Lemma mention_call_admitted (now : Z) (message : Message) (tr : t) :
  isGorpMentioned (client tr) message = true ->
  attachments message = [] ->
  let channelId := channel_id (channel message) in
  Spec.queueOf channelId tr <> [] ->
  snd (RateLimiter.canSendMessage now (rateLimiter tr)) = true ->
  exists table summary allImages,
    shouldForwardImmediately now message tr
    = (mk table (client tr) (fst (RateLimiter.canSendMessage now (rateLimiter tr)))
          (GORP_INTERACTION_TIMEOUT tr) (BATCH_INTERVAL tr),
       true, Some (AwaitQuery channelId summary allImages))
    /\ forall k, k <> channelId ->
                 Map_get k table = Map_get k (channelActivities tr).
Proof.
  intros Hm Hatt channelId Hq Hadm.
  pose proof (shouldForwardImmediately_on_mention now tr channelId
                (Spec.activityOf channelId tr) message Hm) as Hon.
  cbv zeta in Hon.
  fold (Spec.queueOf channelId tr) in Hon.
  destruct (Spec.queueOf channelId tr) as [|p q] eqn:Eq; [contradiction|].
  cbn [nonEmpty] in Hon.
  unfold sendBatchUpdate in Hon; rewrite Hatt in Hon; cbn [nonEmpty] in Hon.
  rewrite sendBatchUpdate_send_limiter, Hadm in Hon; cbn [fst snd] in Hon.
  destruct (shouldForwardImmediately_focus now message tr _ _ _ _ Hon)
    as (table & Hrun & _ & Hother).
  exists table; do 2 eexists; split; [exact Hrun | exact Hother].
Qed.

Lemma resume_resolved_records (now : Z) (response ref summary : jsstring)
      (allImages : list ImageData) (tr : t) :
  rateLimiter (fst (sendBatchUpdate_resume now (Resolved response)
                                           (AwaitQuery ref summary allImages) tr))
  = RateLimiter.recordMessageSent now (rateLimiter tr).
Proof. reflexivity. Qed.

(** X12.  The slot is checked before the query and taken after it.  When
    two mentions in two channels start their flushes one after the other
    while a slot is free, both flushes are admitted, and once both queries
    have resolved both sends are recorded: the limiter then holds two more
    timestamps than were in the window, one more than the cap when a single
    slot was free. *)
Theorem overlapping_flushes_take_one_slot_twice
        (now1 now2 s1 s2 : Z) (r1 r2 : jsstring) (m1 m2 : Message) (tr : t) :
  isGorpMentioned (client tr) m1 = true ->
  isGorpMentioned (client tr) m2 = true ->
  attachments m1 = [] -> attachments m2 = [] ->
  channel_id (channel m1) <> channel_id (channel m2) ->
  Spec.queueOf (channel_id (channel m1)) tr <> [] ->
  Spec.queueOf (channel_id (channel m2)) tr <> [] ->
  let inWindow :=
    RateLimiter.purge now2
      (RateLimiter.purge now1 (RateLimiter.messageTimestamps (rateLimiter tr))) in
  let cap := RateLimiter.maxMessagesPerHour (rateLimiter tr) in
  Z.of_nat (length (RateLimiter.purge now1
                      (RateLimiter.messageTimestamps (rateLimiter tr)))) < cap ->
  let run1 := shouldForwardImmediately now1 m1 tr in
  let run2 := shouldForwardImmediately now2 m2 (fst (fst run1)) in
  exists task1 task2,
    snd run1 = Some task1 /\ snd run2 = Some task2
    /\ snd (fst run1) = true /\ snd (fst run2) = true
    /\ let tr3 := fst (sendBatchUpdate_resume s1 (Resolved r1) task1 (fst (fst run2))) in
       let tr4 := fst (sendBatchUpdate_resume s2 (Resolved r2) task2 tr3) in
       RateLimiter.messageTimestamps (rateLimiter tr4) = inWindow ++ [s1; s2]
       /\ RateLimiter.maxMessagesPerHour (rateLimiter tr4) = cap
       /\ (Z.of_nat (length inWindow) + 1 = cap ->
           Z.of_nat (length (RateLimiter.messageTimestamps (rateLimiter tr4)))
           = cap + 1).
Proof.
  intros Hm1 Hm2 Ha1 Ha2 Hdiff Hq1 Hq2 inWindow cap Hfree run1 run2.
  assert (Hadm1 : snd (RateLimiter.canSendMessage now1 (rateLimiter tr)) = true).
  { unfold RateLimiter.canSendMessage; cbn [snd]; now apply Z.ltb_lt. }
  destruct (mention_call_admitted now1 m1 tr Hm1 Ha1 Hq1 Hadm1)
    as (table1 & sum1 & imgs1 & Hrun1 & Hother1).
  subst run2 run1; rewrite Hrun1; cbn [fst snd].
  set (tr1 := mk table1 (client tr)
                 (fst (RateLimiter.canSendMessage now1 (rateLimiter tr)))
                 (GORP_INTERACTION_TIMEOUT tr) (BATCH_INTERVAL tr)).
  assert (Hq2' : Spec.queueOf (channel_id (channel m2)) tr1 <> []).
  { unfold Spec.queueOf, Spec.activityOf, getChannelActivity in *.
    cbn [channelActivities tr1].
    rewrite Hother1; [exact Hq2 | congruence]. }
  assert (Hadm2 : snd (RateLimiter.canSendMessage now2 (rateLimiter tr1)) = true).
  { unfold tr1, RateLimiter.canSendMessage;
      cbn [snd fst rateLimiter RateLimiter.messageTimestamps
               RateLimiter.maxMessagesPerHour].
    apply Z.ltb_lt.
    pose proof (purge_length now2
                  (RateLimiter.purge now1
                     (RateLimiter.messageTimestamps (rateLimiter tr)))).
    fold cap; lia. }
  destruct (mention_call_admitted now2 m2 tr1 Hm2 Ha2 Hq2' Hadm2)
    as (table2 & sum2 & imgs2 & Hrun2 & _).
  rewrite Hrun2; cbn [fst snd].
  do 2 eexists; split; [reflexivity|]; split; [reflexivity|].
  split; [reflexivity|]; split; [reflexivity|].
  cbv zeta; rewrite !resume_resolved_records.
  unfold tr1, RateLimiter.canSendMessage, RateLimiter.recordMessageSent;
    cbn [rateLimiter fst RateLimiter.messageTimestamps
                     RateLimiter.maxMessagesPerHour].
  fold inWindow; rewrite <- app_assoc; cbn [app].
  split; [reflexivity|]; split; [reflexivity|].
  intros Hone; rewrite length_app; cbn [length]; lia.
Qed.

End OverlappingFlushes.

(** ** What counts as a mention *)

Section MentionFacts.
Context {R : Runtime}.
Import ActivityTracker.

Lemma startsWith_iff (s prefix : jsstring) :
  startsWith s prefix = true <-> exists post, s = prefix ++ post.
Proof.
  revert s; induction prefix as [|p prefix IH]; intros s.
  - split; [intros _; now exists s | intros _; now destruct s].
  - destruct s as [|c s]; cbn [startsWith];
      [split; [discriminate | intros [post E]; discriminate]|].
    rewrite andb_true_iff, N.eqb_eq, IH; split.
    + intros [-> [post ->]]; now exists post.
    + intros [post E]; injection E as -> ->; split; [reflexivity | now exists post].
Qed.

Lemma includes_iff (s needle : jsstring) :
  includes s needle = true <-> Words.occursIn needle s.
Proof.
  unfold Words.occursIn; induction s as [|c s IH]; cbn [includes].
  - rewrite orb_false_r, startsWith_iff; split.
    + intros [post E]; now exists [], post.
    + intros (pre & post & E).
      destruct pre; [now exists post|discriminate].
  - rewrite orb_true_iff, startsWith_iff, IH; split.
    + intros [[post E] | (pre & post & E)].
      * now exists [], post.
      * exists (c :: pre), post; now rewrite E.
    + intros (pre & post & E); destruct pre as [|d pre].
      * left; now exists post.
      * right; injection E as -> ->; now exists pre, post.
Qed.

Lemma ciMatch_iff (lower c : N) :
  ciMatch lower c = true <-> (c = lower \/ c = lower - 32)%N.
Proof. unfold ciMatch; now rewrite orb_true_iff, !N.eqb_eq. Qed.

Lemma gorpHere_iff (prev : bool) (s : jsstring) :
  gorpHere prev s = true
  <-> prev = false
      /\ exists w post, s = w ++ post /\ Words.isGorpWord w /\ Words.boundaryAfter post.
Proof.
  unfold gorpHere, Words.isGorpWord; split.
  - destruct s as [|g [|o [|r [|p rest]]]]; try discriminate.
    rewrite !andb_true_iff, negb_true_iff, !ciMatch_iff.
    intros [[[[[Hp Hg] Ho] Hr] Hpp] Hrest]; split; [exact Hp|].
    exists [g; o; r; p], rest; split; [reflexivity|]; split.
    + exists g, o, r, p; auto.
    + destruct rest; [exact I | now apply negb_true_iff].
  - intros (-> & w & post & -> & (g & o & r & p & -> & Hg & Ho & Hr & Hp) & Hpost).
    cbn [app negb andb].
    rewrite !andb_true_iff, !ciMatch_iff; repeat split; trivial.
    destruct post; [reflexivity | now apply negb_true_iff].
Qed.

Lemma boundaryBeforeFrom_cons (prev : bool) (c : N) (pre : jsstring) :
  Words.boundaryBeforeFrom prev (c :: pre)
  <-> Words.boundaryBeforeFrom (isWordChar c) pre.
Proof.
  unfold Words.boundaryBeforeFrom; cbn [rev].
  destruct (rev pre); cbn [app]; reflexivity.
Qed.

Lemma gorpFrom_iff (s : jsstring) :
  forall prev,
    gorpFrom prev s = true
    <-> exists pre w post,
          s = pre ++ w ++ post /\ Words.isGorpWord w
          /\ Words.boundaryBeforeFrom prev pre /\ Words.boundaryAfter post.
Proof.
  induction s as [|c s IH]; intros prev; cbn [gorpFrom].
  - split; [discriminate|].
    intros (pre & w & post & E & (g & o & r & p & -> & _) & _).
    destruct pre; discriminate.
  - rewrite orb_true_iff, gorpHere_iff, IH; split.
    + intros [(Hp & w & post & E & Hw & Hpost) | (pre & w & post & E & Hw & Hpre & Hpost)].
      * exists [], w, post; split; [exact E|]; split; [exact Hw|].
        split; [exact Hp | exact Hpost].
      * exists (c :: pre), w, post; rewrite E.
        split; [reflexivity|]; split; [exact Hw|]; split; [|exact Hpost].
        exact (proj2 (boundaryBeforeFrom_cons prev c pre) Hpre).
    + intros (pre & w & post & E & Hw & Hpre & Hpost).
      destruct pre as [|d pre].
      * left; split; [exact Hpre | now exists w, post].
      * right; injection E as -> ->.
        exists pre, w, post.
        split; [reflexivity|]; split; [exact Hw|]; split; [|exact Hpost].
        exact (proj1 (boundaryBeforeFrom_cons prev d pre) Hpre).
Qed.

(** X13.  A message is a mention for the tracker exactly when its
    lower-cased text contains the bot's mention token, in its plain or its
    nickname form, or contains gorp as a whole word: the four letters in any
    case, with no letter, digit or underscore right before or right
    after. *)
Theorem isGorpMentioned_iff (cl : Client) (message : Message) :
  let text := toLowerCase (content message) in
  isGorpMentioned cl message = true
  <-> Words.occursIn (lit "<@" ++ clientUserIdText cl ++ lit ">") text
      \/ Words.occursIn (lit "<@!" ++ clientUserIdText cl ++ lit ">") text
      \/ Words.hasGorpWord text.
Proof.
  cbv zeta; unfold isGorpMentioned, gorpPattern_test, Words.hasGorpWord,
              Words.boundaryBefore.
  rewrite <- !includes_iff, <- (gorpFrom_iff _ false).
  destruct (includes _ (lit "<@" ++ _)); cbn [orb]; [tauto|].
  destruct (includes _ (lit "<@!" ++ _)); cbn [orb]; [tauto|].
  split; [auto | intros [H|[H|H]]; [discriminate | discriminate | exact H]].
Qed.

End MentionFacts.

(** ** Images on their way downstream *)

Lemma processImageAttachments_with (lower : jsstring -> jsstring)
      (fetch : jsstring -> ImageUtils.FetchResult) (atts : list Attachment) :
  processImageAttachments (R := ImageUtils.runtime lower fetch) atts
  = map (ImageUtils.downloadAndEncodeImage lower fetch)
        (filter (isAllowedImage (R := ImageUtils.runtime lower fetch)) atts).
Proof. reflexivity. Qed.

Section ImageFacts.
Import ImageUtils LettaService.

Lemma allowed_is_truthy (ct : jsstring) :
  existsb (str_eqb ct) allowedImageTypes = true -> truthy ct = true.
Proof. destruct ct; [discriminate | reflexivity]. Qed.

(** X14.  [downloadAndEncodeImage] always answers with a descriptor that
    carries the attachment's name and URL, and either the downloaded data
    (then the network returned this body and the attachment is at most
    5 MB) or an error message, never both and never neither.  An attachment
    above 5 MB is answered without asking the network. *)
Theorem download_answers_data_or_error (lower : jsstring -> jsstring)
        (fetch : jsstring -> FetchResult) (attachment : Attachment) :
  let img := downloadAndEncodeImage lower fetch attachment in
  img_name img = att_name attachment
  /\ img_url img = att_url attachment
  /\ ((exists data,
          img_base64Data img = Some data /\ img_error img = None
          /\ fetch (att_url attachment) = Body data
          /\ img_size img = Some (att_size attachment)
          /\ att_size attachment <= maxSize
          /\ att_contentType attachment = Some (img_contentType img))
      \/ (exists message,
             img_error img = Some message
             /\ img_base64Data img = None /\ img_size img = None))
  /\ (maxSize < att_size attachment ->
      img_base64Data img = None
      /\ forall fetch', downloadAndEncodeImage lower fetch' attachment = img).
Proof.
  cbv zeta; unfold downloadAndEncodeImage.
  destruct (att_contentType attachment) as [ct|] eqn:Ect.
  2: { repeat split; try reflexivity; right; eexists; repeat split. }
  destruct (startsWith ct (lit "image/")); cbn [negb].
  2: { unfold failed; rewrite Ect.
       repeat split; try reflexivity; right; eexists; repeat split. }
  destruct (existsb (str_eqb (lower ct)) allowedImageTypes); cbn [negb].
  2: { unfold failed; rewrite Ect.
       repeat split; try reflexivity; right; eexists; repeat split. }
  destruct (Z.ltb_spec maxSize (att_size attachment)) as [Hbig | Hsmall].
  { unfold failed; rewrite Ect.
    repeat split; try reflexivity; right; eexists; repeat split. }
  split; [destruct (fetch _); reflexivity|].
  split; [destruct (fetch _); reflexivity|].
  split; [|intros Hbig; lia].
  destruct (fetch (att_url attachment)) as [thrown | status statusText | thrown | data];
    [right | right | right | left]; eexists; repeat split; trivial.
Qed.

Lemma filter_map_swap {A B : Type} (p : B -> bool) (f : A -> B) (l : list A) :
  filter p (map f l) = map f (filter (fun a => p (f a)) l).
Proof.
  induction l as [|a l IH]; cbn; trivial.
  destruct (p (f a)); cbn; now rewrite IH.
Qed.

Lemma filter_filter {A : Type} (p q : A -> bool) (l : list A) :
  filter p (filter q l) = filter (fun a => q a && p a) l.
Proof.
  induction l as [|a l IH]; cbn; trivial.
  destruct (q a); cbn; [destruct (p a); cbn|]; now rewrite IH.
Qed.

Lemma deliverable_iff_valid (lower : jsstring -> jsstring)
      (fetch : jsstring -> FetchResult) (attachment : Attachment) :
  isAllowedImage (R := runtime lower fetch) attachment
  && isValid (downloadAndEncodeImage lower fetch attachment)
  = deliverable lower fetch attachment.
Proof.
  unfold isAllowedImage, deliverable, downloadAndEncodeImage;
    cbn [toLowerCase runtime].
  destruct (att_contentType attachment) as [ct|] eqn:Ect; [|reflexivity].
  destruct (existsb (str_eqb (lower ct)) allowedImageTypes) eqn:Hallowed.
  2: { rewrite !andb_false_r; reflexivity. }
  rewrite (allowed_is_truthy _ Hallowed); cbn [andb negb].
  destruct (startsWith ct (lit "image/")); cbn [andb negb];
    [|unfold failed; rewrite Ect; reflexivity].
  rewrite Z.leb_antisym.
  destruct (maxSize <? att_size attachment); cbn [andb negb];
    [unfold failed; rewrite Ect; reflexivity|].
  destruct (fetch (att_url attachment)); try (unfold failed; rewrite Ect; reflexivity).
  unfold isValid; cbn [img_base64Data img_error truthyOpt negb].
  now rewrite andb_true_r.
Qed.

(** X15.  The images that go downstream with a message are exactly those of
    its deliverable attachments, in attachment order: nothing whose
    download failed, whose body is empty, which is above 5 MB or whose type
    is not an allowed image type is ever sent, and the [images] field is
    left out when no attachment is deliverable. *)
Theorem sent_images_are_the_deliverable_ones (lower : jsstring -> jsstring)
        (fetch : jsstring -> FetchResult) (text : jsstring)
        (atts : list Attachment) :
  let processed := processImageAttachments (R := runtime lower fetch) atts in
  let sent :=
    map (fun a => toSent (downloadAndEncodeImage lower fetch a))
        (filter (deliverable lower fetch) atts) in
  sent_images (buildRequest text (Some processed))
  = (if nonEmpty sent then Some sent else None)
  /\ Forall (fun s => exists a data,
                 In a atts /\ att_size a <= maxSize
                 /\ fetch (att_url a) = Body data
                 /\ s = mkSentImage (att_name a) (contentTypeText a) (Some data))
            sent.
Proof.
  cbv zeta; split.
  - rewrite processImageAttachments_with; unfold buildRequest; cbn [sent_images].
    assert (Hvalid :
              filter isValid
                     (map (downloadAndEncodeImage lower fetch)
                          (filter (isAllowedImage (R := runtime lower fetch)) atts))
              = map (downloadAndEncodeImage lower fetch)
                    (filter (deliverable lower fetch) atts)).
    { rewrite filter_map_swap, filter_filter; f_equal.
      apply filter_ext; intros a; apply deliverable_iff_valid. }
    rewrite Hvalid, map_map.
    destruct (map (downloadAndEncodeImage lower fetch)
                  (filter (isAllowedImage (R := runtime lower fetch)) atts))
      as [|img imgs] eqn:Eall; cbn [nonEmpty].
    + cbn in Hvalid; symmetry in Hvalid; apply map_eq_nil in Hvalid.
      now rewrite Hvalid.
    + destruct (filter (deliverable lower fetch) atts); reflexivity.
  - apply Forall_forall; intros s Hs.
    apply in_map_iff in Hs; destruct Hs as (a & <- & Ha).
    apply filter_In in Ha; destruct Ha as [Hin Hdel].
    unfold deliverable in Hdel.
    destruct (att_contentType a) as [ct|] eqn:Ect; [|discriminate].
    rewrite !andb_true_iff in Hdel.
    destruct Hdel as [[[Hstart Hallowed] Hsize] Hfetch].
    destruct (fetch (att_url a)) as [| | |data] eqn:Efetch; try discriminate.
    exists a, data; split; [exact Hin|]; split; [now apply Z.leb_le|].
    split; [exact Efetch|].
    unfold downloadAndEncodeImage, contentTypeText; rewrite Ect, Hstart, Hallowed.
    cbn [negb].
    apply Z.leb_le in Hsize.
    destruct (Z.ltb_spec maxSize (att_size a)); [lia|].
    now rewrite Efetch.
Qed.

(** X16.  The reply of [processQuery] is the text of the first message of
    the response that is an assistant message with a string or an array as
    content (the texts of an array's parts joined); messages before it that
    are of another type or have other content do not count, and without
    such a message the reply is the fixed text. *)
Theorem reply_is_first_assistant_text :
  (forall before m after,
      Forall (fun x => answers x = false) before ->
      answers m = true ->
      extractResponse (Some (before ++ m :: after))
      = match body m with
        | Text s => s
        | Parts parts => concat (map partText parts)
        | Other => []
        end)
  /\ (forall messages,
         Forall (fun x => answers x = false) messages ->
         extractResponse (Some messages) = lit "Response received from Letta")
  /\ extractResponse None = lit "Response received from Letta".
Proof.
  assert (Hskip : forall before rest,
             Forall (fun x => answers x = false) before ->
             firstAssistantText (before ++ rest) = firstAssistantText rest).
  { induction 1 as [|x before Hx _ IH]; cbn [app firstAssistantText]; trivial.
    unfold answers in Hx.
    destruct (str_eqb (messageType x) (lit "assistant_message")); cbn in Hx;
      [|exact IH].
    destruct (body x); try discriminate; exact IH. }
  split; [|split; [|reflexivity]].
  - intros before m after Hbefore Hm.
    unfold extractResponse; rewrite (Hskip _ _ Hbefore); cbn [firstAssistantText].
    unfold answers in Hm; apply andb_true_iff in Hm; destruct Hm as [-> Hbody].
    destruct (body m); [reflexivity | reflexivity | discriminate].
  - intros messages Hnone.
    unfold extractResponse.
    rewrite <- (app_nil_r messages), (Hskip _ _ Hnone); reflexivity.
Qed.

End ImageFacts.

(** ** The message handler *)

Section HandlerFacts.
Context {R : Runtime}.
Import Handler.

Lemma startsWith_refl (s : jsstring) : startsWith s s = true.
Proof. apply startsWith_iff; exists []; now rewrite app_nil_r. Qed.

Lemma plain_token_is_no_prefix_of_nick_token (id : jsstring) :
  Forall (fun c => isDigit c = true) id ->
  startsWith (lit "<@!" ++ id ++ lit ">") (lit "<@" ++ id ++ lit ">") = false.
Proof.
  intros Hid.
  change (lit "<@!") with [60; 64; 33]%N.
  change (lit "<@") with [60; 64]%N.
  change (lit ">") with [62]%N.
  cbn [app startsWith N.eqb Pos.eqb andb].
  destruct Hid as [|d id Hd _]; cbn [app startsWith]; [reflexivity|].
  unfold isDigit in Hd; apply andb_true_iff in Hd; destruct Hd as [Hlo _].
  apply N.leb_le in Hlo.
  destruct (N.eqb_spec d 33); [lia | reflexivity].
Qed.

(** The command of a message that is nothing but the nickname token. *)
Lemma commandText_of_bare_token (cl : Client) (message : Message) :
  (forall u, client_user cl = Some u ->
             Forall (fun c => isDigit c = true) (user_id u)) ->
  toLowerCase [] = [] ->
  isGorpMentioned cl message = true ->
  commandText cl message = [].
Proof.
  intros Hid Hlower Hm.
  unfold isGorpMentioned in Hm; unfold commandText.
  destruct (client_user cl) as [u|] eqn:Eu; [|discriminate].
  apply str_eqb_eq in Hm; rewrite Hm.
  rewrite (plain_token_is_no_prefix_of_nick_token _ (Hid u eq_refl)).
  rewrite startsWith_refl.
  unfold stripToken; rewrite skipn_all.
  exact Hlower.
Qed.

(** X17.  No message ever runs a command.  The handler parses a command
    only when the whole text is the bot's nickname token, and then the
    command is empty: with ids of decimal digits, every message is ignored,
    answered [yeh], handed to forwarding, or dropped for its empty command,
    the last exactly for a message of a user whose text is the bare
    token. *)
Theorem no_message_runs_a_command (cl : Client) (message : Message) :
  (forall u, client_user cl = Some u ->
             Forall (fun c => isDigit c = true) (user_id u)) ->
  toLowerCase [] = [] ->
  (forall c, route cl message <> Runs c)
  /\ (route cl message = NoCommand
      <-> bot (author message) = false
          /\ isThisTruePattern_test (toLowerCase (content message)) = false
          /\ isGorpMentioned cl message = true).
Proof.
  intros Hid Hlower; unfold route.
  destruct (bot (author message)).
  { split; [discriminate | split; [discriminate | intros [E _]; discriminate]]. }
  destruct (isThisTruePattern_test (toLowerCase (content message))).
  { split; [discriminate | split; [discriminate | intros (_ & E & _); discriminate]]. }
  destruct (isGorpMentioned cl message) eqn:Hm; cbn [negb].
  - rewrite (commandText_of_bare_token cl message Hid Hlower Hm); cbn [truthy negb].
    split; [discriminate | split; [auto | reflexivity]].
  - split; [discriminate | split; [discriminate | intros (_ & _ & E); discriminate]].
Qed.

Lemma trimStart_suffix (s : jsstring) : exists p, s = p ++ trimStart s.
Proof.
  induction s as [|c s [p IH]]; cbn [trimStart]; [now exists []|].
  destruct (isWhiteSpace c); [|now exists []].
  exists (c :: p); cbn; now rewrite <- IH.
Qed.

Lemma matchWord_suffix (word s rest : jsstring) :
  matchWord word s = Some rest -> exists p, s = p ++ rest.
Proof.
  revert s; induction word as [|l word IH]; intros s; cbn [matchWord].
  - intros [= ->]; now exists [].
  - destruct s as [|c s]; [discriminate|].
    destruct (ciMatch l c); [|discriminate].
    intros Hm; destruct (IH s Hm) as [p ->]; now exists (c :: p).
Qed.

Lemma spaces1_suffix (s rest : jsstring) :
  spaces1 s = Some rest -> exists p, s = p ++ rest.
Proof.
  unfold spaces1; destruct s as [|c s]; [discriminate|].
  destruct (isWhiteSpace c); [|discriminate].
  intros [= <-]; destruct (trimStart_suffix s) as [p E].
  exists (c :: p); cbn; now rewrite <- E.
Qed.

Lemma gorpPrefix_suffix (s rest : jsstring) :
  gorpPrefix s = Some rest -> exists p, s = p ++ rest.
Proof.
  assert (Hgo : forall t, andThen (matchWord (lit "gorp") t) spaces1 = Some rest ->
                          exists p, t = p ++ rest).
  { intros t; unfold andThen.
    destruct (matchWord (lit "gorp") t) as [t'|] eqn:E; [|discriminate].
    intros Hs; destruct (matchWord_suffix _ _ _ E) as [p ->].
    destruct (spaces1_suffix _ _ Hs) as [q ->].
    exists (p ++ q); now rewrite app_assoc. }
  unfold gorpPrefix; destruct s as [|c s]; [apply Hgo|].
  destruct (N.eqb_spec c 64) as [->|Hne].
  - intros Hs; destruct (Hgo s Hs) as [p ->]; now exists (64%N :: p).
  - replace (match c with 64%N => andThen (matchWord (lit "gorp") s) spaces1
                     | _ => andThen (matchWord (lit "gorp") (c :: s)) spaces1 end)
      with (andThen (matchWord (lit "gorp") (c :: s)) spaces1); [apply Hgo|].
    destruct c as [|p]; [reflexivity|].
    do 7 (destruct p as [p|p|]; try reflexivity); congruence.
Qed.

(** X18.  The optional [@gorp] in front of the pattern changes nothing: a
    text is answered [yeh] exactly when it contains, somewhere, the words
    is, this, true in any case, separated by white space. *)
Theorem yeh_pattern_ignores_its_prefix (s : jsstring) :
  isThisTruePattern_test s = true
  <-> exists pre post, s = pre ++ post /\ isThisTrueHere post = true.
Proof.
  split.
  - induction s as [|c s IH]; cbn [isThisTruePattern_test];
      rewrite orb_true_iff; unfold patternHere; rewrite orb_true_iff.
    + intros [[Hg | Hh] | Hf]; [| now exists [], [] | discriminate].
      destruct (gorpPrefix []) as [rest|] eqn:E; [|discriminate].
      destruct (gorpPrefix_suffix _ _ E) as [p Ep]; now exists p, rest.
    + intros [[Hg | Hh] | Hrest].
      * destruct (gorpPrefix (c :: s)) as [rest|] eqn:E; [|discriminate].
        destruct (gorpPrefix_suffix _ _ E) as [p Ep]; now exists p, rest.
      * now exists [], (c :: s).
      * destruct (IH Hrest) as (pre & post & -> & Hpost).
        now exists (c :: pre), post.
  - intros (pre & post & -> & Hpost).
    induction pre as [|c pre IH]; cbn [app].
    + destruct post; cbn [isThisTruePattern_test]; unfold patternHere;
        rewrite Hpost, orb_true_r; reflexivity.
    + cbn [isThisTruePattern_test]; rewrite IH; apply orb_true_r.
Qed.

End HandlerFacts.

Section HandlerCalls.
Context {R : Runtime}.

Lemma blank_is_not_the_bare_token (cl : Client) (message : Message) :
  Spec.isBlank message -> Handler.isGorpMentioned cl message = false.
Proof.
  intros [Hws _]; unfold Handler.isGorpMentioned.
  destruct (client_user cl) as [u|]; [|reflexivity].
  apply str_eqb_neq; intros E; rewrite E in Hws.
  change (lit "<@!") with [60; 64; 33]%N in Hws; cbn [app] in Hws.
  inversion Hws as [|c s Hc _]; subst; discriminate Hc.
Qed.

Lemma route_forwards_not_bot (cl : Client) (message : Message) :
  Handler.route cl message = Handler.Forwards -> bot (author message) = false.
Proof.
  unfold Handler.route; destruct (bot (author message)); [discriminate | reflexivity].
Qed.

(** X19.  The handler never shows the tracker a message of the bot itself:
    such a message is dropped at the first line, since its author is a bot.
    So, through the handler, [lastGorpMessage] of every channel stays what
    it was, and the interaction window is opened by mentions alone. *)
Theorem handler_never_stamps_own_message (flags : Handler.Flags) (now : Z)
        (message : Message) (tr : ActivityTracker.t) :
  (forall u, client_user (ActivityTracker.client tr) = Some u ->
             user_id (author message) = user_id u ->
             bot (author message) = true) ->
  let '(tr', _, _) := Handler.onMessageCreate flags now message tr in
  forall k, ActivityTracker.lastGorpMessage (Spec.activityOf k tr')
            = ActivityTracker.lastGorpMessage (Spec.activityOf k tr).
Proof.
  intros Hbot; unfold Handler.onMessageCreate.
  destruct (Handler.route (ActivityTracker.client tr) message) as [| | | |c] eqn:Hroute;
    try (intros k; reflexivity).
  2:{ destruct c; intros k; reflexivity. }
  apply route_forwards_not_bot in Hroute.
  unfold Handler.handleMessageForwarding.
  destruct (Handler.enabled flags && Handler.autoForward flags);
    [|intros k; reflexivity].
  destruct (Handler.smartForward flags); [|intros k; reflexivity].
  set (channelId := channel_id (channel message)).
  destruct (ActivityTracker.shouldForwardImmediately_on
              now tr channelId (Spec.activityOf channelId tr) message)
    as [[[a' rl] b] task] eqn:Hon.
  destruct (shouldForwardImmediately_focus now message tr _ _ _ _ Hon)
    as (table & -> & Hget & Hother).
  change (Map_get channelId table = Some a') in Hget.
  intros k; unfold Spec.activityOf, ActivityTracker.getChannelActivity;
    cbn [ActivityTracker.channelActivities].
  destruct (list_eq_dec N.eq_dec k channelId) as [->|Hk];
    [|now rewrite (Hother k Hk)].
  rewrite Hget.
  fold (ActivityTracker.getChannelActivity channelId tr).
  fold (Spec.activityOf channelId tr).
  unfold ActivityTracker.shouldForwardImmediately_on in Hon.
  destruct (ActivityTracker.isGorpMentioned (ActivityTracker.client tr) message).
  - destruct (if nonEmpty _ then _ else _) as [rl0 task0].
    injection Hon as <- _ _ _; reflexivity.
  - destruct (ActivityTracker.isFromGorp (ActivityTracker.client tr) message) eqn:Hg.
    + apply isFromGorp_iff in Hg; destruct Hg as (u & Eu & Eid).
      rewrite (Hbot u Eu Eid) in Hroute; discriminate.
    + destruct (ActivityTracker.lessThan _ _ || ActivityTracker.lessThan _ _);
        injection Hon as <- _ _ _; [reflexivity|].
      unfold ActivityTracker.addPendingMessage.
      destruct (ActivityTracker.isEmptyMessage message);
        [|destruct (50 <? _)%nat]; reflexivity.
Qed.

(** X20.  A message with nothing but white space and no attachments is
    dropped: [sendMessageToLetta] returns at once, leaving the limiter
    alone and calling nothing; and unless the message mentions the bot, the
    handler starts no flush and leaves the limiter and every queue as they
    were. *)
Theorem blank_message_is_dropped (flags : Handler.Flags) (now sendNow limit : Z)
        (fetched : option (list Message)) (message : Message)
        (tr : ActivityTracker.t) (rl : RateLimiter.t) :
  Spec.isBlank message ->
  Handler.sendMessageToLetta sendNow limit fetched message rl = (rl, None)
  /\ (ActivityTracker.isGorpMentioned (ActivityTracker.client tr) message = false ->
      let '(tr', _, task) := Handler.onMessageCreate flags now message tr in
      task = None
      /\ ActivityTracker.rateLimiter tr' = ActivityTracker.rateLimiter tr
      /\ forall k, Spec.queueOf k tr' = Spec.queueOf k tr).
Proof.
  intros Hblank.
  pose proof (isBlank_isEmptyMessage message Hblank) as Hempty.
  split.
  { unfold Handler.sendMessageToLetta; now rewrite Hempty. }
  intros Hm; unfold Handler.onMessageCreate, Handler.route.
  rewrite (blank_is_not_the_bare_token _ _ Hblank); cbn [negb].
  destruct (bot (author message)); [now repeat split|].
  destruct (Handler.isThisTruePattern_test _); [now repeat split|].
  unfold Handler.handleMessageForwarding.
  destruct (Handler.enabled flags && Handler.autoForward flags); [|now repeat split].
  destruct (Handler.smartForward flags); [|now repeat split].
  set (channelId := channel_id (channel message)).
  destruct (ActivityTracker.shouldForwardImmediately_on
              now tr channelId (Spec.activityOf channelId tr) message)
    as [[[a' rl'] b] task] eqn:Hon.
  destruct (shouldForwardImmediately_focus now message tr _ _ _ _ Hon)
    as (table & -> & Hget & Hother).
  cbn [ActivityTracker.rateLimiter].
  assert (Hq : task = None /\ rl' = ActivityTracker.rateLimiter tr
               /\ ActivityTracker.pendingMessages a' = Spec.queueOf channelId tr).
  { unfold ActivityTracker.shouldForwardImmediately_on in Hon; rewrite Hm in Hon.
    destruct (ActivityTracker.isFromGorp (ActivityTracker.client tr) message).
    - injection Hon as <- <- _ <-; now repeat split.
    - destruct (ActivityTracker.lessThan _ _ || ActivityTracker.lessThan _ _);
        injection Hon as <- <- _ <-; [now repeat split|].
      unfold ActivityTracker.addPendingMessage; rewrite Hempty; now repeat split. }
  destruct Hq as (-> & -> & Hq).
  split; [reflexivity|]; split; [reflexivity|].
  intros k; destruct (list_eq_dec N.eq_dec k channelId) as [->|Hk].
  - rewrite <- Hq; apply queueOf_stored; exact Hget.
  - unfold Spec.queueOf, Spec.activityOf, ActivityTracker.getChannelActivity;
      cbn [ActivityTracker.channelActivities]; now rewrite (Hother k Hk).
Qed.

End HandlerCalls.

Section HistoryFacts.

Lemma firstn_prefix {A : Type} (n : nat) (l : list A) :
  exists rest, l = firstn n l ++ rest.
Proof. exists (skipn n l); symmetry; apply firstn_skipn. Qed.

(** X21.  The history sent along with a message, for a limit that is not
    negative: at most [limit] messages, none of them the message itself,
    all of them fetched ones; in the order of the fetch reversed (oldest
    first), they are the first of the other messages fetched; and when the
    fetch gave at most [limit + 1] messages, the message itself among them,
    every other one is in the history. *)
Theorem history_is_the_recent_others (limit : Z) (fetched : list Message)
        (message : Message) :
  0 <= limit ->
  let others :=
    filter (fun msg => negb (str_eqb (message_id msg) (message_id message))) fetched in
  let recent := Handler.recentMessages limit fetched message in
  (length recent <= Z.to_nat limit)%nat
  /\ (forall m, In m recent -> In m fetched /\ message_id m <> message_id message)
  /\ (exists older, others = rev recent ++ older)
  /\ ((length fetched <= Z.to_nat limit + 1)%nat ->
      (exists m, In m fetched /\ message_id m = message_id message) ->
      recent = rev others).
Proof.
  intros Hlimit others recent.
  assert (Erecent : recent = rev (firstn (Z.to_nat limit) others)).
  { unfold recent, Handler.recentMessages, Handler.sliceTo.
    destruct (Z.ltb_spec limit 0); [lia | reflexivity]. }
  rewrite Erecent; split; [|split; [|split]].
  - rewrite length_rev, length_firstn; lia.
  - intros m Hin; apply in_rev in Hin.
    destruct (firstn_prefix (Z.to_nat limit) others) as [rest E].
    assert (Hin' : In m others) by (rewrite E; apply in_or_app; now left).
    apply filter_In in Hin'; destruct Hin' as [Hf Hne]; split; [exact Hf|].
    intros Eid; rewrite Eid, str_eqb_refl in Hne; discriminate.
  - rewrite rev_involutive; apply firstn_prefix.
  - intros Hlen (m & Hin & Eid).
    assert (Hshort : (length others < length fetched)%nat).
    { unfold others; clear -Hin Eid.
      induction fetched as [|x l IH]; [destruct Hin|].
      cbn [filter length]; destruct Hin as [->|Hin].
      - rewrite Eid, str_eqb_refl; cbn [negb].
        pose proof (filter_length_le
                      (fun msg => negb (str_eqb (message_id msg) (message_id message))) l).
        lia.
      - specialize (IH Hin).
        destruct (negb _); cbn [length]; lia. }
    rewrite firstn_all2 by lia; reflexivity.
Qed.

End HistoryFacts.

(** ** The further properties on the sample data *)

Section RateLimiterSamples.
Import RateLimiter.

Lemma serial_use_keeps_quota_witness :
  Z.of_nat (length (Spec.withinTrailingHour
                      5000 (snd (Usage.run 2 Samples.threeAttempts)))) <= 2.
Proof.
  apply (serial_use_keeps_quota 2 Samples.threeAttempts 5000).
  - lia.
  - vm_compute; repeat constructor; discriminate.
  - vm_compute; repeat constructor; discriminate.
Defined.

Lemma reads_leave_later_answers_witness :
  canSendMessage 3602000 (fst (getStatus 5000 Samples.spent))
  = canSendMessage 3602000 Samples.spent.
Proof.
  exact (proj1 (proj2 (reads_leave_later_answers 5000 3602000 5000 Samples.spent
                         ltac:(lia)))).
Defined.

Lemma countdown_between_0_and_60_witness :
  0 <= snd (getTimeUntilReset 5000 5000 Samples.spent) <= 60.
Proof.
  apply (countdown_between_0_and_60 5000 5000 Samples.spent).
  - vm_compute; repeat constructor; discriminate.
  - lia.
Defined.

Lemma resetTime_is_next_admission_witness :
  snd (canSendMessage 3601000 Samples.spent)
  = (resetTime (snd (getStatus 5000 Samples.spent)) <=? 3601000).
Proof.
  apply (resetTime_is_next_admission 5000 3601000 Samples.spent).
  - vm_compute; repeat constructor; discriminate.
  - vm_compute; reflexivity.
  - vm_compute; reflexivity.
  - lia.
Defined.

End RateLimiterSamples.

Section TrackerSamples.
Import ActivityTracker.

Lemma returned_flag_is_activity_witness :
  let '(tr1, result, _, pushTask) :=
    Enqueue.shouldForwardImmediately_start (R := Scenario.asciiRuntime) 1200000
                                           Scenario.mention (Scenario.afterHello 3) in
  (exists a', getChannelActivity (lit "100") tr1 = Some a' /\ isActive a' = result)
  /\ pushTask = None.
Proof.
  pose proof (@returned_flag_is_activity Scenario.asciiRuntime 1200000
                Scenario.mention (Scenario.afterHello 3)
                ltac:(lia) ltac:(vm_compute; reflexivity)) as Hc.
  cbv zeta in Hc.
  change (channel_id (channel Scenario.mention)) with (lit "100") in Hc.
  destruct (Enqueue.shouldForwardImmediately_start
              1200000 Scenario.mention (Scenario.afterHello 3))
    as [[[tr1 result] task] pushTask].
  destruct Hc as ((a' & Hget & Hactive & _) & _ & Hnone).
  split; [exists a'; split; [exact Hget | exact Hactive]|].
  apply Hnone; reflexivity.
Defined.


Lemma reachable_table_is_keyed_witness :
  NoDup (map fst (channelActivities Samples.twoQueues))
  /\ option_map channelId (getChannelActivity (lit "200") Samples.twoQueues)
     = Some (lit "200").
Proof.
  destruct (@reachable_table_is_keyed Scenario.asciiRuntime Samples.twoQueues)
    as [Hnodup Hkeyed];
    [|split; [exact Hnodup|];
      destruct (getChannelActivity (lit "200") Samples.twoQueues) as [a|] eqn:Ea;
      [cbn [option_map]; now rewrite (Hkeyed _ _ Ea) | vm_compute in Ea; discriminate Ea]].
  unfold Samples.twoQueues, Scenario.afterHello, Scenario.start.
  apply reach_message, reach_message, reach_create.
Defined.


Lemma overlapping_flushes_take_one_slot_twice_witness :
  let run1 :=
    shouldForwardImmediately (R := Scenario.asciiRuntime) 1200000
                             Scenario.mention Samples.twoQueues in
  let run2 :=
    shouldForwardImmediately (R := Scenario.asciiRuntime) 1200100
                             Samples.mentionRandom (fst (fst run1)) in
  exists task1 task2,
    snd run1 = Some task1 /\ snd run2 = Some task2
    /\ let tr3 := fst (sendBatchUpdate_resume (R := Scenario.asciiRuntime) 1200500
                         (Resolved (lit "ok")) task1 (fst (fst run2))) in
       let tr4 := fst (sendBatchUpdate_resume (R := Scenario.asciiRuntime) 1200600
                         (Resolved (lit "ok")) task2 tr3) in
       RateLimiter.maxMessagesPerHour (rateLimiter tr4) = 1
       /\ RateLimiter.messageTimestamps (rateLimiter tr4) = [1200500; 1200600].
Proof.
  intros run1 run2.
  destruct (@overlapping_flushes_take_one_slot_twice Scenario.asciiRuntime
              1200000 1200100 1200500 1200600 (lit "ok") (lit "ok")
              Scenario.mention Samples.mentionRandom Samples.twoQueues
              ltac:(vm_compute; reflexivity) ltac:(vm_compute; reflexivity)
              ltac:(reflexivity) ltac:(reflexivity)
              ltac:(vm_compute; discriminate)
              ltac:(vm_compute; discriminate) ltac:(vm_compute; discriminate)
              ltac:(vm_compute; reflexivity))
    as (task1 & task2 & H1 & H2 & _ & _ & Hts & Hcap & _).
  exists task1, task2.
  split; [exact H1|]; split; [exact H2|].
  split; [exact Hcap | exact Hts].
Defined.

End TrackerSamples.

Section HandlerSamples.

Lemma no_message_runs_a_command_witness :
  (forall c, Handler.route (R := Scenario.asciiRuntime) Scenario.discord
                           Samples.tokenPing <> Handler.Runs c)
  /\ Handler.route (R := Scenario.asciiRuntime) Scenario.discord Samples.bareToken
     = Handler.NoCommand.
Proof.
  assert (Hid : forall u, client_user Scenario.discord = Some u ->
                          Forall (fun c => Handler.isDigit c = true) (user_id u)).
  { intros u [= <-]; repeat constructor. }
  split.
  - exact (proj1 (@no_message_runs_a_command Scenario.asciiRuntime Scenario.discord
                    Samples.tokenPing Hid eq_refl)).
  - apply (proj2 (@no_message_runs_a_command Scenario.asciiRuntime Scenario.discord
                    Samples.bareToken Hid eq_refl)).
    split; [reflexivity|]; split; vm_compute; reflexivity.
Defined.

Lemma handler_never_stamps_own_message_witness :
  let '(tr', _, _) :=
    Handler.onMessageCreate (R := Scenario.asciiRuntime) Samples.flags 1200000
                            Scenario.ownReply (Scenario.afterHello 3) in
  ActivityTracker.lastGorpMessage (Spec.activityOf (lit "100") tr')
  = ActivityTracker.lastGorpMessage
      (Spec.activityOf (lit "100") (Scenario.afterHello 3)).
Proof.
  pose proof (@handler_never_stamps_own_message Scenario.asciiRuntime Samples.flags
                1200000 Scenario.ownReply (Scenario.afterHello 3)
                ltac:(intros u _ _; reflexivity)) as Hc.
  destruct (Handler.onMessageCreate Samples.flags 1200000 Scenario.ownReply
                                    (Scenario.afterHello 3)) as [[tr' b] task].
  exact (Hc (lit "100")).
Defined.

Lemma blank_message_is_dropped_witness :
  Handler.sendMessageToLetta (R := Scenario.asciiRuntime) 2000100 2
                             (Some Samples.fetched) Scenario.blank Samples.spent
  = (Samples.spent, None).
Proof.
  apply (@blank_message_is_dropped Scenario.asciiRuntime Samples.flags 2000000
           2000100 2 (Some Samples.fetched) Scenario.blank (Scenario.afterHello 3)
           Samples.spent).
  split; [repeat constructor | reflexivity].
Defined.

Lemma history_is_the_recent_others_witness :
  Handler.recentMessages 2 Samples.fetched Samples.tokenPing
  = [Scenario.hello; Scenario.mention].
Proof.
  destruct (history_is_the_recent_others 2 Samples.fetched Samples.tokenPing
              ltac:(lia)) as (_ & _ & _ & Hall).
  rewrite Hall; [reflexivity | vm_compute; lia |].
  exists Samples.tokenPing; split; [now left | reflexivity].
Defined.

End HandlerSamples.

(** ** The digest of a flush started by a mention *)

Section MentionDigest.
Context {R : Runtime}.
Import ActivityTracker.

Lemma formatTimeRange_now (now : Z) : formatTimeRange now now = lit "few seconds".
Proof. unfold formatTimeRange; now rewrite Z.sub_diag. Qed.

(** X22.  The digest of a flush started by a mention always reads
    [over the past few seconds], however long the messages have been
    queued: the time range is taken from [lastActivity], which the call has
    just set to the current time.  The count and the queued lines are those
    of the queue as the mention found it. *)
Theorem mention_digest_says_few_seconds (now : Z) (message : Message) (tr : t)
        (task : FlushTask) :
  let channelId := channel_id (channel message) in
  snd (shouldForwardImmediately now message tr) = Some task ->
  exists mentionPart,
    Spec.taskSummary task
    = lit "[Discord Batch Update] "
        ++ numberToString (Z.of_nat (length (Spec.queueOf channelId tr)))
        ++ lit " messages in "
        ++ cachedChannelName (client tr)
                             (ActivityTracker.channelId (Spec.activityOf channelId tr))
        ++ lit " over the past few seconds:" ++ nl ++ nl
        ++ join nl (map text (Spec.queueOf channelId tr))
        ++ mentionPart.
Proof.
  intros channelId Htask.
  destruct (shouldForwardImmediately_on now tr channelId
                                        (Spec.activityOf channelId tr) message)
    as [[[a' rl] b] task'] eqn:Hon.
  destruct (shouldForwardImmediately_focus now message tr _ _ _ _ Hon)
    as (table & E & _).
  rewrite E in Htask; cbn [snd] in Htask; subst task'.
  unfold shouldForwardImmediately_on in Hon.
  destruct (isGorpMentioned (client tr) message).
  2:{ destruct (isFromGorp (client tr) message);
      [|destruct (lessThan _ _ || lessThan _ _)]; discriminate Hon. }
  destruct (nonEmpty (pendingMessages (set_lastActivity now _)));
    [|discriminate Hon].
  assert (Hhead : forall tail,
             (batchHeader now (client tr)
                          (set_lastActivity now (Spec.activityOf channelId tr))
              ++ tail)
             = lit "[Discord Batch Update] "
                 ++ numberToString (Z.of_nat (length (Spec.queueOf channelId tr)))
                 ++ lit " messages in "
                 ++ cachedChannelName
                      (client tr)
                      (ActivityTracker.channelId (Spec.activityOf channelId tr))
                 ++ lit " over the past few seconds:" ++ nl ++ nl
                 ++ join nl (map text (Spec.queueOf channelId tr))
                 ++ tail).
  { intros tail; unfold batchHeader.
    cbn [lastActivity pendingMessages ActivityTracker.channelId set_lastActivity].
    rewrite formatTimeRange_now; unfold Spec.queueOf.
    now rewrite <- !app_assoc. }
  unfold sendBatchUpdate in Hon.
  destruct (nonEmpty (attachments message)).
  - injection Hon as _ _ _ <-; cbn [Spec.taskSummary].
    eexists; apply Hhead.
  - unfold sendBatchUpdate_send in Hon.
    destruct (RateLimiter.canSendMessage now (rateLimiter tr)) as [rl1 admitted].
    destruct admitted; cbn [negb] in Hon.
    + injection Hon as _ _ _ <-; cbn [Spec.taskSummary].
      eexists; apply Hhead.
    + destruct (RateLimiter.getStatus now rl1) as [rl2 st].
      destruct (RateLimiter.getTimeUntilReset now now rl2) as [rl3 m].
      discriminate Hon.
Qed.

End MentionDigest.

Section MentionDigestSample.
Import ActivityTracker.

Lemma mention_digest_says_few_seconds_witness :
  exists task mentionPart,
    snd (shouldForwardImmediately (R := Scenario.asciiRuntime) 9000000
                                  Scenario.mention (Scenario.afterHello 3))
    = Some task
    /\ Spec.taskSummary task
       = lit "[Discord Batch Update] 1 messages in #general over the past few seconds:"
           ++ mentionPart.
Proof.
  destruct (snd (shouldForwardImmediately (R := Scenario.asciiRuntime) 9000000
                   Scenario.mention (Scenario.afterHello 3)))
    as [task|] eqn:Etask; [|vm_compute in Etask; discriminate Etask].
  destruct (@mention_digest_says_few_seconds Scenario.asciiRuntime 9000000
              Scenario.mention (Scenario.afterHello 3) task Etask)
    as [mentionPart Hsum].
  exists task; eexists; split; [reflexivity|].
  rewrite Hsum; vm_compute; reflexivity.
Defined.

End MentionDigestSample.

(** ** A message that arrives while a scheduled flush is under way *)

Section FlushRace.
Context {R : Runtime}.
Import ActivityTracker.

(** An iteration that runs with nothing in between is its two halves, one
    after the other. *)
Lemma processChannel_in_two_halves (now : Z) (cl : Client) (interval : Z)
      (turn : Turn) (rl : RateLimiter.t) (k : jsstring) (a : ChannelActivity) :
  match Scheduler.processChannel_start now cl interval (startedAt turn) rl a with
  | (rl1, None) =>
      exists events,
        processChannel now cl interval turn rl k a = (rl1, a, events)
        /\ (events = [] \/ events = [RateLimited k])
  | (rl1, Some (summary, allImages)) =>
      processChannel now cl interval turn rl k a
      = match outcome turn with
        | Resolved r =>
            (RateLimiter.recordMessageSent (settledAt turn) rl1,
             set_pendingMessages [] a,
             [Query k summary allImages (Resolved r)])
        | Rejected e => (rl1, a, [Query k summary allImages (Rejected e)])
        end
  end.
Proof.
  unfold processChannel, Scheduler.processChannel_start.
  destruct (negb (nonEmpty (pendingMessages a))); [eexists; split; eauto|].
  destruct (isActive a); [eexists; split; eauto|].
  destruct (interval <? now - lastActivity a); [eexists; split; eauto|].
  destruct (createBatchSummary (startedAt turn) cl a) as [summary|];
    [|eexists; split; eauto].
  destruct (truthy summary); [|eexists; split; eauto].
  destruct (RateLimiter.canSendMessage (startedAt turn) rl) as [rl1 admitted].
  destruct admitted; cbn [negb].
  - destruct (outcome turn); reflexivity.
  - destruct (RateLimiter.getStatus (startedAt turn) rl1) as [rl2 st].
    destruct (RateLimiter.getTimeUntilReset (startedAt turn) (startedAt turn) rl2)
      as [rl3 m].
    eexists; split; eauto.
Qed.

Lemma sliceLast_keeps_last {A : Type} (n : nat) (l : list A) (x : A) :
  (0 < n)%nat -> In x (sliceLast n (l ++ [x])).
Proof.
  intros Hn; unfold sliceLast.
  rewrite length_app; cbn [length].
  rewrite skipn_app.
  apply in_or_app; right.
  replace (length l + 1 - n - length l)%nat with 0%nat by lia.
  now left.
Qed.

Lemma queued_message_is_pushed (now : Z) (message : Message) (tr : t) :
  let channelId := channel_id (channel message) in
  snd (fst (shouldForwardImmediately now message tr)) = false ->
  isEmptyMessage message = false ->
  Spec.queueOf channelId (fst (fst (shouldForwardImmediately now message tr)))
  = sliceLast 50 (Spec.queueOf channelId tr ++ [pendingOf message]).
Proof.
  intros channelId Hres Hne.
  destruct (shouldForwardImmediately_on now tr channelId
                                        (Spec.activityOf channelId tr) message)
    as [[[a' rl] b] task] eqn:Hon.
  destruct (shouldForwardImmediately_focus now message tr _ _ _ _ Hon)
    as (table & E & Hget & _).
  rewrite E in Hres |- *; cbn [fst snd] in Hres |- *; subst b.
  rewrite (queueOf_stored channelId _ a') by exact Hget.
  unfold shouldForwardImmediately_on in Hon.
  destruct (isGorpMentioned (client tr) message).
  - destruct (if nonEmpty _ then _ else _) as [rl0 task0]; discriminate Hon.
  - destruct (isFromGorp (client tr) message); [discriminate Hon|].
    destruct (lessThan _ _ || lessThan _ _); [discriminate Hon|].
    injection Hon as <- _ _.
    now rewrite addPendingMessage_pushes.
Qed.

(** X23.  A message queued while a scheduled flush of its channel awaits
    the downstream is lost: the digest and the images of the call were
    fixed before it arrived, and when the call resolves the queue is
    emptied, the message with it. *)
Theorem message_queued_during_flush_is_lost
        (now t0 t1 t2 : Z) (response : jsstring) (k : jsstring)
        (a : ChannelActivity) (message : Message) (tr : t)
        (rl1 : RateLimiter.t) (summary : jsstring) (allImages : list ImageData) :
  getChannelActivity k tr = Some a ->
  Scheduler.processChannel_start now (client tr) (BATCH_INTERVAL tr) t0
                                 (rateLimiter tr) a
  = (rl1, Some (summary, allImages)) ->
  channel_id (channel message) = k ->
  isEmptyMessage message = false ->
  snd (fst (shouldForwardImmediately t1 message (set_rateLimiter rl1 tr))) = false ->
  let tr2 := fst (fst (shouldForwardImmediately t1 message (set_rateLimiter rl1 tr))) in
  let tr3 := Scheduler.processChannel_resume t2 (Resolved response) k tr2 in
  summary = batchHeader t0 (client tr) a
  /\ allImages = collectImages (pendingMessages a)
  /\ Spec.queueOf k tr2 = sliceLast 50 (pendingMessages a ++ [pendingOf message])
  /\ In (pendingOf message) (Spec.queueOf k tr2)
  /\ Spec.queueOf k tr3 = [].
Proof.
  intros Hget Hstart Hk Hne Hres tr2 tr3.
  assert (Hcall : summary = batchHeader t0 (client tr) a
                  /\ allImages = collectImages (pendingMessages a)).
  { unfold Scheduler.processChannel_start, createBatchSummary in Hstart.
    destruct (negb (nonEmpty (pendingMessages a))); [discriminate|].
    destruct (isActive a); [discriminate|].
    destruct (BATCH_INTERVAL tr <? now - lastActivity a); [discriminate|].
    destruct (truthy (batchHeader t0 (client tr) a)); [|discriminate].
    destruct (RateLimiter.canSendMessage t0 (rateLimiter tr)) as [rl0 admitted].
    destruct admitted; cbn [negb] in Hstart.
    - injection Hstart as _ <- <-; split; reflexivity.
    - destruct (RateLimiter.getStatus t0 rl0) as [rl2 st].
      destruct (RateLimiter.getTimeUntilReset t0 t0 rl2) as [rl3 m].
      discriminate. }
  destruct Hcall as [Hsum Himg].
  split; [exact Hsum|]; split; [exact Himg|].
  assert (Hq : Spec.queueOf k tr2
               = sliceLast 50 (pendingMessages a ++ [pendingOf message])).
  { pose proof (queued_message_is_pushed t1 message (set_rateLimiter rl1 tr)
                  Hres Hne) as Hf.
    cbv zeta in Hf; rewrite Hk in Hf.
    unfold tr2; rewrite Hf.
    now rewrite (queueOf_stored k (set_rateLimiter rl1 tr) a Hget). }
  split; [exact Hq|].
  split; [rewrite Hq; apply sliceLast_keeps_last; lia|].
  unfold tr3, Scheduler.processChannel_resume, Spec.queueOf, Spec.activityOf,
    getChannelActivity.
  cbn [channelActivities set_channelActivities set_rateLimiter].
  destruct (Map_get k (channelActivities tr2)) as [a2|] eqn:E2.
  - rewrite Map_get_replace_same; [reflexivity|].
    unfold Map_has; now rewrite E2.
  - rewrite E2; reflexivity.
Qed.

End FlushRace.

Section FlushRaceSample.
Import ActivityTracker.

Lemma message_queued_during_flush_is_lost_witness :
  let tr2 :=
    fst (fst (shouldForwardImmediately (R := Scenario.asciiRuntime) 1060200
                Samples.late
                (set_rateLimiter (RateLimiter.create 3) (Scenario.afterHello 3)))) in
  let tr3 :=
    Scheduler.processChannel_resume 1060400 (Resolved (lit "noted")) (lit "100") tr2 in
  In (pendingOf (R := Scenario.asciiRuntime) Samples.late) (Spec.queueOf (lit "100") tr2)
  /\ Spec.queueOf (lit "100") tr3 = [].
Proof.
  intros tr2 tr3.
  pose (a := Spec.activityOf (lit "100") (Scenario.afterHello 3)).
  destruct (@message_queued_during_flush_is_lost Scenario.asciiRuntime
              1060000 1060000 1060200 1060400 (lit "noted") (lit "100") a
              Samples.late (Scenario.afterHello 3) (RateLimiter.create 3)
              (batchHeader 1060000 Scenario.discord a)
              (collectImages (pendingMessages a))
              ltac:(vm_compute; reflexivity) ltac:(vm_compute; reflexivity)
              ltac:(reflexivity) ltac:(vm_compute; reflexivity)
              ltac:(vm_compute; reflexivity))
    as (_ & _ & _ & Hin & Hlost).
  split; [exact Hin | exact Hlost].
Defined.

End FlushRaceSample.
